(** * cockpit-tools: presentation builders, parsing utilities, account-list
      sorting and grouping, and the OAuth device flow of the shared page hook.

    The development embeds the TypeScript sources shallowly:
    - [JsNum], [JsString], [JsArray], [JsMap]: the JavaScript numbers,
      string built-ins, [Array.prototype.sort] and [Map] that the code uses;
    - [Presentation]: [platformAccountPresentation] -- credit metrics, the
      per-platform builders and [buildQuotaPreviewLines];
    - [PlatformUtils]: the cross-platform parsing helpers
      ([normalizeTimestamp], [clampPercent], ...);
    - [CodexPage]: the [filteredAccounts] and [groupedAccounts] memos of the
      Codex accounts page;
    - [OAuthFlow]: the device-flow part of [useProviderAccountsPage] as a
      transition system over user, render and promise events.
    Each of them is followed by the module that states and proves its
    properties. *)

From Stdlib Require Import ZArith QArith Qround Lqa Lia Bool List String Ascii.
From Stdlib Require Import Sorting.Sorted Sorting.Permutation.
Import ListNotations.

Set Implicit Arguments.
Set Warnings "-register-all".

(* ================================================================== *)
(** ** JavaScript values *)
(* ================================================================== *)

(** A value of TypeScript type [T | null | undefined]. *)
Inductive optional (A : Type) : Type :=
| Undefined : optional A
| Null : optional A
| Val : A -> optional A.
Arguments Undefined {A}.
Arguments Null {A}.
Arguments Val {A} _.

(** [x ?? d] on a value that is a [T] or [null]. *)
Definition nullish {A : Type} (x : option A) (d : A) : A :=
  match x with Some a => a | None => d end.

(** [x ?? y] on values that may be [null] or [undefined]. *)
Definition coalesce {A : Type} (x y : optional A) : optional A :=
  match x with Val _ => x | _ => y end.

(** [x ?? d] with a default that is always there. *)
Definition withDefault {A : Type} (x : optional A) (d : A) : A :=
  match x with Val a => a | _ => d end.

(** [x?.f()] *)
Definition chain {A B : Type} (f : A -> B) (x : optional A) : optional B :=
  match x with Val a => Val (f a) | _ => Undefined end.

Module JsNum.

(** A JavaScript number is a finite value, [NaN] or one of the two
    infinities.  Finite values are exact rationals: rounding error,
    overflow of finite arithmetic and the sign of zero are not modelled. *)
Inductive number : Type :=
| Fin (q : Q)
| NaN
| PosInf
| NegInf.

(** [Number.isFinite] on a number. *)
Definition isFinite (n : number) : bool :=
  match n with Fin _ => true | _ => false end.

(** [a < b]; every comparison with [NaN] is false. *)
Definition ltb (a b : number) : bool :=
  match a, b with
  | Fin x, Fin y => negb (Qle_bool y x)
  | NegInf, Fin _ | NegInf, PosInf | Fin _, PosInf => true
  | _, _ => false
  end.

(** [a <= b] *)
Definition leb (a b : number) : bool :=
  match a, b with
  | Fin x, Fin y => Qle_bool x y
  | NaN, _ | _, NaN => false
  | NegInf, _ | _, PosInf => true
  | _, _ => false
  end.

Definition gtb (a b : number) : bool := ltb b a.
Definition geb (a b : number) : bool := leb b a.

Definition sign (a : number) : Z :=
  match a with
  | Fin q => Z.sgn (Qnum q)
  | PosInf => 1
  | NegInf => -1
  | NaN => 0
  end.

Definition inf_of_sign (s : Z) : number :=
  if (s =? 0)%Z then NaN else if (0 <? s)%Z then PosInf else NegInf.

(** [a - b] *)
Definition sub (a b : number) : number :=
  match a, b with
  | Fin x, Fin y => Fin (x - y)
  | NaN, _ | _, NaN => NaN
  | PosInf, PosInf | NegInf, NegInf => NaN
  | PosInf, _ | _, NegInf => PosInf
  | NegInf, _ | _, PosInf => NegInf
  end.

(** [a * b] *)
Definition mul (a b : number) : number :=
  match a, b with
  | Fin x, Fin y => Fin (x * y)
  | NaN, _ | _, NaN => NaN
  | _, _ => inf_of_sign (sign a * sign b)
  end.

(** [a / b]; a zero divisor is taken as [+0]. *)
Definition div (a b : number) : number :=
  match a, b with
  | NaN, _ | _, NaN => NaN
  | Fin x, Fin y => if Qeq_bool y 0 then inf_of_sign (sign a) else Fin (x / y)
  | Fin _, _ => Fin 0
  | _, Fin y => inf_of_sign (sign a * (if Qeq_bool y 0 then 1 else sign b))
  | _, _ => NaN
  end.

(** Rounding to the nearest integer, ties towards +infinity, as [Math.round]. *)
Definition round_half_up (q : Q) : Z := Qfloor (q + (1 # 2)).

(** [Math.round] *)
Definition Math_round (n : number) : number :=
  match n with Fin q => Fin (inject_Z (round_half_up q)) | _ => n end.

(** [Math.floor] *)
Definition Math_floor (n : number) : number :=
  match n with Fin q => Fin (inject_Z (Qfloor q)) | _ => n end.

(** [a + b] *)
Definition add (a b : number) : number :=
  match a, b with
  | Fin x, Fin y => Fin (x + y)
  | NaN, _ | _, NaN => NaN
  | PosInf, NegInf | NegInf, PosInf => NaN
  | PosInf, _ | _, PosInf => PosInf
  | NegInf, _ | _, NegInf => NegInf
  end.

(** [Number.isNaN] *)
Definition isNaN (a : number) : bool :=
  match a with NaN => true | _ => false end.

(** [- a] *)
Definition neg (a : number) : number :=
  match a with
  | Fin x => Fin (- x)
  | NaN => NaN
  | PosInf => NegInf
  | NegInf => PosInf
  end.

(** [Math.max(a, b)] and [Math.min(a, b)]; [NaN] is contagious. *)
Definition Math_max (a b : number) : number :=
  match a, b with
  | NaN, _ | _, NaN => NaN
  | _, _ => if ltb a b then b else a
  end.

Definition Math_min (a b : number) : number :=
  match a, b with
  | NaN, _ | _, NaN => NaN
  | _, _ => if ltb b a then b else a
  end.

(** A number is truthy unless it is zero or [NaN]. *)
Definition truthy (a : number) : bool :=
  match a with
  | Fin x => negb (Qeq_bool x 0)
  | NaN => false
  | _ => true
  end.

(** The number that an integer literal denotes. *)
Definition of_Z (z : Z) : number := Fin (inject_Z z).

(** A number that is an integer within [lo, hi]. *)
Definition int_between (lo hi : Z) (n : number) : Prop :=
  exists z : Z, n = of_Z z /\ (lo <= z <= hi)%Z.

End JsNum.
Import JsNum.

(** A loosely typed backend payload ([unknown]). *)
Inductive value : Type :=
| VUndefined
| VNull
| VBool (b : bool)
| VNumber (n : number)
| VString (s : string)
| VArray (items : list value)
| VObject (fields : list (string * value)).

(* ================================================================== *)
(** ** JavaScript strings, arrays and maps *)
(* ================================================================== *)

Module JsString.

(** The string built-ins of the host that the code calls.  Their results
    depend on Unicode tables and on the locale, so the code is verified
    against this interface; [ascii] below is one implementation of it. *)
Record Builtins : Type := {
  trim : string -> string;
  toLowerCase : string -> string;
  toUpperCase : string -> string;
  localeCompare : string -> string -> number;
  numberToString : number -> string
}.

(** A string is truthy when it is not empty. *)
Definition nonEmpty (s : string) : bool := negb (String.eqb s EmptyString).

(** [s.includes(query)] *)
Fixpoint includes (s query : string) : bool :=
  if String.prefix query s then true
  else match s with
       | EmptyString => false
       | String _ rest => includes rest query
       end.

Definition isSpace (c : ascii) : bool :=
  let n := nat_of_ascii c in
  (Nat.eqb n 32 || (Nat.leb 9 n && Nat.leb n 13))%bool.

Fixpoint trimStart (s : string) : string :=
  match s with
  | String c rest => if isSpace c then trimStart rest else s
  | EmptyString => EmptyString
  end.

Fixpoint trimEnd (s : string) : string :=
  match s with
  | String c rest =>
      match trimEnd rest with
      | EmptyString => if isSpace c then EmptyString else String c EmptyString
      | kept => String c kept
      end
  | EmptyString => EmptyString
  end.

Definition lowerChar (c : ascii) : ascii :=
  let n := nat_of_ascii c in
  if (Nat.leb 65 n && Nat.leb n 90)%bool then ascii_of_nat (n + 32) else c.

Definition upperChar (c : ascii) : ascii :=
  let n := nat_of_ascii c in
  if (Nat.leb 97 n && Nat.leb n 122)%bool then ascii_of_nat (n - 32) else c.

Fixpoint mapChars (f : ascii -> ascii) (s : string) : string :=
  match s with
  | EmptyString => EmptyString
  | String c rest => String (f c) (mapChars f rest)
  end.

Definition digitChar (d : Z) : ascii := ascii_of_nat (48 + Z.to_nat d).

Fixpoint digits (fuel : nat) (z : Z) (acc : string) : string :=
  match fuel with
  | O => acc
  | S fuel' =>
      let acc' := String (digitChar (z mod 10)) acc in
      if (z / 10 =? 0)%Z then acc' else digits fuel' (z / 10) acc'
  end.

(** Decimal text of an integer. *)
Definition decimal (z : Z) : string :=
  if (z <? 0)%Z then String "-"%char (digits (Z.to_nat (- z)) (- z) EmptyString)
  else digits (S (Z.to_nat z)) z EmptyString.

(** The built-ins restricted to ASCII letters and white space, with
    code-unit order for [localeCompare] and integer printing for numbers. *)
Definition ascii : Builtins := {|
  trim := fun s => trimEnd (trimStart s);
  toLowerCase := mapChars lowerChar;
  toUpperCase := mapChars upperChar;
  localeCompare := fun a b =>
    match String.compare a b with
    | Lt => of_Z (-1)
    | Eq => of_Z 0
    | Gt => of_Z 1
    end;
  numberToString := fun n =>
    match n with
    | Fin q => decimal (Qfloor q)
    | NaN => "NaN"
    | PosInf => "Infinity"
    | NegInf => "-Infinity"
    end%string
|}.

Example ascii_trim : trim ascii "  Pro Plan "%string = "Pro Plan"%string.
Proof. reflexivity. Qed.

Example ascii_lower : toLowerCase ascii "Pro+ X"%string = "pro+ x"%string.
Proof. reflexivity. Qed.

Example ascii_number : numberToString ascii (of_Z 100) = "100"%string.
Proof. reflexivity. Qed.

End JsString.

Module JsArray.

Section Sort.
Variable A : Type.

(** The comparator's verdict: [a] goes before [b] when the comparator
    answers a negative number. *)
Definition before (cmp : A -> A -> number) (a b : A) : bool :=
  ltb (cmp a b) (of_Z 0).

(** [Array.prototype.sort] is stable; for a consistent comparator the
    language fixes its result, which is the one of a stable insertion
    sort: every element goes in front of the first element it is
    strictly before. *)
Fixpoint insert (cmp : A -> A -> number) (x : A) (sorted : list A) : list A :=
  match sorted with
  | [] => [x]
  | y :: rest => if before cmp x y then x :: y :: rest else y :: insert cmp x rest
  end.

Definition sort (cmp : A -> A -> number) (l : list A) : list A :=
  fold_left (fun acc x => insert cmp x acc) l [].

End Sort.

End JsArray.

Module JsMap.

(** A [Map<string, V>]: entries in insertion order, one per key. *)
Section Map.
Variable V : Type.

Definition t : Type := list (string * V).

Fixpoint get (m : t) (k : string) : option V :=
  match m with
  | [] => None
  | (k', v) :: rest => if String.eqb k' k then Some v else get rest k
  end.

Definition has (m : t) (k : string) : bool :=
  match get m k with Some _ => true | None => false end.

Fixpoint set (m : t) (k : string) (v : V) : t :=
  match m with
  | [] => [(k, v)]
  | (k', v') :: rest =>
      if String.eqb k' k then (k, v) :: rest else (k', v') :: set rest k v
  end.

End Map.

End JsMap.

(* ================================================================== *)
(** ** platformAccountPresentation: credit metrics *)
(* ================================================================== *)

Module Presentation.

Record CreditMetrics : Type := {
  usedPercent : number;
  used : number;
  total : number;
  left : number
}.

Definition toFiniteNumber (value : optional number) : option number :=
  match value with
  | Val n => if isFinite n then Some n else None
  | _ => None
  end.

(** The module-local [clampPercent] (it never returns [null]). *)
Definition clampPercent (value : number) : number :=
  if negb (isFinite value) then of_Z 0
  else if leb value (of_Z 0) then of_Z 0
  else if geb value (of_Z 100) then of_Z 100
  else Math_round value.

Definition buildCreditMetrics (used total left : optional number) : CreditMetrics :=
  let safeUsed := toFiniteNumber used in
  let safeTotal := toFiniteNumber total in
  let safeLeft := toFiniteNumber left in
  let usedPercent :=
    match safeTotal with
    | Some t =>
        if gtb t (of_Z 0) then
          match safeUsed with
          | Some u => clampPercent (mul (div u t) (of_Z 100))
          | None =>
              match safeLeft with
              | Some l => clampPercent (mul (div (sub t l) t) (of_Z 100))
              | None => of_Z 0
              end
          end
        else of_Z 0
    | None => of_Z 0
    end in
  {| usedPercent := usedPercent;
     used := nullish safeUsed (of_Z 0);
     total := nullish safeTotal (of_Z 0);
     left := nullish safeLeft (of_Z 0) |}.

(* ------------------------------------------------------------------ *)
(** *** The unified view model *)

(** [t(key, defaultValue, options)] of the translation engine. *)
Definition Translate : Type := string -> string -> list (string * string) -> string.

Module Metric.
Record UnifiedQuotaMetric : Type := {
  key : string;
  label : string;
  percentage : number;
  quotaClass : string;
  valueText : string;
  resetText : optional string;
  resetAt : value;
  used : optional number;
  total : optional number;
  left : optional number
}.
End Metric.

Module Line.
Record QuotaPreviewLine : Type := {
  key : string;
  label : string;
  percentage : number;
  quotaClass : string;
  text : string
}.
End Line.

Module View.
Record UnifiedAccountPresentation : Type := {
  id : string;
  displayName : string;
  planLabel : string;
  planClass : string;
  quotaItems : list Metric.UnifiedQuotaMetric;
  cycleText : optional string
}.
End View.

(** [x || y] on strings that may be missing: the first truthy operand,
    else the last one. *)
Definition orElse (x y : optional string) : optional string :=
  match x with
  | Val s => if JsString.nonEmpty s then x else y
  | _ => y
  end.

(** [x || d] with a plain string as the last operand. *)
Definition orString (x : optional string) (d : string) : string :=
  match x with
  | Val s => if JsString.nonEmpty s then s else d
  | _ => d
  end.

(** A reset time as stored in [resetAt]. *)
Definition resetValue (r : optional number) : value :=
  match r with
  | Val n => VNumber n
  | Null => VNull
  | Undefined => VUndefined
  end.

(** [r ? format(r) : fallback] *)
Definition whenSet (r : optional number) (format : number -> string)
    (fallback : string) : string :=
  match r with
  | Val n => if truthy n then format n else fallback
  | _ => fallback
  end.

(** [`${n}%`] *)
Definition percentText (B : JsString.Builtins) (n : number) : string :=
  (JsString.numberToString B n ++ "%")%string.

(* ------------------------------------------------------------------ *)
(** *** Account records and the helpers of [types/*] that the builders
    import.  The helper modules are outside the verified sources: each
    builder is verified for every implementation of its helpers. *)

Record DisplayGroup : Type := {
  group_id : string;
  group_name : string;
  group_models : list string
}.

Record AgQuotaDisplayItem : Type := {
  item_key : string;
  item_label : string;
  item_percentage : number;
  item_resetTime : string
}.

Module Antigravity.
Record Account : Type := {
  id : string;
  email : string;
  quota : value
}.
(** [getAntigravityQuotaDisplayItems] is taken as given here: it only
    feeds [quotaItems], and rests on the group service and on [Date]. *)
Record Types : Type := {
  getSubscriptionTier : value -> string;
  getAntigravityQuotaDisplayItems : Account -> list DisplayGroup -> list AgQuotaDisplayItem;
  getQuotaClass : number -> string;
  formatResetTimeDisplay : string -> Translate -> string
}.
End Antigravity.

Module Codex.
Record Quota : Type := {
  hourly_percentage : optional number;
  weekly_percentage : optional number;
  hourly_reset_time : optional number;
  weekly_reset_time : optional number
}.
Record Account : Type := {
  id : string;
  email : string;
  plan_type : optional string;
  created_at : number;
  tags : optional (list string);
  quota : optional Quota
}.
Record QuotaWindow : Type := {
  window_id : string;
  window_label : string;
  window_percentage : number;
  window_resetTime : optional number
}.
Record Types : Type := {
  getCodexPlanDisplayName : optional string -> string;
  getCodexQuotaWindows : optional Quota -> list QuotaWindow;
  getCodexQuotaClass : number -> string;
  formatCodexResetTime : number -> Translate -> string
}.
End Codex.

Module Copilot.
Record Quota : Type := {
  hourly_reset_time : optional number;
  weekly_reset_time : optional number
}.
Record Account : Type := {
  id : string;
  email : optional string;
  github_email : optional string;
  github_login : string;
  plan_type : optional string;
  copilot_plan : optional string;
  quota : optional Quota
}.
Record Usage : Type := {
  inlineSuggestionsUsedPercent : optional number;
  chatMessagesUsedPercent : optional number;
  premiumRequestsUsedPercent : optional number;
  inlineIncluded : optional bool;
  chatIncluded : optional bool;
  premiumIncluded : optional bool;
  allowanceResetAt : optional number
}.
Record Types : Type := {
  getGitHubCopilotPlanDisplayName : optional string -> string;
  getGitHubCopilotUsage : Account -> Usage;
  getGitHubCopilotQuotaClass : number -> string;
  formatGitHubCopilotResetTime : number -> Translate -> string
}.
End Copilot.

(** The credit summary that Windsurf and Kiro report. *)
Record CreditsSummary : Type := {
  planName : optional string;
  promptCreditsUsed : optional number;
  promptCreditsTotal : optional number;
  promptCreditsLeft : optional number;
  addOnCreditsUsed : optional number;
  addOnCreditsTotal : optional number;
  addOnCredits : optional number;
  bonusExpireDays : optional number;
  planEndsAt : optional number
}.

Module Windsurf.
Record Account : Type := {
  id : string;
  email : optional string;
  plan_type : optional string;
  copilot_plan : optional string;
  payload : value
}.
Record Types : Type := {
  getWindsurfCreditsSummary : Account -> CreditsSummary;
  getWindsurfPlanDisplayName : optional string -> string;
  getWindsurfAccountDisplayEmail : Account -> string;
  getWindsurfQuotaClass : number -> string;
  formatWindsurfResetTime : number -> Translate -> string
}.
End Windsurf.

Module Kiro.
Inductive KiroAccountStatus : Type := ok | banned | error.
Record Account : Type := {
  id : string;
  plan_type : optional string;
  plan_name : optional string;
  plan_tier : optional string;
  payload : value
}.
Record Types : Type := {
  getKiroCreditsSummary : Account -> CreditsSummary;
  getKiroPlanDisplayName : optional string -> string;
  getKiroPlanBadgeClass : string -> string;
  getKiroAccountStatus : Account -> KiroAccountStatus;
  getKiroAccountStatusReason : Account -> option string;
  getKiroAccountLoginProvider : Account -> optional string;
  getKiroAccountDisplayEmail : Account -> string;
  getKiroAccountDisplayUserId : Account -> string;
  getKiroQuotaClass : number -> string;
  formatKiroResetTime : number -> Translate -> string
}.
Record KiroAccountPresentation : Type := {
  base : View.UnifiedAccountPresentation;
  userIdText : string;
  signedInWithText : string;
  addOnExpiryText : string;
  accountStatus : KiroAccountStatus;
  accountStatusReason : option string;
  isBanned : bool;
  hasStatusError : bool
}.
End Kiro.

(* ------------------------------------------------------------------ *)
(** *** The builders *)

(** [items.slice(0, end)]: the end is truncated towards zero, and a
    negative end counts from the end of the list. *)
Definition slice0 {A : Type} (items : list A) (endArg : number) : list A :=
  match endArg with
  | Fin q =>
      let k := if Qle_bool 0 q then Qfloor q else Qceiling q in
      if (k <? 0)%Z then firstn (Z.to_nat (Z.of_nat (List.length items) + k)) items
      else firstn (Z.to_nat k) items
  | PosInf => items
  | NaN | NegInf => []
  end.

(** [x?.f] *)
Definition field {A B : Type} (f : A -> optional B) (x : optional A) : optional B :=
  match x with Val a => f a | _ => Undefined end.

Section Builders.
Variable B : JsString.Builtins.
Variable t : Translate.
Local Open Scope string_scope.

Definition buildAntigravityAccountPresentation (H : Antigravity.Types)
    (account : Antigravity.Account) (displayGroups : list DisplayGroup)
    : View.UnifiedAccountPresentation :=
  let normalizedTier := Antigravity.getSubscriptionTier H (Antigravity.quota account) in
  let quotaItems :=
    map (fun item =>
           {| Metric.key := item_key item;
              Metric.label := item_label item;
              Metric.percentage := item_percentage item;
              Metric.quotaClass := Antigravity.getQuotaClass H (item_percentage item);
              Metric.valueText := percentText B (item_percentage item);
              Metric.resetText :=
                Val (if JsString.nonEmpty (item_resetTime item)
                     then Antigravity.formatResetTimeDisplay H (item_resetTime item) t
                     else EmptyString);
              Metric.resetAt := VString (item_resetTime item);
              Metric.used := Undefined;
              Metric.total := Undefined;
              Metric.left := Undefined |})
        (Antigravity.getAntigravityQuotaDisplayItems H account displayGroups) in
  {| View.id := Antigravity.id account;
     View.displayName := Antigravity.email account;
     View.planLabel := normalizedTier;
     View.planClass := JsString.toLowerCase B normalizedTier;
     View.quotaItems := quotaItems;
     View.cycleText := Undefined |}.

Definition buildCodexAccountPresentation (H : Codex.Types) (account : Codex.Account)
    : View.UnifiedAccountPresentation :=
  let normalizedPlan := Codex.getCodexPlanDisplayName H (Codex.plan_type account) in
  let rawPlan := chain (JsString.trim B) (Codex.plan_type account) in
  let quotaItems :=
    map (fun window =>
           {| Metric.key := Codex.window_id window;
              Metric.label := Codex.window_label window;
              Metric.percentage := Codex.window_percentage window;
              Metric.quotaClass := Codex.getCodexQuotaClass H (Codex.window_percentage window);
              Metric.valueText := percentText B (Codex.window_percentage window);
              Metric.resetText :=
                Val (whenSet (Codex.window_resetTime window)
                       (fun r => Codex.formatCodexResetTime H r t) EmptyString);
              Metric.resetAt := resetValue (Codex.window_resetTime window);
              Metric.used := Undefined;
              Metric.total := Undefined;
              Metric.left := Undefined |})
        (Codex.getCodexQuotaWindows H (Codex.quota account)) in
  {| View.id := Codex.id account;
     View.displayName := Codex.email account;
     View.planLabel := orString rawPlan normalizedPlan;
     View.planClass := JsString.toLowerCase B normalizedPlan;
     View.quotaItems := quotaItems;
     View.cycleText := Undefined |}.

Record CopilotMetric : Type := {
  cm_valueText : string;
  cm_percentage : number;
  cm_quotaClass : string
}.

Definition buildCopilotMetric (percentage : optional number) (included : optional bool)
    (quotaClassGetter : number -> string) (includedText : string) : CopilotMetric :=
  if withDefault included false then
    {| cm_valueText := includedText;
       cm_percentage := of_Z 100;
       cm_quotaClass := quotaClassGetter (of_Z 0) |}
  else
    match toFiniteNumber percentage with
    | None =>
        {| cm_valueText := "-";
           cm_percentage := of_Z 0;
           cm_quotaClass := quotaClassGetter (of_Z 0) |}
    | Some p =>
        let normalized := Math_max (of_Z 0) (Math_min (of_Z 100) (Math_round p)) in
        {| cm_valueText := percentText B normalized;
           cm_percentage := normalized;
           cm_quotaClass := quotaClassGetter normalized |}
    end.

Definition buildGitHubCopilotAccountPresentation (H : Copilot.Types)
    (account : Copilot.Account) : View.UnifiedAccountPresentation :=
  let displayName :=
    withDefault (coalesce (Copilot.email account) (Copilot.github_email account))
                (Copilot.github_login account) in
  let normalizedPlan :=
    Copilot.getGitHubCopilotPlanDisplayName H
      (orElse (Copilot.plan_type account) (Copilot.copilot_plan account)) in
  let rawPlan :=
    orElse (chain (JsString.trim B) (Copilot.plan_type account))
           (chain (JsString.trim B) (Copilot.copilot_plan account)) in
  let usage := Copilot.getGitHubCopilotUsage H account in
  let includedText := t "githubCopilot.usage.included" "Included" [] in
  let inline :=
    buildCopilotMetric (Copilot.inlineSuggestionsUsedPercent usage)
      (Copilot.inlineIncluded usage) (Copilot.getGitHubCopilotQuotaClass H) includedText in
  let chat :=
    buildCopilotMetric (Copilot.chatMessagesUsedPercent usage)
      (Copilot.chatIncluded usage) (Copilot.getGitHubCopilotQuotaClass H) includedText in
  let premium :=
    buildCopilotMetric (Copilot.premiumRequestsUsedPercent usage)
      (Copilot.premiumIncluded usage) (Copilot.getGitHubCopilotQuotaClass H) includedText in
  let inlineReset :=
    coalesce (coalesce (field Copilot.hourly_reset_time (Copilot.quota account))
                       (Copilot.allowanceResetAt usage)) Null in
  let chatReset :=
    coalesce (coalesce (field Copilot.weekly_reset_time (Copilot.quota account))
                       (Copilot.allowanceResetAt usage)) Null in
  let format := fun r => Copilot.formatGitHubCopilotResetTime H r t in
  {| View.id := Copilot.id account;
     View.displayName := displayName;
     View.planLabel := orString rawPlan normalizedPlan;
     View.planClass := JsString.toLowerCase B normalizedPlan;
     View.quotaItems :=
       [ {| Metric.key := "inline";
            Metric.label := t "common.shared.quota.hourly" "Inline Suggestions" [];
            Metric.percentage := cm_percentage inline;
            Metric.quotaClass := cm_quotaClass inline;
            Metric.valueText := cm_valueText inline;
            Metric.resetText := Val (whenSet inlineReset format EmptyString);
            Metric.resetAt := resetValue inlineReset;
            Metric.used := Undefined;
            Metric.total := Undefined;
            Metric.left := Undefined |};
         {| Metric.key := "chat";
            Metric.label := t "common.shared.quota.weekly" "Chat messages" [];
            Metric.percentage := cm_percentage chat;
            Metric.quotaClass := cm_quotaClass chat;
            Metric.valueText := cm_valueText chat;
            Metric.resetText := Val (whenSet chatReset format EmptyString);
            Metric.resetAt := resetValue chatReset;
            Metric.used := Undefined;
            Metric.total := Undefined;
            Metric.left := Undefined |};
         {| Metric.key := "premium";
            Metric.label := t "githubCopilot.columns.premium" "Premium requests" [];
            Metric.percentage := cm_percentage premium;
            Metric.quotaClass := cm_quotaClass premium;
            Metric.valueText := cm_valueText premium;
            Metric.resetText := Undefined;
            Metric.resetAt := VUndefined;
            Metric.used := Undefined;
            Metric.total := Undefined;
            Metric.left := Undefined |} ];
     View.cycleText := Undefined |}.

(** One credit metric of Windsurf and Kiro. *)
Definition creditMetric (key label : string) (quotaClassOf : number -> string)
    (m : CreditMetrics) : Metric.UnifiedQuotaMetric :=
  {| Metric.key := key;
     Metric.label := label;
     Metric.percentage := usedPercent m;
     Metric.quotaClass := quotaClassOf (usedPercent m);
     Metric.valueText := percentText B (usedPercent m);
     Metric.resetText := Undefined;
     Metric.resetAt := VUndefined;
     Metric.used := Val (used m);
     Metric.total := Val (total m);
     Metric.left := Val (left m) |}.

Definition promptLabel : string :=
  t "common.shared.columns.promptCredits" "User Prompt credits" [].

Definition addOnLabel : string :=
  t "common.shared.columns.addOnPromptCredits" "Add-on prompt credits" [].

Definition planEndsUnknown : string :=
  t "common.shared.credits.planEndsUnknown" "配额周期时间未知" [].

Definition buildWindsurfAccountPresentation (H : Windsurf.Types)
    (account : Windsurf.Account) : View.UnifiedAccountPresentation :=
  let credits := Windsurf.getWindsurfCreditsSummary H account in
  let normalizedPlan :=
    Windsurf.getWindsurfPlanDisplayName H
      (coalesce (coalesce (coalesce (Windsurf.plan_type account)
                                    (Windsurf.copilot_plan account))
                          (planName credits)) Null) in
  let rawPlan :=
    orElse (orElse (chain (JsString.trim B) (Windsurf.plan_type account))
                   (chain (JsString.trim B) (Windsurf.copilot_plan account)))
           (chain (JsString.trim B) (planName credits)) in
  let promptMetrics :=
    buildCreditMetrics (promptCreditsUsed credits) (promptCreditsTotal credits)
                       (promptCreditsLeft credits) in
  let addOnMetrics :=
    buildCreditMetrics (addOnCreditsUsed credits) (addOnCreditsTotal credits)
                       (addOnCredits credits) in
  {| View.id := Windsurf.id account;
     View.displayName :=
       orString (chain (JsString.trim B) (Windsurf.email account))
                (Windsurf.getWindsurfAccountDisplayEmail H account);
     View.planLabel := orString rawPlan normalizedPlan;
     View.planClass := JsString.toLowerCase B normalizedPlan;
     View.cycleText :=
       Val (whenSet (planEndsAt credits)
              (fun r => Windsurf.formatWindsurfResetTime H r t) planEndsUnknown);
     View.quotaItems :=
       [ creditMetric "prompt" promptLabel (Windsurf.getWindsurfQuotaClass H) promptMetrics;
         creditMetric "addon" addOnLabel (Windsurf.getWindsurfQuotaClass H) addOnMetrics ] |}.

Definition shouldShowKiroAddOn (addOnMetrics : CreditMetrics)
    (bonusExpireDays : optional number) : bool :=
  gtb (left addOnMetrics) (of_Z 0)
  || gtb (used addOnMetrics) (of_Z 0)
  || gtb (total addOnMetrics) (of_Z 0)
  || match bonusExpireDays with
     | Val n => isFinite n && gtb n (of_Z 0)
     | _ => false
     end.

Definition buildKiroAccountPresentation (H : Kiro.Types) (account : Kiro.Account)
    : Kiro.KiroAccountPresentation :=
  let credits := Kiro.getKiroCreditsSummary H account in
  let normalizedPlan :=
    Kiro.getKiroPlanDisplayName H
      (coalesce (coalesce (coalesce (coalesce (Kiro.plan_type account)
                                              (Kiro.plan_name account))
                                    (Kiro.plan_tier account))
                          (planName credits)) Null) in
  let rawPlan :=
    orElse (orElse (chain (JsString.trim B) (Kiro.plan_type account))
                   (chain (JsString.trim B) (Kiro.plan_name account)))
           (chain (JsString.trim B) (Kiro.plan_tier account)) in
  let promptMetrics :=
    buildCreditMetrics (promptCreditsUsed credits) (promptCreditsTotal credits)
                       (promptCreditsLeft credits) in
  let addOnMetrics :=
    buildCreditMetrics (addOnCreditsUsed credits) (addOnCreditsTotal credits)
                       (addOnCredits credits) in
  let showAddOn := shouldShowKiroAddOn addOnMetrics (bonusExpireDays credits) in
  let accountStatus := Kiro.getKiroAccountStatus H account in
  let accountStatusReason := Kiro.getKiroAccountStatusReason H account in
  let provider := Kiro.getKiroAccountLoginProvider H account in
  let signedInWithText :=
    match provider with
    | Val p =>
        if JsString.nonEmpty p
        then t "kiro.account.signedInWithProvider" "Signed in with {{provider}}"
               [("provider", p)]
        else t "kiro.account.signedInWithUnknown" "Signed in with unknown" []
    | _ => t "kiro.account.signedInWithUnknown" "Signed in with unknown" []
    end%string in
  let addOnExpiryText :=
    match toFiniteNumber (bonusExpireDays credits) with
    | Some d =>
        t "kiro.credits.expiryDays" "{{days}} days"
          [("days", JsString.numberToString B (Math_max (of_Z 0) (Math_round d)))]
    | None => t "kiro.credits.expiryUnknown" "—" []
    end%string in
  let quotaItems :=
    ([ creditMetric "prompt" promptLabel (Kiro.getKiroQuotaClass H) promptMetrics ]
     ++ (if showAddOn
         then [ creditMetric "addon" addOnLabel (Kiro.getKiroQuotaClass H) addOnMetrics ]
         else []))%list in
  {| Kiro.base :=
       {| View.id := Kiro.id account;
          View.displayName := Kiro.getKiroAccountDisplayEmail H account;
          View.planLabel := orString rawPlan normalizedPlan;
          View.planClass := Kiro.getKiroPlanBadgeClass H (orString rawPlan normalizedPlan);
          View.cycleText :=
            Val (whenSet (planEndsAt credits)
                   (fun r => Kiro.formatKiroResetTime H r t) planEndsUnknown);
          View.quotaItems := quotaItems |};
     Kiro.userIdText := Kiro.getKiroAccountDisplayUserId H account;
     Kiro.signedInWithText := signedInWithText;
     Kiro.addOnExpiryText := addOnExpiryText;
     Kiro.accountStatus := accountStatus;
     Kiro.accountStatusReason := accountStatusReason;
     Kiro.isBanned := match accountStatus with Kiro.banned => true | _ => false end;
     Kiro.hasStatusError := match accountStatus with Kiro.error => true | _ => false end |}.

End Builders.

Definition previewLine (item : Metric.UnifiedQuotaMetric) : Line.QuotaPreviewLine :=
  {| Line.key := Metric.key item;
     Line.label := Metric.label item;
     Line.percentage := Metric.percentage item;
     Line.quotaClass := Metric.quotaClass item;
     Line.text := (Metric.label item ++ " " ++ Metric.valueText item)%string |}.

(** [limit] is [None] when the caller leaves the argument out. *)
Definition buildQuotaPreviewLines (quotaItems : list Metric.UnifiedQuotaMetric)
    (limit : option number) : list Line.QuotaPreviewLine :=
  let limit := nullish limit (of_Z 3) in
  map previewLine (slice0 quotaItems (Math_max (of_Z 0) limit)).

End Presentation.

(* ================================================================== *)
(** ** Facts about rounding *)
(* ================================================================== *)

(** Clamping an integer into [0, 100]. *)
Definition clampZ (z : Z) : Z := Z.max 0 (Z.min 100 z).

Lemma Qle_bool_false (x y : Q) : Qle_bool x y = false -> (y < x)%Q.
Proof.
  intros H. apply Qnot_le_lt. intros Hle.
  apply Qle_bool_iff in Hle. congruence.
Qed.

Lemma round_half_up_nonpos (q : Q) : (q <= 0)%Q -> (round_half_up q <= 0)%Z.
Proof.
  intros H. unfold round_half_up.
  change 0%Z with (Qfloor (1 # 2)).
  apply Qfloor_resp_le. lra.
Qed.

Lemma round_half_up_nonneg (q : Q) : (0 <= q)%Q -> (0 <= round_half_up q)%Z.
Proof.
  intros H. unfold round_half_up.
  change 0%Z with (Qfloor (1 # 2)).
  apply Qfloor_resp_le. lra.
Qed.

Lemma round_half_up_ge_100 (q : Q) : (100 <= q)%Q -> (100 <= round_half_up q)%Z.
Proof.
  intros H. unfold round_half_up.
  change 100%Z with (Qfloor (100 # 1)).
  apply Qfloor_resp_le. lra.
Qed.

Lemma round_half_up_le_100 (q : Q) : (q <= 100)%Q -> (round_half_up q <= 100)%Z.
Proof.
  intros H. unfold round_half_up.
  change 100%Z with (Qfloor (201 # 2)).
  apply Qfloor_resp_le. lra.
Qed.

(** [Math.round] stays within one half of its argument. *)
Lemma round_half_up_near (q : Q) :
  (q - (1 # 2) < inject_Z (round_half_up q) <= q + (1 # 2))%Q.
Proof.
  unfold round_half_up.
  pose proof (Qfloor_le (q + (1 # 2))) as Hle.
  pose proof (Qlt_floor (q + (1 # 2))) as Hlt.
  rewrite inject_Z_plus in Hlt.
  set (f := inject_Z (Qfloor (q + (1 # 2)))) in *.
  change (inject_Z 1) with 1%Q in Hlt.
  split; lra.
Qed.

Module PresentationFacts.
Import Presentation.

Lemma clampPercent_Fin (q : Q) :
  clampPercent (Fin q) = of_Z (clampZ (round_half_up q)).
Proof.
  unfold clampPercent, leb, geb, of_Z, clampZ. simpl.
  destruct (Qle_bool q (inject_Z 0)) eqn:H0.
  - apply Qle_bool_iff in H0.
    pose proof (round_half_up_nonpos H0).
    f_equal. f_equal. lia.
  - apply Qle_bool_false in H0.
    destruct (Qle_bool (inject_Z 100) q) eqn:H100.
    + apply Qle_bool_iff in H100.
      pose proof (round_half_up_ge_100 H100).
      f_equal. f_equal. lia.
    + apply Qle_bool_false in H100.
      assert (0 <= round_half_up q)%Z by (apply round_half_up_nonneg; apply Qlt_le_weak; exact H0).
      assert (round_half_up q <= 100)%Z by (apply round_half_up_le_100; apply Qlt_le_weak; exact H100).
      f_equal. f_equal. lia.
Qed.

Lemma clampZ_range (z : Z) : (0 <= clampZ z <= 100)%Z.
Proof. unfold clampZ. lia. Qed.

Lemma clampPercent_range (n : number) : int_between 0 100 (clampPercent n).
Proof.
  destruct n as [q| | |].
  - rewrite clampPercent_Fin. exists (clampZ (round_half_up q)).
    split; [reflexivity | apply clampZ_range].
  - exists 0%Z. split; [reflexivity | lia].
  - exists 0%Z. split; [reflexivity | lia].
  - exists 0%Z. split; [reflexivity | lia].
Qed.

End PresentationFacts.

(* ================================================================== *)
(** ** buildCreditMetrics *)
(* ================================================================== *)

Module CreditMetricsSpec.
Import Presentation PresentationFacts.

(** The input when it is a known finite number. *)
Definition known (x : optional number) : option Q :=
  match x with Val (Fin q) => Some q | _ => None end.

(** The percentage as the specification words it, before any clamping:
    [round(used/total*100)] when [total > 0] and [used] is known, else
    [round((total-left)/total*100)] when [left] is known, else [0]. *)
Definition roundedPercent (used total left : optional number) : Z :=
  match known total with
  | Some t =>
      if negb (Qle_bool t 0) then
        match known used with
        | Some u => round_half_up (u / t * 100)
        | None =>
            match known left with
            | Some l => round_half_up ((t - l) / t * 100)
            | None => 0
            end
        end
      else 0
  | None => 0
  end.

(** The input when it is a finite number and [0] otherwise. *)
Definition finite_or_zero (x : optional number) : number :=
  match known x with Some q => Fin q | None => of_Z 0 end.

Lemma toFiniteNumber_known (x : optional number) :
  toFiniteNumber x = option_map Fin (known x).
Proof. destruct x as [| |[q| | |]]; reflexivity. Qed.

Lemma Qeq_bool_pos (t : Q) : Qle_bool t 0 = false -> Qeq_bool t 0 = false.
Proof.
  intros H. apply Qle_bool_false in H.
  destruct (Qeq_bool t 0) eqn:E; [|reflexivity].
  apply Qeq_bool_iff in E. lra.
Qed.

Lemma buildCreditMetrics_fields (u t l : optional number) :
  used (buildCreditMetrics u t l) = finite_or_zero u /\
  total (buildCreditMetrics u t l) = finite_or_zero t /\
  left (buildCreditMetrics u t l) = finite_or_zero l.
Proof.
  unfold buildCreditMetrics, finite_or_zero. cbn [used total left].
  rewrite !toFiniteNumber_known.
  destruct (known u), (known t), (known l); repeat split; reflexivity.
Qed.

Lemma buildCreditMetrics_usedPercent (u t l : optional number) :
  usedPercent (buildCreditMetrics u t l) = of_Z (clampZ (roundedPercent u t l)).
Proof.
  unfold buildCreditMetrics, roundedPercent. cbn [usedPercent].
  rewrite !toFiniteNumber_known.
  destruct (known t) as [qt|]; cbn [option_map]; [|reflexivity].
  unfold gtb, ltb, of_Z. change (inject_Z 0) with 0%Q.
  destruct (Qle_bool qt 0) eqn:Ht; cbn [negb]; [reflexivity|].
  pose proof (Qeq_bool_pos _ Ht) as Hz.
  destruct (known u) as [qu|]; cbn [option_map].
  - unfold div. rewrite Hz. cbn [mul]. apply clampPercent_Fin.
  - destruct (known l) as [ql|]; cbn [option_map]; [|reflexivity].
    cbn [sub]. unfold div. rewrite Hz. cbn [mul]. apply clampPercent_Fin.
Qed.



(** The three examples of the specification. *)
Example buildCreditMetrics_used_30_of_100 :
  usedPercent (buildCreditMetrics (Val (of_Z 30)) (Val (of_Z 100)) Undefined) = of_Z 30.
Proof. vm_compute. reflexivity. Qed.

Example buildCreditMetrics_left_70_of_100 :
  usedPercent (buildCreditMetrics Undefined (Val (of_Z 100)) (Val (of_Z 70))) = of_Z 30.
Proof. vm_compute. reflexivity. Qed.

Example buildCreditMetrics_total_zero :
  usedPercent (buildCreditMetrics (Val (of_Z 30)) (Val (of_Z 0)) (Val (of_Z 70))) = of_Z 0.
Proof. vm_compute. reflexivity. Qed.

(** C10: for every input triple the percentage is an integer within
    [0, 100], and [used], [total] and [left] are the corresponding input
    when that is a finite number and [0] otherwise; so every field of the
    result is a finite number. *)
Theorem buildCreditMetrics_total_function :
  forall u t l : optional number,
    let m := buildCreditMetrics u t l in
    int_between 0 100 (usedPercent m) /\
    used m = finite_or_zero u /\
    total m = finite_or_zero t /\
    left m = finite_or_zero l /\
    isFinite (usedPercent m) = true /\
    isFinite (used m) = true /\
    isFinite (total m) = true /\
    isFinite (left m) = true.
Proof.
  intros u t l m. subst m.
  destruct (buildCreditMetrics_fields u t l) as (Hu & Ht & Hl).
  rewrite Hu, Ht, Hl, buildCreditMetrics_usedPercent.
  split.
  - exists (clampZ (roundedPercent u t l)). split; [reflexivity | apply clampZ_range].
  - repeat split; try reflexivity;
      unfold finite_or_zero; match goal with |- context [known ?x] => destruct (known x) end;
      reflexivity.
Qed.

End CreditMetricsSpec.

(* ================================================================== *)
(** ** Cross-platform parsing helpers *)
(* ================================================================== *)

Module PlatformUtils.

(** [isRecord]: a non-null object that is not an array. *)
Definition isRecord (v : value) : bool :=
  match v with VObject _ => true | _ => false end.

(** [record[key]]; a missing key reads as [undefined]. *)
Fixpoint getField (fields : list (string * value)) (key : string) : value :=
  match fields with
  | [] => VUndefined
  | (k, v) :: rest => if String.eqb k key then v else getField rest key
  end.

(** The first non-null result of [f] over [xs], as a [for] loop that
    returns from inside its body. *)
Fixpoint firstSome {A B : Type} (f : A -> option B) (xs : list A) : option B :=
  match xs with
  | [] => None
  | x :: rest => match f x with Some b => Some b | None => firstSome f rest end
  end.

Definition candidates : list string :=
  ["seconds"; "unixSeconds"; "unix"; "timestamp"; "value"]%string.

(** [1e12] *)
Definition ms_threshold : number := of_Z 1000000000000.

Section Builtins.

(** The built-ins the helpers call on strings: [s.trim()], [Number(s)] and
    [Date.parse(s)]. *)
Variable B : JsString.Builtins.
Variable Number_of_string : string -> number.
Variable Date_parse : string -> number.

Definition toNumber (v : value) : option number :=
  match v with
  | VNumber n => if isFinite n then Some n else None
  | VString s =>
      let n := Number_of_string (JsString.trim B s) in
      if isFinite n then Some n else None
  | _ => None
  end.

(** Seconds or milliseconds, told apart by magnitude. *)
Definition secondsOf (n : number) : option number :=
  if leb n (of_Z 0) then None
  else if gtb n ms_threshold then Some (Math_floor (div n (of_Z 1000)))
  else Some (Math_floor n).

Fixpoint normalizeTimestamp (v : value) : option number :=
  match v with
  | VString s =>
      let trimmed := JsString.trim B s in
      if String.eqb trimmed EmptyString then None
      else
        let asNumber := Number_of_string trimmed in
        if isFinite asNumber then secondsOf asNumber
        else
          let parsed := Date_parse trimmed in
          if isFinite parsed && gtb parsed (of_Z 0)
          then Some (Math_floor (div parsed (of_Z 1000)))
          else None
  | _ =>
      match toNumber v with
      | Some n => secondsOf n
      | None =>
          match v with
          | VObject fields =>
              let fix field (fs : list (string * value)) (key : string)
                  : option number :=
                match fs with
                | [] => None
                | (k, x) :: rest =>
                    if String.eqb k key then normalizeTimestamp x
                    else field rest key
                end in
              firstSome (field fields) candidates
          | _ => None
          end
      end
  end.

(** The exported [clampPercent]: [null] stands for "unknown". *)
Definition clampPercent (v : optional number) : option number :=
  match v with
  | Val n =>
      if negb (isFinite n) then None
      else if ltb n (of_Z 0) then Some (of_Z 0)
      else if gtb n (of_Z 100) then Some (of_Z 100)
      else Some (Math_round n)
  | _ => None
  end.

(** [safeLeft] *)
Definition safeLeft (total used : option number) : option number :=
  match total with
  | None => None
  | Some t =>
      match used with
      | None => Some t
      | Some u => Some (Math_max (of_Z 0) (sub t u))
      end
  end.


(** The nested lookup of the record branch is [normalizeTimestamp] of the
    field's value. *)
Lemma normalizeTimestamp_record (fields : list (string * value)) :
  normalizeTimestamp (VObject fields)
  = firstSome (fun key => normalizeTimestamp (getField fields key)) candidates.
Proof.
  cbn [normalizeTimestamp toNumber].
  set (field := fix field (fs : list (string * value)) (key : string) : option number :=
                  match fs with
                  | [] => None
                  | (k, x) :: rest =>
                      if String.eqb k key then normalizeTimestamp x else field rest key
                  end).
  assert (H : forall fs key, field fs key = normalizeTimestamp (getField fs key)).
  { induction fs as [|[k x] rest IH]; intros key; cbn [field getField].
    - reflexivity.
    - destruct (String.eqb k key); [reflexivity | apply IH]. }
  unfold candidates. cbn [firstSome]. rewrite !H. reflexivity.
Qed.

Lemma secondsOf_Fin (q : Q) :
  secondsOf (Fin q)
  = if Qle_bool q 0 then None
    else if Qle_bool q 1000000000000 then Some (of_Z (Qfloor q))
    else Some (of_Z (Qfloor (q / 1000))).
Proof.
  unfold secondsOf, leb, gtb, ltb, ms_threshold, of_Z.
  change (inject_Z 0) with 0%Q.
  change (inject_Z 1000000000000) with 1000000000000%Q.
  destruct (Qle_bool q 0); [reflexivity|].
  destruct (Qle_bool q 1000000000000); reflexivity.
Qed.


(** C8: [clampPercent] answers [null] or an integer within [0, 100]:
    [null], [undefined] and non-finite inputs give [null], inputs below [0]
    give [0], inputs above [100] give [100], and an input within range is
    rounded to the nearest integer. *)
Theorem clampPercent_null_or_percentage :
  (forall x : optional number,
      match clampPercent x with
      | None => True
      | Some r => int_between 0 100 r
      end) /\
  clampPercent Null = None /\
  clampPercent Undefined = None /\
  (forall n : number, isFinite n = false -> clampPercent (Val n) = None) /\
  (forall q : Q,
      (q < 0 -> clampPercent (Val (Fin q)) = Some (of_Z 0)) /\
      (100 < q -> clampPercent (Val (Fin q)) = Some (of_Z 100)) /\
      (0 <= q <= 100 ->
       clampPercent (Val (Fin q)) = Some (of_Z (round_half_up q)) /\
       q - (1 # 2) < inject_Z (round_half_up q) <= q + (1 # 2)))%Q /\
  clampPercent (Val (of_Z 150)) = Some (of_Z 100) /\
  clampPercent (Val (of_Z (-3))) = Some (of_Z 0) /\
  clampPercent (Val (Fin (426 # 10))) = Some (of_Z 43).
Proof.
  assert (Hq : forall q : Q,
    clampPercent (Val (Fin q))
    = if Qle_bool 0 q then
        if Qle_bool q 100 then Some (of_Z (round_half_up q)) else Some (of_Z 100)
      else Some (of_Z 0)).
  { intros q. unfold clampPercent, gtb, ltb, of_Z. cbn [isFinite negb Math_round].
    change (inject_Z 0) with 0%Q. change (inject_Z 100) with 100%Q.
    destruct (Qle_bool 0 q); cbn [negb]; [|reflexivity].
    destruct (Qle_bool q 100); reflexivity. }
  split; [|split; [|split; [|split; [|split; [|split; [|split]]]]]].
  - intros [| |[q| | |]]; try exact I.
    rewrite Hq.
    destruct (Qle_bool 0 q) eqn:H0.
    + destruct (Qle_bool q 100) eqn:H1.
      * apply Qle_bool_iff in H0. apply Qle_bool_iff in H1.
        exists (round_half_up q). split; [reflexivity|].
        split; [apply round_half_up_nonneg | apply round_half_up_le_100]; assumption.
      * exists 100%Z. split; [reflexivity | lia].
    + exists 0%Z. split; [reflexivity | lia].
  - reflexivity.
  - reflexivity.
  - intros n Hn. destruct n; [discriminate Hn | reflexivity ..].
  - intros q. rewrite Hq. split; [|split].
    + intros Hlt. destruct (Qle_bool 0 q) eqn:H0; [|reflexivity].
      apply Qle_bool_iff in H0. lra.
    + intros Hgt. destruct (Qle_bool 0 q) eqn:H0.
      * destruct (Qle_bool q 100) eqn:H1; [|reflexivity].
        apply Qle_bool_iff in H1. lra.
      * apply Qle_bool_false in H0. lra.
    + intros [Hlo Hhi]. apply Qle_bool_iff in Hlo. apply Qle_bool_iff in Hhi.
      rewrite Hlo, Hhi. split; [reflexivity | apply round_half_up_near].
  - vm_compute. reflexivity.
  - vm_compute. reflexivity.
  - vm_compute. reflexivity.
Qed.

End Builtins.

End PlatformUtils.

(* ================================================================== *)
(** ** The presentation builders *)
(* ================================================================== *)

(** Concrete helpers for evaluating the builders on examples. *)
Module Sample.
Import Presentation.
Local Open Scope string_scope.

(** A translator that answers the default text. *)
Definition translate : Translate := fun _ defaultValue _ => defaultValue.

Definition noCredits : CreditsSummary :=
  {| planName := Undefined;
     promptCreditsUsed := Val (of_Z 30);
     promptCreditsTotal := Val (of_Z 100);
     promptCreditsLeft := Undefined;
     addOnCreditsUsed := Val (of_Z 0);
     addOnCreditsTotal := Val (of_Z 0);
     addOnCredits := Val (of_Z 0);
     bonusExpireDays := Undefined;
     planEndsAt := Undefined |}.

Definition withBonus (days : number) : CreditsSummary :=
  {| planName := Undefined;
     promptCreditsUsed := Val (of_Z 30);
     promptCreditsTotal := Val (of_Z 100);
     promptCreditsLeft := Undefined;
     addOnCreditsUsed := Val (of_Z 0);
     addOnCreditsTotal := Val (of_Z 0);
     addOnCredits := Val (of_Z 0);
     bonusExpireDays := Val days;
     planEndsAt := Undefined |}.

Definition quotaClassOf (n : number) : string :=
  if ltb n (of_Z 50) then "high" else if ltb n (of_Z 80) then "medium" else "low".

(** Kiro helpers: the display name buckets the plan into FREE or PRO, and
    the badge class is the lower-cased text it is given. *)
Definition kiro (credits : CreditsSummary) : Kiro.Types :=
  {| Kiro.getKiroCreditsSummary := fun _ => credits;
     Kiro.getKiroPlanDisplayName := fun plan =>
       match plan with
       | Val p => if JsString.includes (JsString.toLowerCase JsString.ascii p) "pro"
                  then "PRO" else "FREE"
       | _ => "FREE"
       end;
     Kiro.getKiroPlanBadgeClass := JsString.toLowerCase JsString.ascii;
     Kiro.getKiroAccountStatus := fun _ => Kiro.ok;
     Kiro.getKiroAccountStatusReason := fun _ => None;
     Kiro.getKiroAccountLoginProvider := fun _ => Val "Google";
     Kiro.getKiroAccountDisplayEmail := fun a => Kiro.id a;
     Kiro.getKiroAccountDisplayUserId := fun a => Kiro.id a;
     Kiro.getKiroQuotaClass := quotaClassOf;
     Kiro.formatKiroResetTime := fun n _ => JsString.numberToString JsString.ascii n |}.

Definition kiroAccount (plan : optional string) : Kiro.Account :=
  {| Kiro.id := "kiro_1";
     Kiro.plan_type := plan;
     Kiro.plan_name := Undefined;
     Kiro.plan_tier := Undefined;
     Kiro.payload := VNull |}.

Definition metric (label percent : string) : Metric.UnifiedQuotaMetric :=
  {| Metric.key := label;
     Metric.label := label;
     Metric.percentage := of_Z 0;
     Metric.quotaClass := "high";
     Metric.valueText := percent;
     Metric.resetText := Undefined;
     Metric.resetAt := VUndefined;
     Metric.used := Undefined;
     Metric.total := Undefined;
     Metric.left := Undefined |}.

End Sample.

Module PresentationSpec.
Import Presentation PresentationFacts CreditMetricsSpec.
Local Open Scope string_scope.

Lemma gtb_zero_finite (q : Q) : gtb (Fin q) (of_Z 0) = negb (leb (Fin q) (of_Z 0)).
Proof. reflexivity. Qed.

Lemma finite_or_zero_Fin (x : optional number) : exists q, finite_or_zero x = Fin q.
Proof.
  unfold finite_or_zero. destruct (known x) as [q|].
  - exists q. reflexivity.
  - exists (inject_Z 0). reflexivity.
Qed.

(** On the metrics that [buildCreditMetrics] returns, "some amount is
    positive" is the negation of "every amount is at most zero". *)
Lemma shouldShowKiroAddOn_built (u tt l bonus : optional number) :
  let m := buildCreditMetrics u tt l in
  shouldShowKiroAddOn m bonus
  = negb (leb (left m) (of_Z 0) && leb (used m) (of_Z 0) && leb (total m) (of_Z 0)
          && negb match bonus with
                  | Val n => isFinite n && gtb n (of_Z 0)
                  | _ => false
                  end).
Proof.
  intros m. subst m. unfold shouldShowKiroAddOn.
  destruct (buildCreditMetrics_fields u tt l) as (Hu & Ht & Hl).
  rewrite Hu, Ht, Hl.
  destruct (finite_or_zero_Fin u) as [qu ->].
  destruct (finite_or_zero_Fin tt) as [qt ->].
  destruct (finite_or_zero_Fin l) as [ql ->].
  rewrite !gtb_zero_finite.
  destruct (leb (Fin ql) (of_Z 0)), (leb (Fin qu) (of_Z 0)), (leb (Fin qt) (of_Z 0));
    cbn [negb andb orb]; try reflexivity.
  destruct bonus as [| |n]; cbn [negb]; try reflexivity.
  destruct (isFinite n && gtb n (of_Z 0)); reflexivity.
Qed.

(** C2: the Kiro builder leaves the add-on metric out exactly when the
    add-on credit metrics have [left <= 0], [used <= 0] and [total <= 0]
    and there is no positive finite bonus-expiry-days value; with add-on
    metrics [{left:0, used:0, total:0}] the list has one item (prompt) when
    [bonusExpireDays] is undefined and two when it is [5]. *)
Theorem kiro_addon_suppressed_iff_no_activity :
  forall (B : JsString.Builtins) (t : Translate) (H : Kiro.Types)
         (account : Kiro.Account),
    let credits := Kiro.getKiroCreditsSummary H account in
    let addOn := buildCreditMetrics (addOnCreditsUsed credits)
                   (addOnCreditsTotal credits) (addOnCredits credits) in
    let items := View.quotaItems (Kiro.base (buildKiroAccountPresentation B t H account)) in
    let noActivity :=
      leb (left addOn) (of_Z 0) && leb (used addOn) (of_Z 0)
      && leb (total addOn) (of_Z 0) in
    let positiveBonus :=
      match bonusExpireDays credits with
      | Val n => isFinite n && gtb n (of_Z 0)
      | _ => false
      end in
    (map Metric.key items = ["prompt"]
     <-> noActivity = true /\ positiveBonus = false) /\
    (map Metric.key items = ["prompt"; "addon"]
     <-> ~ (noActivity = true /\ positiveBonus = false)) /\
    (left addOn = of_Z 0 -> used addOn = of_Z 0 -> total addOn = of_Z 0 ->
     bonusExpireDays credits = Undefined -> List.length items = 1%nat) /\
    (left addOn = of_Z 0 -> used addOn = of_Z 0 -> total addOn = of_Z 0 ->
     bonusExpireDays credits = Val (of_Z 5) -> List.length items = 2%nat).
Proof.
  intros B t H account credits addOn items noActivity positiveBonus.
  assert (Hshow : items
    = creditMetric B "prompt" (promptLabel t) (Kiro.getKiroQuotaClass H)
        (buildCreditMetrics (promptCreditsUsed credits) (promptCreditsTotal credits)
           (promptCreditsLeft credits))
      :: (if negb (noActivity && negb positiveBonus)
          then [creditMetric B "addon" (addOnLabel t) (Kiro.getKiroQuotaClass H) addOn]
          else [])).
  { subst items noActivity positiveBonus addOn.
    unfold buildKiroAccountPresentation. cbn [Kiro.base View.quotaItems].
    fold credits. rewrite shouldShowKiroAddOn_built. reflexivity. }
  rewrite Hshow. clear Hshow.
  split; [|split; [|split]].
  - destruct noActivity, positiveBonus; cbn; split; intros H0;
      try reflexivity; try discriminate H0; try (split; reflexivity);
      destruct H0; discriminate.
  - destruct noActivity, positiveBonus; cbn; split; intros H0;
      try reflexivity; try discriminate H0;
      try (intros [? ?]; discriminate);
      exfalso; apply H0; split; reflexivity.
  - intros Hl Hu Ht Hb. subst noActivity positiveBonus.
    rewrite Hl, Hu, Ht, Hb. reflexivity.
  - intros Hl Hu Ht Hb. subst noActivity positiveBonus.
    rewrite Hl, Hu, Ht, Hb. reflexivity.
Qed.

(** The two examples of the specification, evaluated. *)
Example kiro_addon_hidden_without_bonus :
  map Metric.key
    (View.quotaItems (Kiro.base
       (buildKiroAccountPresentation JsString.ascii Sample.translate
          (Sample.kiro Sample.noCredits) (Sample.kiroAccount Undefined))))
  = ["prompt"].
Proof. vm_compute. reflexivity. Qed.

Example kiro_addon_shown_with_bonus :
  map Metric.key
    (View.quotaItems (Kiro.base
       (buildKiroAccountPresentation JsString.ascii Sample.translate
          (Sample.kiro (Sample.withBonus (of_Z 5))) (Sample.kiroAccount Undefined))))
  = ["prompt"; "addon"].
Proof. vm_compute. reflexivity. Qed.

(* ------------------------------------------------------------------ *)
(** *** Plan label and plan class *)


(** The Codex label follows the raw plan string while the class does not:
    two accounts whose plan types normalize to the same name get the same
    class, whatever their labels. *)
Lemma codex_planClass_ignores_raw (B : JsString.Builtins) (t : Translate)
    (H : Codex.Types) (a1 a2 : Codex.Account) :
  Codex.getCodexPlanDisplayName H (Codex.plan_type a1)
  = Codex.getCodexPlanDisplayName H (Codex.plan_type a2) ->
  View.planClass (buildCodexAccountPresentation B t H a1)
  = View.planClass (buildCodexAccountPresentation B t H a2).
Proof.
  intros Hn. unfold buildCodexAccountPresentation. cbn [View.planClass].
  rewrite Hn. reflexivity.
Qed.


(* ------------------------------------------------------------------ *)
(** *** Preview lines *)

Lemma Math_max_zero_int (z : Z) : Math_max (of_Z 0) (of_Z z) = of_Z (Z.max 0 z).
Proof.
  unfold Math_max, of_Z, ltb.
  destruct (Qle_bool (inject_Z z) (inject_Z 0)) eqn:E; cbn [negb].
  - apply Qle_bool_iff in E. rewrite <- Zle_Qle in E.
    f_equal. f_equal. lia.
  - apply Qle_bool_false in E. rewrite <- Zlt_Qlt in E.
    f_equal. f_equal. lia.
Qed.

Lemma slice0_int {A : Type} (items : list A) (z : Z) :
  (0 <= z)%Z -> slice0 items (of_Z z) = firstn (Z.to_nat z) items.
Proof.
  intros Hz. unfold slice0, of_Z.
  assert (E : Qle_bool 0 (inject_Z z) = true).
  { apply Qle_bool_iff. change 0%Q with (inject_Z 0). rewrite <- Zle_Qle. exact Hz. }
  rewrite E, Qfloor_Z.
  destruct (z <? 0)%Z eqn:Hneg; [apply Z.ltb_lt in Hneg; lia | reflexivity].
Qed.

Lemma buildQuotaPreviewLines_int (items : list Metric.UnifiedQuotaMetric) (limit : Z) :
  buildQuotaPreviewLines items (Some (of_Z limit))
  = map previewLine (firstn (Z.to_nat (Z.max 0 limit)) items).
Proof.
  unfold buildQuotaPreviewLines. cbn [nullish].
  rewrite Math_max_zero_int, slice0_int by lia. reflexivity.
Qed.



Example buildQuotaPreviewLines_three_of_four :
  map Line.text
    (buildQuotaPreviewLines
       [Sample.metric "a" "10%"; Sample.metric "b" "90%";
        Sample.metric "c" "50%"; Sample.metric "d" "70%"] None)
  = ["a 10%"; "b 90%"; "c 50%"].
Proof. vm_compute. reflexivity. Qed.

End PresentationSpec.

(* ================================================================== *)
(** ** Facts about [sort] and [Map] *)
(* ================================================================== *)

Module JsArrayFacts.
Import JsArray.

Section SortFacts.
Variable A : Type.
Variable cmp : A -> A -> number.

Lemma in_insert (x y : A) (l : list A) :
  In y (insert cmp x l) <-> y = x \/ In y l.
Proof.
  induction l as [|z l IH]; cbn [insert].
  - cbn. intuition.
  - destruct (before cmp x z); cbn [In].
    + intuition.
    + rewrite IH. intuition.
Qed.

Lemma in_fold_insert (l acc : list A) (y : A) :
  In y (fold_left (fun acc x => insert cmp x acc) l acc) <-> In y acc \/ In y l.
Proof.
  revert acc. induction l as [|x l IH]; intros acc; cbn [fold_left].
  - cbn. intuition.
  - rewrite IH, in_insert. cbn [In]. intuition.
Qed.

(** Sorting keeps the elements. *)
Lemma in_sort (l : list A) (y : A) : In y (sort cmp l) <-> In y l.
Proof. unfold sort. rewrite in_fold_insert. cbn. intuition. Qed.

Lemma length_insert (x : A) (l : list A) :
  List.length (insert cmp x l) = S (List.length l).
Proof.
  induction l as [|z l IH]; cbn [insert]; [reflexivity|].
  destruct (before cmp x z); cbn [List.length]; [reflexivity|].
  rewrite IH. reflexivity.
Qed.

Lemma insert_Permutation (x : A) (l : list A) :
  Permutation (x :: l) (insert cmp x l).
Proof.
  induction l as [|z l IH]; cbn [insert]; [reflexivity|].
  destruct (before cmp x z); [reflexivity|].
  rewrite perm_swap. apply perm_skip. exact IH.
Qed.

(** Sorting permutes the list. *)
Lemma sort_Permutation (l : list A) : Permutation l (sort cmp l).
Proof.
  unfold sort.
  assert (G : forall l' acc,
             Permutation (acc ++ l')
               (fold_left (fun acc x => insert cmp x acc) l' acc)).
  { induction l' as [|x l' IH]; intros acc; cbn [fold_left].
    - rewrite app_nil_r. reflexivity.
    - rewrite <- IH. rewrite <- insert_Permutation.
      symmetry. apply Permutation_middle. }
  apply (G l []).
Qed.

Lemma NoDup_map_sort {K : Type} (f : A -> K) (l : list A) :
  NoDup (map f l) -> NoDup (map f (sort cmp l)).
Proof.
  apply Permutation_NoDup. apply Permutation_map. apply sort_Permutation.
Qed.

(** *** Elements that a comparator always sends to the end *)

Variable missing : A -> bool.

(** The known elements come first, the missing ones after them. *)
Definition partitioned (l : list A) : Prop :=
  exists front back,
    l = front ++ back /\
    Forall (fun a => missing a = false) front /\
    Forall (fun a => missing a = true) back.

(** The comparator never puts a missing [x] before a known [y], and always
    puts a known [y] before a missing [x]. *)
Definition sendsLast (x y : A) : Prop :=
  missing x = true -> missing y = false ->
  before cmp x y = false /\ before cmp y x = true.

Lemma insert_after (x : A) (l1 l2 : list A) :
  (forall y, In y l1 -> before cmp x y = false) ->
  insert cmp x (l1 ++ l2) = l1 ++ insert cmp x l2.
Proof.
  induction l1 as [|y l1 IH]; intros Hb; [reflexivity|].
  cbn [app insert]. rewrite (Hb y (or_introl eq_refl)).
  rewrite IH; [reflexivity|]. intros z Hz. apply Hb. right. exact Hz.
Qed.

Lemma insert_within (x : A) (l1 l2 : list A) :
  (forall y, In y l2 -> before cmp x y = true) ->
  exists a b, l1 = a ++ b /\ insert cmp x (l1 ++ l2) = a ++ x :: b ++ l2.
Proof.
  intros Hb. induction l1 as [|y l1 IH].
  - exists [], []. split; [reflexivity|]. cbn [app].
    destruct l2 as [|y l2]; [reflexivity|].
    cbn [insert]. rewrite (Hb y (or_introl eq_refl)). reflexivity.
  - cbn [app insert]. destruct (before cmp x y).
    + exists [], (y :: l1). split; reflexivity.
    + destruct IH as (a & b & -> & E).
      exists (y :: a), b. split; [reflexivity|].
      rewrite E. reflexivity.
Qed.

Lemma insert_partitioned (x : A) (l : list A) :
  partitioned l ->
  (forall y, In y l -> sendsLast x y /\ sendsLast y x) ->
  partitioned (insert cmp x l).
Proof.
  intros (front & back & -> & Hf & Hb) Hc.
  rewrite Forall_forall in Hf, Hb.
  destruct (missing x) eqn:Hx.
  - rewrite insert_after.
    + exists front, (insert cmp x back). split; [reflexivity|].
      split; rewrite Forall_forall; [exact Hf|].
      intros y Hy. apply in_insert in Hy. destruct Hy as [->|Hy]; [exact Hx | apply Hb, Hy].
    + intros y Hy.
      apply (Hc y (in_or_app _ _ _ (or_introl Hy))); [exact Hx | apply Hf, Hy].
  - destruct (insert_within x front back) as (a & b & -> & E).
    + intros y Hy.
      apply (Hc y (in_or_app _ _ _ (or_intror Hy))); [apply Hb, Hy | exact Hx].
    + rewrite E. exists (a ++ x :: b), back.
      split; [rewrite <- app_assoc; reflexivity|].
      split; rewrite Forall_forall; [|exact Hb].
      intros y Hy. apply in_app_or in Hy. destruct Hy as [Hy|[->|Hy]].
      * apply Hf. apply in_or_app. left. exact Hy.
      * exact Hx.
      * apply Hf. apply in_or_app. right. exact Hy.
Qed.

Lemma sort_partitioned (l : list A) :
  (forall x y, In x l -> In y l -> sendsLast x y) ->
  partitioned (sort cmp l).
Proof.
  unfold sort. intros Hc.
  assert (G : forall l' acc,
             partitioned acc ->
             (forall x y, In x (acc ++ l') -> In y (acc ++ l') -> sendsLast x y) ->
             partitioned (fold_left (fun acc x => insert cmp x acc) l' acc)).
  { induction l' as [|x l' IH]; intros acc Hp Hall; cbn [fold_left]; [exact Hp|].
    apply IH.
    - apply insert_partitioned; [exact Hp|].
      intros y Hy. split; apply Hall; apply in_or_app;
        first [left; exact Hy | right; left; reflexivity].
    - intros u v Hu Hv. apply Hall.
      + apply in_app_or in Hu. destruct Hu as [Hu|Hu].
        * apply in_insert in Hu. destruct Hu as [->|Hu];
            apply in_or_app; [right; left; reflexivity | left; exact Hu].
        * apply in_or_app. right. right. exact Hu.
      + apply in_app_or in Hv. destruct Hv as [Hv|Hv].
        * apply in_insert in Hv. destruct Hv as [->|Hv];
            apply in_or_app; [right; left; reflexivity | left; exact Hv].
        * apply in_or_app. right. right. exact Hv. }
  apply G.
  - exists [], []. repeat split; constructor.
  - exact Hc.
Qed.

(** In a partitioned list every missing element stands after every known one. *)
Lemma partitioned_positions (l : list A) :
  partitioned l ->
  forall i j a b,
    nth_error l i = Some a -> nth_error l j = Some b ->
    missing a = true -> missing b = false -> (j < i)%nat.
Proof.
  intros (front & back & -> & Hf & Hb) i j a b Hi Hj Ha Hbk.
  rewrite Forall_forall in Hf, Hb.
  destruct (Nat.lt_ge_cases i (List.length front)) as [Hlt|Hge].
  - rewrite nth_error_app1 in Hi by exact Hlt.
    apply nth_error_In in Hi. apply Hf in Hi. congruence.
  - destruct (Nat.lt_ge_cases j (List.length front)) as [Hlt'|Hge'].
    + lia.
    + rewrite nth_error_app2 in Hj by exact Hge'.
      apply nth_error_In in Hj. apply Hb in Hj. congruence.
Qed.

(** *** Sorted results of a comparator that is a strict order *)

Definition strictOrder : Prop :=
  (forall a, before cmp a a = false) /\
  (forall a b c, before cmp a b = true -> before cmp b c = true -> before cmp a c = true).

Lemma insert_sorted (x : A) (l : list A) :
  strictOrder ->
  StronglySorted (fun a b => before cmp b a = false) l ->
  StronglySorted (fun a b => before cmp b a = false) (insert cmp x l).
Proof.
  intros [Hirr Htr] Hs. induction Hs as [|y l Hs IH Hall]; cbn [insert].
  - constructor; constructor.
  - rewrite Forall_forall in Hall.
    destruct (before cmp x y) eqn:Hxy.
    + constructor; [constructor; [exact Hs | rewrite Forall_forall; exact Hall]|].
      rewrite Forall_forall. intros z [<-|Hz].
      * destruct (before cmp y x) eqn:Hyx; [|reflexivity].
        rewrite <- (Hirr x). symmetry. apply (Htr x y x); assumption.
      * destruct (before cmp z x) eqn:Hzx; [|reflexivity].
        rewrite <- (Hall z Hz). symmetry. apply (Htr z x y); assumption.
    + constructor; [exact IH|].
      rewrite Forall_forall. intros z Hz. apply in_insert in Hz.
      destruct Hz as [->|Hz]; [exact Hxy | apply Hall, Hz].
Qed.

Lemma sort_sorted (l : list A) :
  strictOrder -> StronglySorted (fun a b => before cmp b a = false) (sort cmp l).
Proof.
  intros Hso. unfold sort.
  assert (G : forall l' acc,
             StronglySorted (fun a b => before cmp b a = false) acc ->
             StronglySorted (fun a b => before cmp b a = false)
               (fold_left (fun acc x => insert cmp x acc) l' acc)).
  { induction l' as [|x l' IH]; intros acc Hacc; cbn [fold_left]; [exact Hacc|].
    apply IH. apply insert_sorted; assumption. }
  apply G. constructor.
Qed.

Lemma sorted_positions (R : A -> A -> Prop) (l : list A) :
  StronglySorted R l ->
  forall i j a b,
    (i < j)%nat -> nth_error l i = Some a -> nth_error l j = Some b -> R a b.
Proof.
  induction 1 as [|x l Hs IH Hall]; intros i j a b Hij Hi Hj.
  - destruct i; discriminate Hi.
  - destruct j as [|j]; [lia|]. cbn [nth_error] in Hj.
    destruct i as [|i]; cbn [nth_error] in Hi.
    + injection Hi as <-. rewrite Forall_forall in Hall.
      apply Hall. eapply nth_error_In. exact Hj.
    + apply (IH i j); [lia | exact Hi | exact Hj].
Qed.

End SortFacts.

End JsArrayFacts.

(* ================================================================== *)
(** ** The Codex accounts page: filtering, sorting and grouping *)
(* ================================================================== *)

Module CodexPage.
Import Presentation.
Local Open Scope string_scope.

Inductive SortDirection : Type := asc | desc.

Definition untaggedKey : string := "__untagged__".

(** [set.has(x)] on the set made of the elements of [xs]. *)
Definition setHas (xs : list string) (x : string) : bool :=
  existsb (String.eqb x) xs.

Section Page.
Variable B : JsString.Builtins.
Variable t : Translate.
Variable H : Codex.Types.

(** [normalizeTag] of the shared page hook. *)
Definition normalizeTag (tag : string) : string :=
  JsString.toLowerCase B (JsString.trim B tag).

(** The memo that maps every account id to the presentation of the
    account (the last one, should an id repeat). *)
Definition accountPresentations (accounts : list Codex.Account)
    : JsMap.t View.UnifiedAccountPresentation :=
  fold_left (fun m a => JsMap.set m (Codex.id a) (buildCodexAccountPresentation B t H a))
            accounts [].

Definition resolvePresentation (accounts : list Codex.Account) (account : Codex.Account)
    : View.UnifiedAccountPresentation :=
  nullish (JsMap.get (accountPresentations accounts) (Codex.id account))
          (buildCodexAccountPresentation B t H account).

Definition resolvePlanKey (accounts : list Codex.Account) (account : Codex.Account)
    : string :=
  JsString.toUpperCase B (View.planClass (resolvePresentation accounts account)).

(** The reset time that a reset sort key reads; [None] is [null]. *)
Definition resetOf (sortBy : string) (a : Codex.Account) : option number :=
  match
    coalesce (field (if String.eqb sortBy "weekly_reset"
                     then Codex.weekly_reset_time
                     else Codex.hourly_reset_time) (Codex.quota a)) Null
  with
  | Val r => Some r
  | _ => None
  end.

(** The percentage that a quota sort key reads; [None] is missing. *)
Definition percentOf (sortBy : string) (a : Codex.Account) : option number :=
  match
    field (if String.eqb sortBy "weekly"
           then Codex.weekly_percentage
           else Codex.hourly_percentage) (Codex.quota a)
  with
  | Val v => Some v
  | _ => None
  end.

(** The comparator handed to [result.sort]. *)
Definition compareAccounts (sortBy : string) (sortDirection : SortDirection)
    (a b : Codex.Account) : number :=
  if String.eqb sortBy "created_at" then
    let diff := sub (Codex.created_at b) (Codex.created_at a) in
    match sortDirection with desc => diff | asc => neg diff end
  else if String.eqb sortBy "weekly_reset" || String.eqb sortBy "hourly_reset" then
    match resetOf sortBy a, resetOf sortBy b with
    | None, None => of_Z 0
    | None, Some _ => of_Z 1
    | Some _, None => of_Z (-1)
    | Some aR, Some bR =>
        match sortDirection with desc => sub bR aR | asc => sub aR bR end
    end
  else
    let aV := nullish (percentOf sortBy a) (of_Z (-1)) in
    let bV := nullish (percentOf sortBy b) (of_Z (-1)) in
    match sortDirection with desc => sub bV aV | asc => sub aV bV end.

Definition filteredAccounts (accounts : list Codex.Account)
    (searchQuery filterType : string) (tagFilter : list string)
    (sortBy : string) (sortDirection : SortDirection) : list Codex.Account :=
  let result := accounts in
  let result :=
    if JsString.nonEmpty (JsString.trim B searchQuery) then
      let query := JsString.toLowerCase B searchQuery in
      filter (fun a =>
                JsString.includes
                  (JsString.toLowerCase B
                     (View.displayName (resolvePresentation accounts a)))
                  query)
             result
    else result in
  let result :=
    if negb (String.eqb filterType "all")
    then filter (fun a => String.eqb (resolvePlanKey accounts a) filterType) result
    else result in
  let result :=
    match tagFilter with
    | [] => result
    | _ =>
        let selectedTags := map normalizeTag tagFilter in
        filter (fun a =>
                  existsb (setHas selectedTags)
                          (map normalizeTag (withDefault (Codex.tags a) [])))
               result
    end in
  JsArray.sort (compareAccounts sortBy sortDirection) result.

(** [if (!groups.has(key)) groups.set(key, []); groups.get(key)?.push(a)] *)
Definition pushTo (groups : JsMap.t (list Codex.Account)) (key : string)
    (a : Codex.Account) : JsMap.t (list Codex.Account) :=
  let groups := if JsMap.has groups key then groups else JsMap.set groups key [] in
  match JsMap.get groups key with
  | Some bucket => JsMap.set groups key (bucket ++ [a])%list
  | None => groups
  end.

(** The tags of an account that decide its buckets. *)
Definition matchedTags (tagFilter : list string) (a : Codex.Account) : list string :=
  let selectedTags := map normalizeTag tagFilter in
  let tags := filter JsString.nonEmpty (map normalizeTag (withDefault (Codex.tags a) [])) in
  match selectedTags with
  | [] => tags
  | _ => filter (setHas selectedTags) tags
  end.

Definition compareGroups (x y : string * list Codex.Account) : number :=
  if String.eqb (fst x) untaggedKey then of_Z 1
  else if String.eqb (fst y) untaggedKey then of_Z (-1)
  else JsString.localeCompare B (fst x) (fst y).

Definition groupedAccounts (filteredAccounts : list Codex.Account)
    (groupByTag : bool) (tagFilter : list string)
    : list (string * list Codex.Account) :=
  if negb groupByTag then []
  else
    let groups :=
      fold_left
        (fun groups a =>
           match matchedTags tagFilter a with
           | [] => pushTo groups untaggedKey a
           | tags => fold_left (fun g tag => pushTo g tag a) tags groups
           end)
        filteredAccounts [] in
    JsArray.sort compareGroups groups.

End Page.

End CodexPage.

Module SampleCodex.
Import Presentation.
Local Open Scope string_scope.

Definition types : Codex.Types :=
  {| Codex.getCodexPlanDisplayName := fun plan =>
       match plan with
       | Val p => JsString.toUpperCase JsString.ascii p
       | _ => "FREE"
       end;
     Codex.getCodexQuotaWindows := fun _ => [];
     Codex.getCodexQuotaClass := Sample.quotaClassOf;
     Codex.formatCodexResetTime := fun n _ => JsString.numberToString JsString.ascii n |}.

Definition quotaOf (weekly weeklyReset : optional number) : Codex.Quota :=
  {| Codex.hourly_percentage := Undefined;
     Codex.weekly_percentage := weekly;
     Codex.hourly_reset_time := Undefined;
     Codex.weekly_reset_time := weeklyReset |}.

Definition account (id : string) (created : Z) (tags : list string)
    (quota : optional Codex.Quota) : Codex.Account :=
  {| Codex.id := id;
     Codex.email := id;
     Codex.plan_type := Val "plus";
     Codex.created_at := of_Z created;
     Codex.tags := Val tags;
     Codex.quota := quota |}.

End SampleCodex.

Module CodexPageSpec.
Import Presentation CodexPage JsArrayFacts.
Local Open Scope string_scope.

(** Every account whose value is missing stands after every account whose
    value is known. *)
Definition missingLast {V : Type} (valueOf : Codex.Account -> option V)
    (result : list Codex.Account) : Prop :=
  forall i j a b,
    nth_error result i = Some a -> nth_error result j = Some b ->
    valueOf a = None -> valueOf b <> None -> (j < i)%nat.

Definition isNone {V : Type} (x : option V) : bool :=
  match x with None => true | Some _ => false end.

Lemma missingLast_of_partitioned {V : Type} (valueOf : Codex.Account -> option V)
    (result : list Codex.Account) :
  partitioned (fun a => isNone (valueOf a)) result -> missingLast valueOf result.
Proof.
  intros Hp i j a b Hi Hj Ha Hb.
  apply (partitioned_positions Hp i j Hi Hj).
  - rewrite Ha. reflexivity.
  - destruct (valueOf b); [reflexivity | congruence].
Qed.

Section Page.
Variable B : JsString.Builtins.
Variable t : Translate.
Variable H : Codex.Types.

(** The result is the sorted list of some of the accounts. *)
Lemma filteredAccounts_sort accounts searchQuery filterType tagFilter sortBy dir :
  exists kept,
    filteredAccounts B t H accounts searchQuery filterType tagFilter sortBy dir
    = JsArray.sort (compareAccounts sortBy dir) kept /\
    incl kept accounts.
Proof.
  unfold filteredAccounts.
  eexists. split; [reflexivity|].
  intros a Ha.
  destruct tagFilter; [|apply filter_In in Ha; destruct Ha as [Ha _]];
    (destruct (negb (String.eqb filterType "all"));
     [apply filter_In in Ha; destruct Ha as [Ha _]|]);
    (destruct (JsString.nonEmpty (JsString.trim B searchQuery));
     [apply filter_In in Ha; destruct Ha as [Ha _]|]);
    exact Ha.
Qed.

Lemma compareAccounts_reset sortBy dir a b :
  sortBy = "weekly_reset" \/ sortBy = "hourly_reset" ->
  compareAccounts sortBy dir a b
  = match resetOf sortBy a, resetOf sortBy b with
    | None, None => of_Z 0
    | None, Some _ => of_Z 1
    | Some _, None => of_Z (-1)
    | Some aR, Some bR => match dir with desc => sub bR aR | asc => sub aR bR end
    end.
Proof. intros [-> | ->]; reflexivity. Qed.

Lemma compareAccounts_quota sortBy dir a b :
  sortBy <> "created_at" -> sortBy <> "weekly_reset" -> sortBy <> "hourly_reset" ->
  compareAccounts sortBy dir a b
  = let aV := nullish (percentOf sortBy a) (of_Z (-1)) in
    let bV := nullish (percentOf sortBy b) (of_Z (-1)) in
    match dir with desc => sub bV aV | asc => sub aV bV end.
Proof.
  intros H1 H2 H3. unfold compareAccounts.
  apply String.eqb_neq in H1. apply String.eqb_neq in H2. apply String.eqb_neq in H3.
  rewrite H1, H2, H3. reflexivity.
Qed.

Lemma reset_sendsLast sortBy dir a b :
  sortBy = "weekly_reset" \/ sortBy = "hourly_reset" ->
  sendsLast (compareAccounts sortBy dir) (fun a => isNone (resetOf sortBy a)) a b.
Proof.
  intros Hs Ha Hb. unfold JsArray.before.
  rewrite !(compareAccounts_reset dir _ _ Hs).
  destruct (resetOf sortBy a); [discriminate Ha|].
  destruct (resetOf sortBy b); [|discriminate Hb].
  split; reflexivity.
Qed.

Lemma nonneg_against_minus_one (v : number) :
  leb (of_Z 0) v = true ->
  ltb (sub v (of_Z (-1))) (of_Z 0) = false /\
  ltb (sub (of_Z (-1)) v) (of_Z 0) = true.
Proof.
  destruct v as [q| | |]; cbn [leb of_Z]; intros Hv; try discriminate Hv.
  - apply Qle_bool_iff in Hv. change (inject_Z 0) with 0%Q in *.
    cbn [sub ltb of_Z]. change (inject_Z (-1)) with (-1 # 1)%Q.
    change (inject_Z 0) with 0%Q. split.
    + apply negb_false_iff. apply Qle_bool_iff. lra.
    + apply negb_true_iff. destruct (Qle_bool 0 ((-1 # 1) - q)) eqn:E; [|reflexivity].
      apply Qle_bool_iff in E. lra.
  - split; reflexivity.
Qed.

Lemma quota_desc_sendsLast sortBy a b :
  sortBy <> "created_at" -> sortBy <> "weekly_reset" -> sortBy <> "hourly_reset" ->
  (forall v, percentOf sortBy b = Some v -> leb (of_Z 0) v = true) ->
  sendsLast (compareAccounts sortBy desc) (fun a => isNone (percentOf sortBy a)) a b.
Proof.
  intros H1 H2 H3 Hnn Ha Hb. unfold JsArray.before.
  rewrite !(compareAccounts_quota desc _ _ H1 H2 H3). cbv zeta.
  destruct (percentOf sortBy a); [discriminate Ha|].
  destruct (percentOf sortBy b) as [v|]; [|discriminate Hb].
  cbn [nullish]. apply nonneg_against_minus_one. apply Hnn. reflexivity.
Qed.

(** C5 (as amended): in the sorted account list, for a reset-time sort key
    an account without a reset time stands after every account that has
    one, in ascending and in descending direction alike; for a quota sort
    key a missing percentage is taken as [-1], so the account without a
    percentage stands after every account with one in descending
    direction, the known percentages being at least [0].  (The creation
    time is never missing.) *)
Theorem missing_values_sort_last :
  forall accounts searchQuery filterType tagFilter sortBy dir,
    let result :=
      filteredAccounts B t H accounts searchQuery filterType tagFilter sortBy dir in
    (sortBy = "weekly_reset" \/ sortBy = "hourly_reset" ->
     missingLast (resetOf sortBy) result) /\
    (sortBy <> "created_at" -> sortBy <> "weekly_reset" -> sortBy <> "hourly_reset" ->
     dir = desc ->
     (forall a v, In a accounts -> percentOf sortBy a = Some v -> leb (of_Z 0) v = true) ->
     missingLast (percentOf sortBy) result).
Proof.
  intros accounts searchQuery filterType tagFilter sortBy dir result.
  destruct (filteredAccounts_sort accounts searchQuery filterType tagFilter sortBy dir)
    as (kept & E & Hincl).
  subst result. rewrite E. split.
  - intros Hs. apply missingLast_of_partitioned. apply sort_partitioned.
    intros x y _ _. apply reset_sendsLast. exact Hs.
  - intros H1 H2 H3 -> Hnn. apply missingLast_of_partitioned. apply sort_partitioned.
    intros x y _ Hy. apply quota_desc_sendsLast; try assumption.
    intros v Hv. apply (Hnn y v); [apply Hincl; exact Hy | exact Hv].
Qed.

End Page.

(** C5 as stated fails for the quota sort keys in ascending direction: the
    account without a weekly percentage comes first. *)
Lemma missing_percentage_sorts_first_ascending :
  let known := SampleCodex.account "known" 1 [] (Val (SampleCodex.quotaOf (Val (of_Z 50)) Null)) in
  let missing := SampleCodex.account "missing" 2 [] Undefined in
  let result :=
    filteredAccounts JsString.ascii Sample.translate SampleCodex.types
      [known; missing] "" "all" [] "weekly" asc in
  percentOf "weekly" missing = None /\
  percentOf "weekly" known = Some (of_Z 50) /\
  result = [missing; known] /\
  ~ missingLast (percentOf "weekly") result.
Proof.
  cbv zeta. split; [reflexivity|]. split; [reflexivity|].
  assert (E : filteredAccounts JsString.ascii Sample.translate SampleCodex.types
                [SampleCodex.account "known" 1 [] (Val (SampleCodex.quotaOf (Val (of_Z 50)) Null));
                 SampleCodex.account "missing" 2 [] Undefined] "" "all" [] "weekly" asc
              = [SampleCodex.account "missing" 2 [] Undefined;
                 SampleCodex.account "known" 1 [] (Val (SampleCodex.quotaOf (Val (of_Z 50)) Null))]).
  { vm_compute. reflexivity. }
  split; [exact E|].
  rewrite E. intros Hlast.
  specialize (Hlast 0%nat 1%nat _ _ eq_refl eq_refl eq_refl).
  assert (Hlt : (1 < 0)%nat) by (apply Hlast; discriminate).
  lia.
Qed.

(** The examples of the specification: creation time in descending order,
    and a missing reset time in either direction. *)
Example sort_created_at_desc :
  map Codex.id
    (filteredAccounts JsString.ascii Sample.translate SampleCodex.types
       [SampleCodex.account "A" 1 [] Undefined;
        SampleCodex.account "B" 3 [] Undefined;
        SampleCodex.account "C" 2 [] Undefined] "" "all" [] "created_at" desc)
  = ["B"; "C"; "A"].
Proof. vm_compute. reflexivity. Qed.

Example sort_reset_missing_last :
  let accounts :=
    [SampleCodex.account "none" 1 [] Undefined;
     SampleCodex.account "late" 2 [] (Val (SampleCodex.quotaOf Undefined (Val (of_Z 900))));
     SampleCodex.account "soon" 3 [] (Val (SampleCodex.quotaOf Undefined (Val (of_Z 100))))] in
  map Codex.id
    (filteredAccounts JsString.ascii Sample.translate SampleCodex.types
       accounts "" "all" [] "weekly_reset" asc) = ["soon"; "late"; "none"] /\
  map Codex.id
    (filteredAccounts JsString.ascii Sample.translate SampleCodex.types
       accounts "" "all" [] "weekly_reset" desc) = ["late"; "soon"; "none"].
Proof. split; vm_compute; reflexivity. Qed.

(** The theorem at work on three accounts, for a reset key in ascending
    direction and for a quota key in descending direction. *)
Lemma missing_values_sort_last_sample :
  let accounts :=
    [SampleCodex.account "none" 1 [] Undefined;
     SampleCodex.account "late" 2 []
       (Val (SampleCodex.quotaOf (Val (of_Z 80)) (Val (of_Z 900))));
     SampleCodex.account "soon" 3 []
       (Val (SampleCodex.quotaOf (Val (of_Z 20)) (Val (of_Z 100))))] in
  (forall a v, In a accounts -> percentOf "weekly" a = Some v -> leb (of_Z 0) v = true) /\
  missingLast (resetOf "weekly_reset")
    (filteredAccounts JsString.ascii Sample.translate SampleCodex.types
       accounts "" "all" [] "weekly_reset" asc) /\
  missingLast (percentOf "weekly")
    (filteredAccounts JsString.ascii Sample.translate SampleCodex.types
       accounts "" "all" [] "weekly" desc).
Proof.
  cbv zeta.
  assert (Hnn : forall a v,
             In a [SampleCodex.account "none" 1 [] Undefined;
                   SampleCodex.account "late" 2 []
                     (Val (SampleCodex.quotaOf (Val (of_Z 80)) (Val (of_Z 900))));
                   SampleCodex.account "soon" 3 []
                     (Val (SampleCodex.quotaOf (Val (of_Z 20)) (Val (of_Z 100))))] ->
             percentOf "weekly" a = Some v -> leb (of_Z 0) v = true).
  { intros a v [<-|[<-|[<-|[]]]] Hv; vm_compute in Hv;
      try discriminate Hv; injection Hv as <-; reflexivity. }
  split; [exact Hnn|]. split.
  - apply (missing_values_sort_last JsString.ascii Sample.translate SampleCodex.types).
    left. reflexivity.
  - apply (missing_values_sort_last JsString.ascii Sample.translate SampleCodex.types);
      [discriminate | discriminate | discriminate | reflexivity | exact Hnn].
Defined.

End CodexPageSpec.

Module JsMapFacts.
Import JsMap.

Section MapFacts.
Variable V : Type.

Lemma get_set (m : t V) (k k' : string) (v : V) :
  get (set m k v) k' = if String.eqb k k' then Some v else get m k'.
Proof.
  induction m as [|[k0 v0] m IH]; cbn [set get].
  - destruct (String.eqb k k'); reflexivity.
  - destruct (String.eqb k0 k) eqn:E0; cbn [get].
    + apply String.eqb_eq in E0. subst k0.
      destruct (String.eqb k k'); reflexivity.
    + rewrite IH. destruct (String.eqb k0 k') eqn:E1; [|reflexivity].
      apply String.eqb_eq in E1. subst k0.
      rewrite String.eqb_sym in E0. rewrite E0. reflexivity.
Qed.

Lemma in_keys_set (m : t V) (k k' : string) (v : V) :
  In k' (map fst (set m k v)) -> k' = k \/ In k' (map fst m).
Proof.
  induction m as [|[k0 v0] m IH]; cbn [set map fst In].
  - intros [<-|[]]. left. reflexivity.
  - destruct (String.eqb k0 k) eqn:E0; cbn [map fst In].
    + apply String.eqb_eq in E0. subst k0. intuition.
    + intros [<-|Hin]; [intuition|]. destruct (IH Hin); intuition.
Qed.

Lemma NoDup_keys_set (m : t V) (k : string) (v : V) :
  NoDup (map fst m) -> NoDup (map fst (set m k v)).
Proof.
  induction m as [|[k0 v0] m IH]; cbn [set map fst]; intros Hnd.
  - constructor; [intros [] | constructor].
  - inversion Hnd as [|? ? Hk0 Hm]; subst.
    destruct (String.eqb k0 k) eqn:E0; cbn [map fst].
    + apply String.eqb_eq in E0. subst k0. constructor; assumption.
    + constructor; [|apply IH; exact Hm].
      intros Hin. apply in_keys_set in Hin. destruct Hin as [->|Hin].
      * rewrite String.eqb_refl in E0. discriminate E0.
      * apply Hk0. exact Hin.
Qed.

(** With one entry per key, the entries are what [get] answers. *)
Lemma in_iff_get (m : t V) (k : string) (v : V) :
  NoDup (map fst m) -> (In (k, v) m <-> get m k = Some v).
Proof.
  induction m as [|[k0 v0] m IH]; cbn [map fst get In]; intros Hnd.
  - split; [intros [] | discriminate].
  - inversion Hnd as [|? ? Hk0 Hm]; subst.
    destruct (String.eqb k0 k) eqn:E0.
    + apply String.eqb_eq in E0. subst k0. split.
      * intros [E|Hin]; [injection E as ->; reflexivity|].
        exfalso. apply Hk0. apply (in_map fst) in Hin. exact Hin.
      * intros E. injection E as ->. left. reflexivity.
    + apply String.eqb_neq in E0. rewrite <- (IH Hm). split.
      * intros [E|Hin]; [injection E as -> _; congruence | exact Hin].
      * intros Hin. right. exact Hin.
Qed.

End MapFacts.

End JsMapFacts.

Module GroupingSpec.
Import Presentation CodexPage JsArrayFacts JsMapFacts.
Local Open Scope string_scope.

(** [localeCompare] orders strings strictly: nothing comes before itself,
    and "comes before" is transitive. *)
Definition localeOrder (B : JsString.Builtins) : Prop :=
  (forall a, ltb (JsString.localeCompare B a a) (of_Z 0) = false) /\
  (forall a b c,
      ltb (JsString.localeCompare B a b) (of_Z 0) = true ->
      ltb (JsString.localeCompare B b c) (of_Z 0) = true ->
      ltb (JsString.localeCompare B a c) (of_Z 0) = true).

(** The bucket that is there when it is not empty. *)
Definition optBucket (bucket : list Codex.Account) : option (list Codex.Account) :=
  match bucket with [] => None | _ => Some bucket end.

Section Grouping.
Variable B : JsString.Builtins.

(** The normalized, non-empty tags of an account. *)
Definition tagsOf (a : Codex.Account) : list string :=
  filter JsString.nonEmpty (map (normalizeTag B) (withDefault (Codex.tags a) [])).

(** The keys of the buckets an account goes to when no tag is selected. *)
Definition bucketKeys (a : Codex.Account) : list string :=
  match tagsOf a with [] => [untaggedKey] | tags => tags end.

(** The accounts of the bucket [k]: every account, in list order, once per
    occurrence of [k] among its keys. *)
Definition bucketOf (k : string) (accounts : list Codex.Account) : list Codex.Account :=
  flat_map (fun a => repeat a (count_occ string_dec (bucketKeys a) k)) accounts.

Lemma get_pushTo (g : JsMap.t (list Codex.Account)) (key k : string) (a : Codex.Account) :
  JsMap.get (pushTo g key a) k
  = if String.eqb key k then Some (nullish (JsMap.get g key) [] ++ [a])%list
    else JsMap.get g k.
Proof.
  unfold pushTo, JsMap.has.
  destruct (JsMap.get g key) as [bucket|] eqn:E.
  - rewrite E, get_set. reflexivity.
  - rewrite get_set, String.eqb_refl, !get_set.
    destruct (String.eqb key k); reflexivity.
Qed.

Lemma NoDup_keys_pushTo (g : JsMap.t (list Codex.Account)) (key : string)
    (a : Codex.Account) :
  NoDup (map fst g) -> NoDup (map fst (pushTo g key a)).
Proof.
  intros Hnd. unfold pushTo.
  set (g' := if JsMap.has g key then g else JsMap.set g key []).
  assert (Hnd' : NoDup (map fst g')).
  { subst g'. destruct (JsMap.has g key); [exact Hnd | apply NoDup_keys_set, Hnd]. }
  destruct (JsMap.get g' key); [apply NoDup_keys_set, Hnd' | exact Hnd'].
Qed.

Lemma nullish_optBucket (c : list Codex.Account) : nullish (optBucket c) [] = c.
Proof. destruct c; reflexivity. Qed.

Lemma optBucket_snoc (c : list Codex.Account) (a : Codex.Account) :
  Some (c ++ [a])%list = optBucket (c ++ [a]).
Proof. destruct c; reflexivity. Qed.

Lemma get_fold_pushTo (tags : list string) (a : Codex.Account) (k : string) :
  forall (g : JsMap.t (list Codex.Account)) (c : list Codex.Account),
    JsMap.get g k = optBucket c ->
    JsMap.get (fold_left (fun g tag => pushTo g tag a) tags g) k
    = optBucket (c ++ repeat a (count_occ string_dec tags k)).
Proof.
  induction tags as [|tag tags IH]; intros g c Hg; cbn [fold_left count_occ].
  - cbn [repeat]. rewrite app_nil_r. exact Hg.
  - destruct (string_dec tag k) as [->|Hne].
    + rewrite (IH (pushTo g k a) (c ++ [a])%list).
      * cbn [repeat]. rewrite <- app_assoc. reflexivity.
      * rewrite get_pushTo, String.eqb_refl, Hg, nullish_optBucket.
        apply optBucket_snoc.
    + apply IH. rewrite get_pushTo.
      apply String.eqb_neq in Hne. rewrite Hne. exact Hg.
Qed.

Lemma NoDup_keys_fold_pushTo (tags : list string) (a : Codex.Account) :
  forall g : JsMap.t (list Codex.Account),
    NoDup (map fst g) ->
    NoDup (map fst (fold_left (fun g tag => pushTo g tag a) tags g)).
Proof.
  induction tags as [|tag tags IH]; intros g Hnd; cbn [fold_left]; [exact Hnd|].
  apply IH. apply NoDup_keys_pushTo. exact Hnd.
Qed.

(** One step of the grouping loop, with no tag selected. *)
Definition groupStep (groups : JsMap.t (list Codex.Account)) (a : Codex.Account)
    : JsMap.t (list Codex.Account) :=
  match matchedTags B [] a with
  | [] => pushTo groups untaggedKey a
  | tags => fold_left (fun g tag => pushTo g tag a) tags groups
  end.

Lemma groupStep_fold (groups : JsMap.t (list Codex.Account)) (a : Codex.Account) :
  groupStep groups a = fold_left (fun g tag => pushTo g tag a) (bucketKeys a) groups.
Proof.
  unfold groupStep, bucketKeys, matchedTags, tagsOf. cbn [map].
  destruct (filter JsString.nonEmpty (map (normalizeTag B) (withDefault (Codex.tags a) [])));
    reflexivity.
Qed.

Lemma groups_get (accounts : list Codex.Account) (k : string) :
  forall (g : JsMap.t (list Codex.Account)) (c : list Codex.Account),
    JsMap.get g k = optBucket c ->
    JsMap.get (fold_left groupStep accounts g) k = optBucket (c ++ bucketOf k accounts).
Proof.
  induction accounts as [|a accounts IH]; intros g c Hg; cbn [fold_left].
  - unfold bucketOf. cbn [flat_map]. rewrite app_nil_r. exact Hg.
  - rewrite (IH (groupStep g a) (c ++ repeat a (count_occ string_dec (bucketKeys a) k))%list).
    + unfold bucketOf. cbn [flat_map]. rewrite <- app_assoc. reflexivity.
    + rewrite groupStep_fold. apply get_fold_pushTo. exact Hg.
Qed.

Lemma groups_NoDup (accounts : list Codex.Account) :
  forall g : JsMap.t (list Codex.Account),
    NoDup (map fst g) -> NoDup (map fst (fold_left groupStep accounts g)).
Proof.
  induction accounts as [|a accounts IH]; intros g Hnd; cbn [fold_left]; [exact Hnd|].
  apply IH. rewrite groupStep_fold. apply NoDup_keys_fold_pushTo. exact Hnd.
Qed.

Lemma groupedAccounts_sort (filtered : list Codex.Account) :
  groupedAccounts B filtered true []
  = JsArray.sort (compareGroups B) (fold_left groupStep filtered []).
Proof. reflexivity. Qed.

Lemma compareGroups_strictOrder :
  localeOrder B -> strictOrder (compareGroups B).
Proof.
  intros [Hirr Htr]. unfold strictOrder, JsArray.before, compareGroups. split.
  - intros [k b]. cbn [fst]. destruct (String.eqb k untaggedKey); [reflexivity | apply Hirr].
  - intros [k1 b1] [k2 b2] [k3 b3]. cbn [fst].
    destruct (String.eqb k1 untaggedKey); [intros Hf; discriminate Hf|].
    destruct (String.eqb k2 untaggedKey); [intros _ Hf; discriminate Hf|].
    destruct (String.eqb k3 untaggedKey); [reflexivity|].
    apply Htr.
Qed.

Lemma untagged_sendsLast (x y : string * list Codex.Account) :
  sendsLast (compareGroups B) (fun e => String.eqb (fst e) untaggedKey) x y.
Proof.
  intros Hx Hy. unfold JsArray.before, compareGroups. rewrite Hx, Hy.
  split; reflexivity.
Qed.

Lemma bucketOf_in (k : string) (a : Codex.Account) (accounts : list Codex.Account) :
  In a accounts -> In k (bucketKeys a) -> In a (bucketOf k accounts).
Proof.
  intros Ha Hk. unfold bucketOf. apply in_flat_map. exists a. split; [exact Ha|].
  apply (count_occ_In string_dec) in Hk.
  destruct (count_occ string_dec (bucketKeys a) k); [lia | left; reflexivity].
Qed.

Lemma bucketOf_distinct (k : string) (accounts : list Codex.Account) :
  (forall a, In a accounts -> NoDup (bucketKeys a)) ->
  bucketOf k accounts = filter (fun a => setHas (bucketKeys a) k) accounts.
Proof.
  unfold bucketOf. induction accounts as [|a accounts IH]; intros Hnd; [reflexivity|].
  cbn [flat_map filter]. rewrite IH by (intros b Hb; apply Hnd; right; exact Hb).
  assert (Ha : NoDup (bucketKeys a)) by (apply Hnd; left; reflexivity).
  rewrite (NoDup_count_occ string_dec) in Ha. specialize (Ha k).
  destruct (setHas (bucketKeys a) k) eqn:E.
  - apply existsb_exists in E. destruct E as (k' & Hin & E).
    apply String.eqb_eq in E. subst k'.
    apply (count_occ_In string_dec) in Hin.
    assert (E1 : count_occ string_dec (bucketKeys a) k = 1%nat) by lia.
    rewrite E1. reflexivity.
  - destruct (count_occ string_dec (bucketKeys a) k) as [|n] eqn:E0; [reflexivity|].
    assert (Hin : In k (bucketKeys a)) by (apply (count_occ_In string_dec); lia).
    assert (E' : setHas (bucketKeys a) k = true).
    { apply existsb_exists. exists k. split; [exact Hin | apply String.eqb_refl]. }
    congruence.
Qed.

(** C6 (as amended): with grouping by tag switched on and no tag selected,
    there is one bucket per key; every filtered account is in the bucket of
    each of its normalized non-empty tags, once per occurrence of the tag
    in its normalized tag list, hence exactly once when those tags are
    distinct, and the accounts of a bucket keep the order of the list; the
    accounts without such a tag all go to the one untagged bucket, which
    stands after every other bucket; and the other buckets are in the
    order of [localeCompare]. *)
Theorem groupedAccounts_fan_out :
  forall filtered : list Codex.Account,
    let result := groupedAccounts B filtered true [] in
    NoDup (map fst result) /\
    (forall k bucket,
        In (k, bucket) result <-> bucket <> [] /\ bucket = bucketOf k filtered) /\
    (forall a k,
        In a filtered -> In k (bucketKeys a) ->
        exists bucket, In (k, bucket) result /\ In a bucket) /\
    ((forall a, In a filtered -> NoDup (bucketKeys a)) ->
     forall k bucket,
       In (k, bucket) result ->
       bucket = filter (fun a => setHas (bucketKeys a) k) filtered) /\
    (forall a, In a filtered -> tagsOf a = [] -> bucketKeys a = [untaggedKey]) /\
    (forall i j bucket k bucket',
        nth_error result i = Some (untaggedKey, bucket) ->
        nth_error result j = Some (k, bucket') ->
        k <> untaggedKey -> (j < i)%nat) /\
    (localeOrder B ->
     forall i j k bucket k' bucket',
       (i < j)%nat ->
       nth_error result i = Some (k, bucket) ->
       nth_error result j = Some (k', bucket') ->
       k' <> untaggedKey ->
       ltb (JsString.localeCompare B k' k) (of_Z 0) = false).
Proof.
  intros filtered result. subst result. rewrite groupedAccounts_sort.
  set (groups := fold_left groupStep filtered []).
  assert (Hnd : NoDup (map fst groups)) by (apply groups_NoDup; constructor).
  assert (Hget : forall k, JsMap.get groups k = optBucket (bucketOf k filtered)).
  { intros k. apply (groups_get filtered k [] []). reflexivity. }
  assert (Hin : forall k bucket,
             In (k, bucket) (JsArray.sort (compareGroups B) groups)
             <-> bucket <> [] /\ bucket = bucketOf k filtered).
  { intros k bucket. rewrite in_sort, (in_iff_get groups k bucket Hnd), Hget.
    unfold optBucket. destruct (bucketOf k filtered) as [|a0 rest]; split.
    - discriminate.
    - intros [Hne ->]. congruence.
    - intros E. injection E as <-. split; [discriminate | reflexivity].
    - intros [_ ->]. reflexivity. }
  split; [|split; [|split; [|split; [|split; [|split]]]]].
  - apply NoDup_map_sort. exact Hnd.
  - exact Hin.
  - intros a k Ha Hk. exists (bucketOf k filtered).
    pose proof (bucketOf_in k a filtered Ha Hk) as Hmem.
    split; [|exact Hmem].
    apply Hin. split; [|reflexivity].
    intros E. rewrite E in Hmem. destruct Hmem.
  - intros Hdistinct k bucket Hb. apply Hin in Hb. destruct Hb as [_ ->].
    apply bucketOf_distinct. exact Hdistinct.
  - intros a _ Ha. unfold bucketKeys. rewrite Ha. reflexivity.
  - intros i j bucket k bucket' Hi Hj Hk.
    pose proof (@sort_partitioned _ (compareGroups B)
                  (fun e => String.eqb (fst e) untaggedKey) groups
                  (fun x y _ _ => untagged_sendsLast x y)) as Hp.
    apply (partitioned_positions Hp i j Hi Hj).
    + apply String.eqb_refl.
    + apply String.eqb_neq. exact Hk.
  - intros Hlo i j k bucket k' bucket' Hij Hi Hj Hk'.
    pose proof (sort_sorted groups (compareGroups_strictOrder Hlo)) as Hs.
    pose proof (sorted_positions Hs Hij Hi Hj) as Hb.
    unfold JsArray.before, compareGroups in Hb. cbn [fst] in Hb.
    apply String.eqb_neq in Hk'. rewrite Hk' in Hb.
    destruct (String.eqb k untaggedKey); [discriminate Hb | exact Hb].
Qed.

End Grouping.

(** Code-unit order is a strict order, so the ASCII built-ins satisfy
    [localeOrder]. *)
Lemma ascii_compare_refl (c : ascii) : Ascii.compare c c = Eq.
Proof. unfold Ascii.compare. apply N.compare_refl. Qed.

Lemma string_compare_refl (s : string) : String.compare s s = Eq.
Proof.
  induction s as [|c s IH]; cbn [String.compare]; [reflexivity|].
  rewrite ascii_compare_refl. exact IH.
Qed.

Lemma string_compare_lt_trans (a b c : string) :
  String.compare a b = Lt -> String.compare b c = Lt -> String.compare a c = Lt.
Proof.
  revert b c. induction a as [|x a IH]; intros [|y b] [|z c]; cbn [String.compare];
    try discriminate; try reflexivity.
  unfold Ascii.compare.
  destruct (N.compare_spec (N_of_ascii x) (N_of_ascii y)) as [Exy|Lxy|Gxy];
    try discriminate;
    destruct (N.compare_spec (N_of_ascii y) (N_of_ascii z)) as [Eyz|Lyz|Gyz];
    try discriminate; intros H1 H2.
  - rewrite Exy, Eyz, N.compare_refl. apply (IH b c); assumption.
  - rewrite Exy. apply N.compare_lt_iff in Lyz. rewrite Lyz. reflexivity.
  - rewrite <- Eyz. apply N.compare_lt_iff in Lxy. rewrite Lxy. reflexivity.
  - assert (L : (N_of_ascii x < N_of_ascii z)%N) by lia.
    apply N.compare_lt_iff in L. rewrite L. reflexivity.
Qed.

Lemma ascii_localeOrder : localeOrder JsString.ascii.
Proof.
  unfold localeOrder. cbn [JsString.localeCompare JsString.ascii]. split.
  - intros a. rewrite string_compare_refl. reflexivity.
  - intros a b c Hab Hbc.
    destruct (String.compare a b) eqn:Eab; try discriminate Hab.
    destruct (String.compare b c) eqn:Ebc; try discriminate Hbc.
    rewrite (string_compare_lt_trans a b c Eab Ebc). reflexivity.
Qed.

(** C6 as stated fails for an account whose tags normalize to the same
    text: tagged ["x"] and ["X"], it is put into the bucket ["x"] twice. *)
Lemma groupedAccounts_repeated_tag :
  let a := SampleCodex.account "acc" 1 ["x"; "X"] Undefined in
  tagsOf JsString.ascii a = ["x"; "x"] /\
  groupedAccounts JsString.ascii [a] true [] = [("x", [a; a])].
Proof. cbv zeta. split; vm_compute; reflexivity. Qed.

(** The example of the specification, and the order of the buckets. *)
Example groupedAccounts_x_y :
  let a := SampleCodex.account "both" 1 ["x"; "y"] Undefined in
  let b := SampleCodex.account "none" 2 [] Undefined in
  let c := SampleCodex.account "only-b" 3 [" B "] Undefined in
  groupedAccounts JsString.ascii [b; a; c] true []
  = [("b", [c]); ("x", [a]); ("y", [a]); (untaggedKey, [b])].
Proof. vm_compute. reflexivity. Qed.

(** The theorem at work: with code-unit order for [localeCompare], the
    bucket ["b"] stands before the bucket ["x"]. *)
Lemma groupedAccounts_fan_out_sample :
  let a := SampleCodex.account "both" 1 ["x"; "y"] Undefined in
  let b := SampleCodex.account "none" 2 [] Undefined in
  let c := SampleCodex.account "only-b" 3 [" B "] Undefined in
  localeOrder JsString.ascii /\
  nth_error (groupedAccounts JsString.ascii [b; a; c] true []) 0 = Some ("b", [c]) /\
  nth_error (groupedAccounts JsString.ascii [b; a; c] true []) 1 = Some ("x", [a]) /\
  ltb (JsString.localeCompare JsString.ascii "x" "b") (of_Z 0) = false.
Proof.
  cbv zeta. split; [exact ascii_localeOrder|].
  split; [vm_compute; reflexivity|]. split; [vm_compute; reflexivity|].
  pose proof (@groupedAccounts_fan_out JsString.ascii
                [SampleCodex.account "none" 2 [] Undefined;
                 SampleCodex.account "both" 1 ["x"; "y"] Undefined;
                 SampleCodex.account "only-b" 3 [" B "] Undefined]) as Hth.
  cbv zeta in Hth.
  destruct Hth as (_ & _ & _ & _ & _ & _ & Horder).
  apply (Horder ascii_localeOrder 0%nat 1%nat "b"
           [SampleCodex.account "only-b" 3 [" B "] Undefined] "x"
           [SampleCodex.account "both" 1 ["x"; "y"] Undefined]).
  - lia.
  - vm_compute. reflexivity.
  - vm_compute. reflexivity.
  - discriminate.
Defined.

End GroupingSpec.

(* ================================================================== *)
(** ** The OAuth device flow of the shared page hook *)
(* ================================================================== *)

Module OAuthFlow.
Import Presentation.
Local Open Scope string_scope.

Inductive AddModalStatus : Type := idle | loading | success | error.

Record OAuthStartResponse : Type := {
  loginId : string;
  userCode : optional string;
  verificationUri : optional string;
  verificationUriComplete : optional string;
  expiresIn : number;
  intervalSeconds : number;
  authUrl : optional string
}.

(** A call that the hook makes on the OAuth service of the platform. *)
Inductive Call : Type :=
| StartLogin
| CompleteLogin (id : string)
| CancelLogin (id : string).

(** React state of the add modal and of the flow. *)
Record Ui : Type := {
  showAddModal : bool;
  addTab : string;
  addStatus : AddModalStatus;
  oauthUrl : option string;
  oauthPrepareError : option string;
  oauthCompleteError : option string;
  oauthPolling : bool;
  oauthTimedOut : bool
}.

(** The refs, which survive renders. *)
Record Refs : Type := {
  showAddModalRef : bool;
  addTabRef : string;
  oauthActiveRef : bool;
  oauthLoginIdRef : option string;
  oauthCompletingRef : bool
}.

(** The promises that are not settled yet, the timers that are armed and
    the calls made so far.  A promise is named by the number of the
    [prepareOauthUrl] invocation whose chain it belongs to. *)
Record Pending : Type := {
  startPending : list nat;
  completePending : list (nat * string);
  fetchPending : list nat;
  closeTimers : nat;
  nextPromise : nat;
  calls : list Call
}.

Record State : Type := {
  ui : Ui;
  refs : Refs;
  pending : Pending
}.

Definition init : State :=
  {| ui := {| showAddModal := false; addTab := "oauth"; addStatus := idle;
              oauthUrl := None; oauthPrepareError := None;
              oauthCompleteError := None; oauthPolling := false;
              oauthTimedOut := false |};
     refs := {| showAddModalRef := false; addTabRef := "oauth";
                oauthActiveRef := false; oauthLoginIdRef := None;
                oauthCompletingRef := false |};
     pending := {| startPending := []; completePending := []; fetchPending := [];
                   closeTimers := 0; nextPromise := 0; calls := [] |} |}.

(** What the user, React and the backend can do to the hook. *)
Inductive Event : Type :=
| OpenAddModal (tab : string)
| CloseAddModal
| SetAddTab (tab : string)
| RetryOauth
| Render
| StartResolved (p : nat) (resp : OAuthStartResponse)
| StartRejected (p : nat) (msg : string)
| CompleteResolved (p : nat)
| CompleteRejected (p : nat) (msg : string)
| FetchResolved (p : nat)
| FetchRejected (p : nat) (msg : string)
| CloseTimerFired.

(** Setters of the refs. *)
Definition setActive (b : bool) (r : Refs) : Refs :=
  {| showAddModalRef := showAddModalRef r; addTabRef := addTabRef r;
     oauthActiveRef := b; oauthLoginIdRef := oauthLoginIdRef r;
     oauthCompletingRef := oauthCompletingRef r |}.

Definition setCompleting (b : bool) (r : Refs) : Refs :=
  {| showAddModalRef := showAddModalRef r; addTabRef := addTabRef r;
     oauthActiveRef := oauthActiveRef r; oauthLoginIdRef := oauthLoginIdRef r;
     oauthCompletingRef := b |}.

Definition setLoginId (id : option string) (r : Refs) : Refs :=
  {| showAddModalRef := showAddModalRef r; addTabRef := addTabRef r;
     oauthActiveRef := oauthActiveRef r; oauthLoginIdRef := id;
     oauthCompletingRef := oauthCompletingRef r |}.

(** The flow part of the React state, all fields at once. *)
Definition withFlow (u : Ui) (status : AddModalStatus) (url prepareError completeError : option string)
    (polling timedOut : bool) : Ui :=
  {| showAddModal := showAddModal u; addTab := addTab u; addStatus := status;
     oauthUrl := url; oauthPrepareError := prepareError;
     oauthCompleteError := completeError; oauthPolling := polling;
     oauthTimedOut := timedOut |}.

Definition withModal (u : Ui) (shown : bool) (tab : string) : Ui :=
  {| showAddModal := shown; addTab := tab; addStatus := addStatus u;
     oauthUrl := oauthUrl u; oauthPrepareError := oauthPrepareError u;
     oauthCompleteError := oauthCompleteError u; oauthPolling := oauthPolling u;
     oauthTimedOut := oauthTimedOut u |}.

Definition removeNat (p : nat) (l : list nat) : list nat :=
  filter (fun q => negb (Nat.eqb q p)) l.

Definition removeChain (p : nat) (l : list (nat * string)) : list (nat * string) :=
  filter (fun e => negb (Nat.eqb (fst e) p)) l.

Definition hasChain (p : nat) (l : list (nat * string)) : bool :=
  existsb (fun e => Nat.eqb (fst e) p) l.

Definition hasNat (p : nat) (l : list nat) : bool := existsb (Nat.eqb p) l.

Section Hook.

(** Whether the page configures an [oauthService], and the regular
    expression that recognises a timeout in an error message. *)
Variable oauthService : bool.
Variable matchesTimeout : string -> bool.

Definition resetAddModalState (s : State) : State :=
  {| ui := withFlow (ui s) idle None None None false false;
     refs := setActive false (refs s);
     pending := pending s |}.

Definition openAddModal (tab : string) (s : State) : State :=
  resetAddModalState
    {| ui := withModal (ui s) true tab; refs := refs s; pending := pending s |}.

Definition closeAddModal (s : State) : State :=
  resetAddModalState
    {| ui := withModal (ui s) false (addTab (ui s)); refs := refs s;
       pending := pending s |}.

Definition handleOauthPrepareError (msg : string) (s : State) : State :=
  let u := ui s in
  {| ui := withFlow u (addStatus u) (oauthUrl u) (Some msg) (oauthCompleteError u)
             false (oauthTimedOut u);
     refs := setCompleting false (setActive false (refs s));
     pending := pending s |}.

Definition handleOauthCompleteError (msg : string) (s : State) : State :=
  let u := ui s in
  {| ui := withFlow u (addStatus u) (oauthUrl u) (oauthPrepareError u) (Some msg)
             false (matchesTimeout msg);
     refs := setActive false (setCompleting false (refs s));
     pending := pending s |}.

(** [prepareOauthUrl] up to the call of [startLogin]; the rest of its
    promise chain runs on the events that settle the promises. *)
Definition prepareOauthUrl (s : State) : State :=
  if negb oauthService then s
  else if negb (showAddModalRef (refs s)) || negb (String.eqb (addTabRef (refs s)) "oauth")
  then s
  else if oauthActiveRef (refs s) then s
  else if oauthCompletingRef (refs s) then s
  else
    let u := ui s in
    let q := pending s in
    {| ui := withFlow u (addStatus u) (oauthUrl u) None None false false;
       refs := setActive true (refs s);
       pending := {| startPending := startPending q ++ [nextPromise q];
                     completePending := completePending q;
                     fetchPending := fetchPending q;
                     closeTimers := closeTimers q;
                     nextPromise := S (nextPromise q);
                     calls := calls q ++ [StartLogin] |} |}.

(** First [then] of the chain: [startLogin] has resolved. *)
Definition startResolved (p : nat) (resp : OAuthStartResponse) (s : State) : State :=
  let url :=
    orString (orElse (orElse (verificationUriComplete resp) (verificationUri resp))
                     (authUrl resp)) "" in
  let u := ui s in
  let q := pending s in
  {| ui := withFlow u (addStatus u) (Some url) (oauthPrepareError u)
             (oauthCompleteError u) true (oauthTimedOut u);
     refs := setActive false (setCompleting true (setLoginId (Some (loginId resp)) (refs s)));
     pending := {| startPending := removeNat p (startPending q);
                   completePending := completePending q ++ [(p, loginId resp)];
                   fetchPending := fetchPending q;
                   closeTimers := closeTimers q;
                   nextPromise := nextPromise q;
                   calls := calls q ++ [CompleteLogin (loginId resp)] |} |}.

(** [catch] with [started] still false, then [finally]. *)
Definition startRejected (p : nat) (msg : string) (s : State) : State :=
  let s1 := handleOauthPrepareError msg s in
  let q := pending s1 in
  {| ui := ui s1;
     refs := setActive false (refs s1);
     pending := {| startPending := removeNat p (startPending q);
                   completePending := completePending q;
                   fetchPending := fetchPending q;
                   closeTimers := closeTimers q;
                   nextPromise := nextPromise q;
                   calls := calls q |} |}.

(** Second [then]: [completeLogin] has resolved; [completeOauthSuccess]
    starts and waits for [fetchAccounts]. *)
Definition completeResolved (p : nat) (s : State) : State :=
  let u := ui s in
  let q := pending s in
  {| ui := withFlow u (addStatus u) (oauthUrl u) (oauthPrepareError u)
             (oauthCompleteError u) false (oauthTimedOut u);
     refs := setCompleting false (refs s);
     pending := {| startPending := startPending q;
                   completePending := removeChain p (completePending q);
                   fetchPending := fetchPending q ++ [p];
                   closeTimers := closeTimers q;
                   nextPromise := nextPromise q;
                   calls := calls q |} |}.

(** [catch] with [started] true, then [finally]. *)
Definition completeRejected (p : nat) (msg : string) (s : State) : State :=
  let s1 := handleOauthCompleteError msg s in
  let q := pending s1 in
  {| ui := ui s1;
     refs := setActive false (refs s1);
     pending := {| startPending := startPending q;
                   completePending := removeChain p (completePending q);
                   fetchPending := fetchPending q;
                   closeTimers := closeTimers q;
                   nextPromise := nextPromise q;
                   calls := calls q |} |}.

(** The rest of [completeOauthSuccess], then [finally]. *)
Definition fetchResolved (p : nat) (s : State) : State :=
  let u := ui s in
  let q := pending s in
  {| ui := withFlow u success (oauthUrl u) (oauthPrepareError u)
             (oauthCompleteError u) (oauthPolling u) (oauthTimedOut u);
     refs := setActive false (refs s);
     pending := {| startPending := startPending q;
                   completePending := completePending q;
                   fetchPending := removeNat p (fetchPending q);
                   closeTimers := S (closeTimers q);
                   nextPromise := nextPromise q;
                   calls := calls q |} |}.

Definition fetchRejected (p : nat) (msg : string) (s : State) : State :=
  let s1 := handleOauthCompleteError msg s in
  let q := pending s1 in
  {| ui := ui s1;
     refs := setActive false (refs s1);
     pending := {| startPending := startPending q;
                   completePending := completePending q;
                   fetchPending := removeNat p (fetchPending q);
                   closeTimers := closeTimers q;
                   nextPromise := nextPromise q;
                   calls := calls q |} |}.

(** The callback of [setTimeout(..., 1200)]. *)
Definition closeTimerFired (s : State) : State :=
  let q := pending s in
  closeAddModal
    {| ui := ui s; refs := refs s;
       pending := {| startPending := startPending q;
                     completePending := completePending q;
                     fetchPending := fetchPending q;
                     closeTimers := pred (closeTimers q);
                     nextPromise := nextPromise q;
                     calls := calls q |} |}.

Definition handleRetryOauth (s : State) : State :=
  prepareOauthUrl
    {| ui := withFlow (ui s) (addStatus (ui s)) None None None false false;
       refs := setCompleting false (setLoginId None (setActive false (refs s)));
       pending := pending s |}.

(** The effect that copies the modal state into the refs. *)
Definition syncRefsEffect (s : State) : State :=
  {| ui := ui s;
     refs := {| showAddModalRef := showAddModal (ui s); addTabRef := addTab (ui s);
                oauthActiveRef := oauthActiveRef (refs s);
                oauthLoginIdRef := oauthLoginIdRef (refs s);
                oauthCompletingRef := oauthCompletingRef (refs s) |};
     pending := pending s |}.

(** "Auto-prepare OAuth when modal opens on oauth tab". *)
Definition autoPrepareEffect (s : State) : State :=
  if negb (showAddModal (ui s)) || negb (String.eqb (addTab (ui s)) "oauth")
     || match oauthUrl (ui s) with Some url => JsString.nonEmpty url | None => false end
  then s
  else prepareOauthUrl s.

(** "Cancel OAuth when modal closes or tab changes". *)
Definition cancelEffect (s : State) : State :=
  if showAddModal (ui s) && String.eqb (addTab (ui s)) "oauth" then s
  else
    match oauthLoginIdRef (refs s) with
    | None => s
    | Some id =>
        if negb (JsString.nonEmpty id) then s
        else
          let q := pending s in
          {| ui := withFlow (ui s) (addStatus (ui s)) None None None false false;
             refs := setCompleting false (setLoginId None (setActive false (refs s)));
             pending := {| startPending := startPending q;
                           completePending := completePending q;
                           fetchPending := fetchPending q;
                           closeTimers := closeTimers q;
                           nextPromise := nextPromise q;
                           calls := if oauthService then calls q ++ [CancelLogin id]
                                    else calls q |} |}
    end.

(** A commit: the page object hands the hook a fresh [oauthService] on
    every render, so both flow effects run after each of them, in the
    order in which the hook declares them. *)
Definition render (s : State) : State :=
  cancelEffect (autoPrepareEffect (syncRefsEffect s)).

(** One event; an event that settles a promise which is not pending, or
    fires a timer that is not armed, does not happen. *)
Definition step (s : State) (e : Event) : State :=
  match e with
  | OpenAddModal tab => openAddModal tab s
  | CloseAddModal => closeAddModal s
  | SetAddTab tab =>
      {| ui := withModal (ui s) (showAddModal (ui s)) tab; refs := refs s;
         pending := pending s |}
  | RetryOauth => handleRetryOauth s
  | Render => render s
  | StartResolved p resp =>
      if hasNat p (startPending (pending s)) then startResolved p resp s else s
  | StartRejected p msg =>
      if hasNat p (startPending (pending s)) then startRejected p msg s else s
  | CompleteResolved p =>
      if hasChain p (completePending (pending s)) then completeResolved p s else s
  | CompleteRejected p msg =>
      if hasChain p (completePending (pending s)) then completeRejected p msg s else s
  | FetchResolved p =>
      if hasNat p (fetchPending (pending s)) then fetchResolved p s else s
  | FetchRejected p msg =>
      if hasNat p (fetchPending (pending s)) then fetchRejected p msg s else s
  | CloseTimerFired =>
      match closeTimers (pending s) with
      | O => s
      | S _ => closeTimerFired s
      end
  end.

Definition run (s : State) (trace : list Event) : State := fold_left step trace s.

End Hook.



Definition isCancelLogin (c : Call) : bool :=
  match c with CancelLogin _ => true | _ => false end.


(** The [completeLogin] calls that are in flight. *)
Definition inFlight (s : State) : nat := List.length (completePending (pending s)).

End OAuthFlow.

Module OAuthFlowSpec.
Import Presentation OAuthFlow.
Local Open Scope string_scope.

(** The URL that the hook shows for a response. *)
Definition urlOf (resp : OAuthStartResponse) : string :=
  orString (orElse (orElse (verificationUriComplete resp) (verificationUri resp))
                   (authUrl resp)) "".

(** The response carries a URL that can be shown. *)
Definition presentable (resp : OAuthStartResponse) : Prop :=
  JsString.nonEmpty (urlOf resp) = true.


Section Session.
Variable oauthService : bool.
Variable matchesTimeout : string -> bool.


















End Session.

Definition sampleResponse (id url : string) : OAuthStartResponse :=
  {| loginId := id;
     userCode := Val "ABCD-1234";
     verificationUri := Val url;
     verificationUriComplete := Null;
     expiresIn := of_Z 600;
     intervalSeconds := of_Z 5;
     authUrl := Undefined |}.

Definition neverTimeout : string -> bool := fun _ => false.



(** [completeLogin] follows the answer of [startLogin], with its login id. *)
Lemma startLogin_then_completeLogin (resp : OAuthStartResponse) :
  calls (pending (OAuthFlow.run true neverTimeout init
                    [OpenAddModal "oauth"; Render; StartResolved 0 resp]))
  = [StartLogin; CompleteLogin (loginId resp)].
Proof. reflexivity. Qed.

(** Closing the modal while [completeLogin] is pending cancels the held
    login id, once. *)
Example close_cancels_once :
  calls (pending (OAuthFlow.run true neverTimeout init
                    [OpenAddModal "oauth"; Render;
                     StartResolved 0 (sampleResponse "L1" "https://device.example/a");
                     Render; CloseAddModal; Render; Render]))
  = [StartLogin; CompleteLogin "L1"; CancelLogin "L1"].
Proof. vm_compute. reflexivity. Qed.


(** A retry while [completeLogin] is pending does the same without any
    cancellation, and a rejected [startLogin] is started again by the next
    render. *)
Example retry_second_completeLogin :
  let s :=
    OAuthFlow.run true neverTimeout init
      [OpenAddModal "oauth"; Render;
       StartResolved 0 (sampleResponse "L1" "https://device.example/a"); Render;
       RetryOauth; Render;
       StartResolved 1 (sampleResponse "L2" "https://device.example/b")] in
  calls (pending s) = [StartLogin; CompleteLogin "L1"; StartLogin; CompleteLogin "L2"] /\
  inFlight s = 2%nat.
Proof. cbv zeta. split; vm_compute; reflexivity. Qed.

Example rejected_startLogin_restarts :
  calls (pending (OAuthFlow.run true neverTimeout init
                    [OpenAddModal "oauth"; Render; StartRejected 0 "offline"; Render]))
  = [StartLogin; StartLogin].
Proof. vm_compute. reflexivity. Qed.

End OAuthFlowSpec.

(* ================================================================== *)
(** ** Cross-platform parsing helpers: paths into a payload *)
(* ================================================================== *)

Module PlatformPaths.
Import PlatformUtils.
Local Open Scope string_scope.

(** What a path into a payload can reach: a value of the payload, or --
    through a name that a record only inherits -- [Object.prototype] or one
    of its methods. *)
Inductive reached : Type :=
| Plain (v : value)
| ObjectPrototype
| BuiltinFunction.

(** The methods of [Object.prototype]. *)
Definition prototypeMethods : list string :=
  ["constructor"; "__defineGetter__"; "__defineSetter__"; "hasOwnProperty";
   "__lookupGetter__"; "__lookupSetter__"; "isPrototypeOf"; "propertyIsEnumerable";
   "toString"; "valueOf"; "toLocaleString"].

Definition isPrototypeMethod (key : string) : bool :=
  existsb (String.eqb key) prototypeMethods.

Definition hasOwn (fields : list (string * value)) (key : string) : bool :=
  existsb (fun kv => String.eqb (fst kv) key) fields.

(** [record[key]] *)
Definition readMember (fields : list (string * value)) (key : string) : reached :=
  if hasOwn fields key then Plain (getField fields key)
  else if String.eqb key "__proto__" then ObjectPrototype
  else if isPrototypeMethod key then BuiltinFunction
  else Plain VUndefined.

(** [Object.prototype[key]] *)
Definition readPrototype (key : string) : reached :=
  if String.eqb key "__proto__" then Plain VNull
  else if isPrototypeMethod key then BuiltinFunction
  else Plain VUndefined.

(** A function or [Object.prototype] is neither a number nor a string,
    and owns none of the timestamp fields. *)
Definition onPlain {A : Type} (f : value -> option A) (r : reached) : option A :=
  match r with
  | Plain v => f v
  | _ => None
  end.

(** [firstRecord] *)
Definition firstRecord (values : list value) : option value :=
  firstSome (fun v => if isRecord v then Some v else None) values.

Section Builtins.
Variable B : JsString.Builtins.
Variable Number_of_string : string -> number.
Variable Date_parse : string -> number.

(** The index that a key denotes in an array of [len] elements:
    [Number(key)], when it is an integer within the bounds. *)
Definition arrayIndex (key : string) (len : nat) : option nat :=
  match Number_of_string key with
  | Fin q =>
      if Qeq_bool (inject_Z (Qfloor q)) q
         && Qle_bool 0 q
         && negb (Qle_bool (inject_Z (Z.of_nat len)) q)
      then Some (Z.to_nat (Qfloor q))
      else None
  | _ => None
  end.

(** One turn of the loop of [getPathValue]; [None] is [return null]. *)
Definition stepPath (current : reached) (key : string) : option reached :=
  match current with
  | Plain (VArray items) =>
      match arrayIndex key (List.length items) with
      | Some index => Some (Plain (nth index items VUndefined))
      | None => None
      end
  | Plain (VObject fields) => Some (readMember fields key)
  | ObjectPrototype => Some (readPrototype key)
  | _ => None
  end.

Fixpoint walk (current : reached) (path : list string) : reached :=
  match path with
  | [] => current
  | key :: rest =>
      match stepPath current key with
      | Some next => walk next rest
      | None => Plain VNull
      end
  end.

Definition getPathValue (root : value) (path : list string) : reached :=
  walk (Plain root) path.

Definition toStringValue (v : value) : option string :=
  match v with
  | VString s =>
      let trimmed := JsString.trim B s in
      if JsString.nonEmpty trimmed then Some trimmed else None
  | _ => None
  end.

Definition firstNumber (root : value) (paths : list (list string)) : option number :=
  firstSome (fun path => onPlain (toNumber B Number_of_string) (getPathValue root path)) paths.

Definition firstString (root : value) (paths : list (list string)) : option string :=
  firstSome
    (fun path =>
       match onPlain toStringValue (getPathValue root path) with
       | Some s => if JsString.nonEmpty s then Some s else None
       | None => None
       end) paths.

Definition firstTimestamp (root : value) (paths : list (list string)) : option number :=
  firstSome
    (fun path => onPlain (normalizeTimestamp B Number_of_string Date_parse)
                         (getPathValue root path)) paths.

End Builtins.

End PlatformPaths.

(* ================================================================== *)
(** ** More about the parsing helpers *)
(* ================================================================== *)

Module PlatformUtilsSpec.
Import PlatformUtils.
Local Open Scope string_scope.

(** Induction over payloads, with the elements of arrays and the values
    of records as induction hypotheses. *)
Section ValueInduction.
Variable P : value -> Prop.
Hypothesis HUndefined : P VUndefined.
Hypothesis HNull : P VNull.
Hypothesis HBool : forall b, P (VBool b).
Hypothesis HNumber : forall n, P (VNumber n).
Hypothesis HString : forall s, P (VString s).
Hypothesis HArray : forall items, Forall P items -> P (VArray items).
Hypothesis HObject :
  forall fields, Forall (fun kv => P (snd kv)) fields -> P (VObject fields).

Fixpoint value_induction (v : value) : P v :=
  match v with
  | VUndefined => HUndefined
  | VNull => HNull
  | VBool b => HBool b
  | VNumber n => HNumber n
  | VString s => HString s
  | VArray items =>
      HArray
        ((fix all (l : list value) : Forall P l :=
            match l with
            | [] => Forall_nil P
            | x :: rest => Forall_cons x (value_induction x) (all rest)
            end) items)
  | VObject fields =>
      HObject
        ((fix all (l : list (string * value)) : Forall (fun kv => P (snd kv)) l :=
            match l with
            | [] => Forall_nil _
            | kv :: rest =>
                Forall_cons kv (value_induction (snd kv)) (all rest)
            end) fields)
  end.

End ValueInduction.

(** A whole number that is not negative. *)
Definition wholeSeconds (r : number) : Prop :=
  exists z : Z, r = of_Z z /\ (0 <= z)%Z.

Lemma Qfloor_nonneg (q : Q) : (0 <= q)%Q -> (0 <= Qfloor q)%Z.
Proof.
  intros Hq. change 0%Z with (Qfloor 0). apply Qfloor_resp_le. exact Hq.
Qed.

Lemma secondsOf_whole (q : Q) (r : number) :
  secondsOf (Fin q) = Some r -> wholeSeconds r.
Proof.
  rewrite secondsOf_Fin.
  destruct (Qle_bool q 0) eqn:H0; [discriminate|].
  apply Qle_bool_false in H0.
  destruct (Qle_bool q 1000000000000); intros E; injection E as <-.
  - exists (Qfloor q). split; [reflexivity | apply Qfloor_nonneg; lra].
  - exists (Qfloor (q / 1000)). split; [reflexivity|].
    apply Qfloor_nonneg. apply Qle_shift_div_l; lra.
Qed.

Lemma getField_In (fields : list (string * value)) (key : string) :
  getField fields key = VUndefined \/
  exists kv, In kv fields /\ getField fields key = snd kv.
Proof.
  induction fields as [|[k v] rest IH]; cbn [getField]; [left; reflexivity|].
  destruct (String.eqb k key).
  - right. exists (k, v). split; [left; reflexivity | reflexivity].
  - destruct IH as [E|(kv & Hin & E)]; [left; exact E|].
    right. exists kv. split; [right; exact Hin | exact E].
Qed.

Lemma firstSome_found {A R : Type} (f : A -> option R) (xs : list A) (r : R) :
  firstSome f xs = Some r -> exists x, In x xs /\ f x = Some r.
Proof.
  induction xs as [|x xs IH]; cbn [firstSome]; [discriminate|].
  destruct (f x) as [r'|] eqn:E.
  - intros E'. injection E' as <-. exists x. split; [left; reflexivity | exact E].
  - intros E'. destruct (IH E') as (y & Hy & Ey).
    exists y. split; [right; exact Hy | exact Ey].
Qed.

Section Builtins.
Variable B : JsString.Builtins.
Variable Number_of_string : string -> number.
Variable Date_parse : string -> number.

Lemma normalizeTimestamp_whole (v : value) :
  match normalizeTimestamp B Number_of_string Date_parse v with
  | None => True
  | Some r => wholeSeconds r
  end.
Proof.
  induction v as [| |b|n|s|items _|fields IH] using value_induction.
  - exact I.
  - exact I.
  - exact I.
  - cbn [normalizeTimestamp toNumber].
    destruct n as [q| | |]; cbn [isFinite]; try exact I.
    destruct (secondsOf (Fin q)) as [r|] eqn:E; [|exact I].
    apply (secondsOf_whole q). exact E.
  - cbn [normalizeTimestamp].
    destruct (String.eqb (JsString.trim B s) ""); [exact I|].
    destruct (Number_of_string (JsString.trim B s)) as [q| | |] eqn:En;
      cbn [isFinite].
    + destruct (secondsOf (Fin q)) as [r|] eqn:E; [|exact I].
      apply (secondsOf_whole q). exact E.
    + destruct (Date_parse (JsString.trim B s)) as [p| | |]; cbn [isFinite andb];
        try exact I.
      unfold gtb, ltb, of_Z. change (inject_Z 0) with 0%Q.
      destruct (Qle_bool p 0) eqn:Hp; cbn [negb]; [exact I|].
      apply Qle_bool_false in Hp.
      exists (Qfloor (p / 1000)). split; [reflexivity|].
      apply Qfloor_nonneg. apply Qle_shift_div_l; lra.
    + destruct (Date_parse (JsString.trim B s)) as [p| | |]; cbn [isFinite andb];
        try exact I.
      unfold gtb, ltb, of_Z. change (inject_Z 0) with 0%Q.
      destruct (Qle_bool p 0) eqn:Hp; cbn [negb]; [exact I|].
      apply Qle_bool_false in Hp.
      exists (Qfloor (p / 1000)). split; [reflexivity|].
      apply Qfloor_nonneg. apply Qle_shift_div_l; lra.
    + destruct (Date_parse (JsString.trim B s)) as [p| | |]; cbn [isFinite andb];
        try exact I.
      unfold gtb, ltb, of_Z. change (inject_Z 0) with 0%Q.
      destruct (Qle_bool p 0) eqn:Hp; cbn [negb]; [exact I|].
      apply Qle_bool_false in Hp.
      exists (Qfloor (p / 1000)). split; [reflexivity|].
      apply Qfloor_nonneg. apply Qle_shift_div_l; lra.
  - exact I.
  - rewrite normalizeTimestamp_record.
    destruct (firstSome _ candidates) as [r|] eqn:E; [|exact I].
    apply firstSome_found in E. destruct E as (key & _ & E).
    destruct (getField_In fields key) as [Hu|(kv & Hin & Hk)].
    + rewrite Hu in E. discriminate E.
    + rewrite Forall_forall in IH. specialize (IH kv Hin).
      rewrite Hk in E. rewrite E in IH. exact IH.
Qed.

(** X1: Whatever the payload -- a number, a numeric or date string, a record
    nested to any depth -- [normalizeTimestamp] answers [null] or a whole
    number of seconds that is not negative: never [NaN], an infinity, a
    fraction or a negative number; and so does [firstTimestamp], whatever
    the paths.  Zero is possible: [0.5] gives [0]. *)
Theorem normalizeTimestamp_whole_seconds :
  (forall v : value,
      match normalizeTimestamp B Number_of_string Date_parse v with
      | None => True
      | Some r => wholeSeconds r
      end) /\
  (forall (root : value) (paths : list (list string)),
      match PlatformPaths.firstTimestamp B Number_of_string Date_parse root paths with
      | None => True
      | Some r => wholeSeconds r
      end) /\
  normalizeTimestamp B Number_of_string Date_parse (VNumber (Fin (1 # 2)))
  = Some (of_Z 0).
Proof.
  split; [exact normalizeTimestamp_whole|]. split; [|vm_compute; reflexivity].
  intros root paths. unfold PlatformPaths.firstTimestamp.
  destruct (firstSome _ paths) as [r|] eqn:E; [|exact I].
  apply firstSome_found in E. destruct E as (path & _ & E).
  destruct (PlatformPaths.getPathValue Number_of_string root path) as [v| |];
    cbn [PlatformPaths.onPlain] in E; try discriminate E.
  pose proof (normalizeTimestamp_whole v) as Hv. rewrite E in Hv. exact Hv.
Qed.

End Builtins.

(* ------------------------------------------------------------------ *)
(** *** The two [clampPercent] functions *)

Lemma clampPercent_finite (q : Q) :
  clampPercent (Val (Fin q)) = Some (of_Z (clampZ (round_half_up q))).
Proof.
  unfold clampPercent, gtb, ltb, of_Z, clampZ. cbn [isFinite negb Math_round].
  change (inject_Z 0) with 0%Q. change (inject_Z 100) with 100%Q.
  destruct (Qle_bool 0 q) eqn:H0; cbn [negb].
  - apply Qle_bool_iff in H0. pose proof (round_half_up_nonneg H0).
    destruct (Qle_bool q 100) eqn:H1; cbn [negb].
    + apply Qle_bool_iff in H1. pose proof (round_half_up_le_100 H1).
      replace (Z.max 0 (Z.min 100 (round_half_up q))) with (round_half_up q) by lia.
      reflexivity.
    + apply Qle_bool_false in H1.
      assert (100 <= round_half_up q)%Z by (apply round_half_up_ge_100; lra).
      replace (Z.max 0 (Z.min 100 (round_half_up q))) with 100%Z by lia.
      reflexivity.
  - apply Qle_bool_false in H0.
    assert (round_half_up q <= 0)%Z by (apply round_half_up_nonpos; lra).
    replace (Z.max 0 (Z.min 100 (round_half_up q))) with 0%Z by lia.
    reflexivity.
Qed.

Lemma round_half_up_monotone (p q : Q) :
  (p <= q)%Q -> (round_half_up p <= round_half_up q)%Z.
Proof. intros H. unfold round_half_up. apply Qfloor_resp_le. lra. Qed.

Lemma round_half_up_int (z : Z) : round_half_up (inject_Z z) = z.
Proof.
  unfold round_half_up.
  assert (Hlo : (z <= Qfloor (inject_Z z + (1 # 2)))%Z).
  { rewrite <- (Qfloor_Z z) at 1. apply Qfloor_resp_le. lra. }
  assert (Hhi : (Qfloor (inject_Z z + (1 # 2)) < z + 1)%Z).
  { pose proof (Qfloor_le (inject_Z z + (1 # 2))) as Hle.
    rewrite Zlt_Qlt, inject_Z_plus.
    set (f := inject_Z (Qfloor (inject_Z z + (1 # 2)))) in *.
    change (inject_Z 1) with 1%Q. lra. }
  lia.
Qed.

(** The option that [clampPercent] returns, as the argument of a further
    call. *)
Definition again (r : option number) : optional number :=
  match r with Some n => Val n | None => Null end.

(** X2: The exported [clampPercent] is monotone on finite numbers, applying
    it twice is applying it once, and it agrees with the [clampPercent] of
    the presentation module on every finite number; on [NaN] and the
    infinities the exported one answers [null] and the other one [0]. *)
Theorem clampPercent_monotone_idempotent :
  (forall p q : Q,
      (p <= q)%Q ->
      exists a b : Z,
        clampPercent (Val (Fin p)) = Some (of_Z a) /\
        clampPercent (Val (Fin q)) = Some (of_Z b) /\
        (a <= b)%Z) /\
  (forall x : optional number,
      clampPercent (again (clampPercent x)) = clampPercent x) /\
  (forall q : Q,
      clampPercent (Val (Fin q)) = Some (Presentation.clampPercent (Fin q))) /\
  (forall n : number,
      isFinite n = false ->
      clampPercent (Val n) = None /\ Presentation.clampPercent n = of_Z 0).
Proof.
  split; [|split; [|split]].
  - intros p q Hpq.
    exists (clampZ (round_half_up p)), (clampZ (round_half_up q)).
    rewrite !clampPercent_finite. split; [reflexivity|]. split; [reflexivity|].
    pose proof (round_half_up_monotone Hpq). unfold clampZ. lia.
  - intros [| |[q| | |]]; try reflexivity.
    rewrite clampPercent_finite. cbn [again]. unfold of_Z.
    rewrite clampPercent_finite, round_half_up_int.
    replace (clampZ (clampZ (round_half_up q))) with (clampZ (round_half_up q))
      by (unfold clampZ; lia).
    reflexivity.
  - intros q. rewrite clampPercent_finite, PresentationFacts.clampPercent_Fin.
    reflexivity.
  - intros n Hn. destruct n; [discriminate Hn | split; reflexivity ..].
Qed.

(* ------------------------------------------------------------------ *)
(** *** [sumDefined] and [safeLeft] *)









End PlatformUtilsSpec.

(* ================================================================== *)
(** ** The credit percentage and the quota items of the builders *)
(* ================================================================== *)

Module BuilderSpec.
Import Presentation PresentationFacts CreditMetricsSpec.
Local Open Scope string_scope.










(* ------------------------------------------------------------------ *)
(** *** Quota items *)

Lemma Math_min_100_int (z : Z) : Math_min (of_Z 100) (of_Z z) = of_Z (Z.min 100 z).
Proof.
  unfold Math_min, of_Z, ltb.
  destruct (Qle_bool (inject_Z 100) (inject_Z z)) eqn:E; cbn [negb].
  - apply Qle_bool_iff in E. rewrite <- Zle_Qle in E.
    f_equal. f_equal. lia.
  - apply Qle_bool_false in E. rewrite <- Zlt_Qlt in E.
    f_equal. f_equal. lia.
Qed.

Definition inRange (m : Metric.UnifiedQuotaMetric) : Prop :=
  int_between 0 100 (Metric.percentage m).

Section Builders.
Variable B : JsString.Builtins.
Variable t : Translate.

Lemma buildCopilotMetric_percentage (percentage : optional number)
    (included : optional bool) (getter : number -> string) (includedText : string) :
  int_between 0 100
    (cm_percentage (buildCopilotMetric B percentage included getter includedText)).
Proof.
  unfold buildCopilotMetric.
  destruct (withDefault included false).
  - exists 100%Z. split; [reflexivity | lia].
  - destruct percentage as [| |[q| | |]]; cbn [toFiniteNumber isFinite cm_percentage];
      try (exists 0%Z; split; [reflexivity | lia]).
    cbn [Math_round]. fold (of_Z (round_half_up q)).
    rewrite Math_min_100_int, PresentationSpec.Math_max_zero_int.
    exists (Z.max 0 (Z.min 100 (round_half_up q))). split; [reflexivity | lia].
Qed.

Lemma creditMetric_inRange (key label : string) (quotaClassOf : number -> string)
    (u tt l : optional number) :
  inRange (creditMetric B key label quotaClassOf (buildCreditMetrics u tt l)).
Proof.
  unfold inRange, creditMetric. cbn [Metric.percentage].
  rewrite buildCreditMetrics_usedPercent.
  exists (clampZ (roundedPercent u tt l)). split; [reflexivity | apply clampZ_range].
Qed.

(** X6: Whatever the helpers of the platform report, every quota item that
    the Windsurf, Kiro and GitHub Copilot builders produce has an integer
    percentage between 0 and 100.  Windsurf always has the two items
    "prompt" and "addon"; Kiro has "prompt", followed by "addon" or not;
    GitHub Copilot has "inline", "chat" and "premium", and an item that is
    included in the plan stands at 100. *)
Theorem quota_items_percent_in_range :
  (forall (H : Windsurf.Types) (account : Windsurf.Account),
      let items := View.quotaItems (buildWindsurfAccountPresentation B t H account) in
      Forall inRange items /\ map Metric.key items = ["prompt"; "addon"]) /\
  (forall (H : Kiro.Types) (account : Kiro.Account),
      let items :=
        View.quotaItems (Kiro.base (buildKiroAccountPresentation B t H account)) in
      Forall inRange items /\
      (map Metric.key items = ["prompt"] \/ map Metric.key items = ["prompt"; "addon"])) /\
  (forall (H : Copilot.Types) (account : Copilot.Account),
      let items :=
        View.quotaItems (buildGitHubCopilotAccountPresentation B t H account) in
      Forall inRange items /\ map Metric.key items = ["inline"; "chat"; "premium"]) /\
  (forall (p : optional number) (getter : number -> string) (includedText : string),
      let m := buildCopilotMetric B p (Val true) getter includedText in
      cm_percentage m = of_Z 100 /\ cm_valueText m = includedText).
Proof.
  split; [|split; [|split]].
  - intros H account. cbv zeta. unfold buildWindsurfAccountPresentation.
    cbn [View.quotaItems map]. split; [|reflexivity].
    repeat constructor; apply creditMetric_inRange.
  - intros H account. cbv zeta. unfold buildKiroAccountPresentation.
    cbn [View.quotaItems Kiro.base].
    destruct (shouldShowKiroAddOn _ _); cbn [app map].
    + split; [|right; reflexivity].
      repeat constructor; apply creditMetric_inRange.
    + split; [|left; reflexivity].
      repeat constructor; apply creditMetric_inRange.
  - intros H account. cbv zeta. unfold buildGitHubCopilotAccountPresentation.
    cbn [View.quotaItems map]. split; [|reflexivity].
    repeat constructor; unfold inRange; cbn [Metric.percentage];
      apply buildCopilotMetric_percentage.
  - intros p getter includedText. split; reflexivity.
Qed.

End Builders.

End BuilderSpec.

(* ================================================================== *)
(** ** platformAccountPresentation: the Antigravity quota items *)
(* ================================================================== *)

Module AntigravityQuota.
Import Presentation.
Local Open Scope string_scope.

(** The part of [types/account] that the quota functions read. *)
Record QuotaModel : Type := {
  name : string;
  percentage : number;
  reset_time : string
}.

Record QuotaData : Type := {
  models : optional (list QuotaModel)
}.

Record Account : Type := {
  id : string;
  email : string;
  quota : optional QuotaData
}.

(** [GroupSettings] of the group service.  A record used as a dictionary
    is the list of its own properties, looked up with [JsMap.get]. *)
Record GroupSettings : Type := {
  groupMappings : JsMap.t string;
  groupNames : JsMap.t string;
  groupOrder : list string;
  updatedAt : number;
  updatedBy : string
}.

(** [record[key] = v] on an object literal: the key [__proto__] reaches
    the setter of [Object.prototype], which ignores a number or a string,
    and every other key becomes an own property. *)
Definition assign {V : Type} (record : JsMap.t V) (key : string) (v : V) : JsMap.t V :=
  if String.eqb key "__proto__" then record else JsMap.set record key v.

(** The helpers imported from [utils/account] and [services/groupService],
    and the two uses of [Date]: [new Date(s).getTime()] and
    [new Date(n).toISOString()]. *)
Record Helpers : Type := {
  getDisplayModels : optional QuotaData -> list QuotaModel;
  getModelShortName : string -> string;
  matchModelName : string -> string -> bool;
  calculateGroupQuota : string -> JsMap.t number -> GroupSettings -> option number;
  Date_getTime : string -> number;
  Date_toISOString : number -> string
}.

Definition getAgAccountQuotas (account : Account) : JsMap.t number :=
  match field models (quota account) with
  | Val ms => fold_left (fun quotas model => assign quotas (name model) (percentage model)) ms []
  | _ => []
  end.

Definition setGroupName (settings : GroupSettings) (group : DisplayGroup) : GroupSettings :=
  {| groupMappings := groupMappings settings;
     groupNames := assign (groupNames settings) (group_id group) (group_name group);
     groupOrder := groupOrder settings;
     updatedAt := updatedAt settings;
     updatedBy := updatedBy settings |}.

Definition setGroupMapping (groupId : string) (settings : GroupSettings) (modelId : string)
    : GroupSettings :=
  {| groupMappings := assign (groupMappings settings) modelId groupId;
     groupNames := groupNames settings;
     groupOrder := groupOrder settings;
     updatedAt := updatedAt settings;
     updatedBy := updatedBy settings |}.

Definition buildAgDisplayGroupSettings (groups : list DisplayGroup) : GroupSettings :=
  fold_left
    (fun settings group =>
       fold_left (setGroupMapping (group_id group)) (group_models group)
                 (setGroupName settings group))
    groups
    {| groupMappings := [];
       groupNames := [];
       groupOrder := map group_id groups;
       updatedAt := of_Z 0;
       updatedBy := "desktop" |}.

Section Helpers.
Variable H : Helpers.

Definition belongsToGroup (group : DisplayGroup) (model : QuotaModel) : bool :=
  existsb (fun groupModelId => matchModelName H (name model) groupModelId)
          (group_models group).

(** One turn of the loop over the models. *)
Definition earliestStep (group : DisplayGroup) (earliest : option number)
    (model : QuotaModel) : option number :=
  if negb (belongsToGroup group model) then earliest
  else
    let timestamp := Date_getTime H (reset_time model) in
    if isNaN timestamp then earliest
    else
      match earliest with
      | None => Some timestamp
      | Some e => if ltb timestamp e then Some timestamp else earliest
      end.

Definition getAntigravityGroupResetTimestamp (account : Account) (group : DisplayGroup)
    : option number :=
  match field models (quota account) with
  | Val ms =>
      if (List.length ms =? 0)%nat then None
      else fold_left (earliestStep group) ms None
  | _ => None
  end.

Definition rawItem (model : QuotaModel) : AgQuotaDisplayItem :=
  {| item_key := name model;
     item_label := getModelShortName H (name model);
     item_percentage := percentage model;
     item_resetTime := reset_time model |}.

Definition groupItem (account : Account) (group : DisplayGroup) (percentage : number)
    : AgQuotaDisplayItem :=
  {| item_key := "group:" ++ group_id group;
     item_label := group_name group;
     item_percentage := percentage;
     item_resetTime :=
       match getAntigravityGroupResetTimestamp account group with
       | Some resetTimestamp =>
           if truthy resetTimestamp then Date_toISOString H resetTimestamp else ""
       | None => ""
       end |}.

Definition getAntigravityQuotaDisplayItems (account : Account)
    (displayGroups : list DisplayGroup) : list AgQuotaDisplayItem :=
  let rawDisplayModels := getDisplayModels H (quota account) in
  if (List.length rawDisplayModels =? 0)%nat then []
  else if (List.length displayGroups =? 0)%nat then map rawItem rawDisplayModels
  else
    let quotas := getAgAccountQuotas account in
    let settings := buildAgDisplayGroupSettings displayGroups in
    let groupedItems :=
      fold_left
        (fun groupedItems group =>
           match calculateGroupQuota H (group_id group) quotas settings with
           | None => groupedItems
           | Some percentage => (groupedItems ++ [groupItem account group percentage])%list
           end)
        displayGroups [] in
    if (0 <? List.length groupedItems)%nat then groupedItems
    else map rawItem rawDisplayModels.

End Helpers.

End AntigravityQuota.

Module AntigravityQuotaSpec.
Import Presentation AntigravityQuota JsMapFacts.
Local Open Scope string_scope.

(** The models of the account; none when the quota or its list is missing. *)
Definition modelsOf (account : Account) : list QuotaModel :=
  match field models (quota account) with Val ms => ms | _ => [] end.

(* ------------------------------------------------------------------ *)
(** *** Order of numbers *)

Lemma not_lt_trans (a b c : number) :
  isNaN a = false -> isNaN b = false -> isNaN c = false ->
  ltb b a = false -> ltb c b = false -> ltb c a = false.
Proof.
  destruct a as [x| | |], b as [y| | |], c as [z| | |]; cbn; intros Ha Hb Hc H1 H2;
    try reflexivity; try congruence.
  apply negb_false_iff in H1, H2. apply Qle_bool_iff in H1, H2.
  apply negb_false_iff, Qle_bool_iff. lra.
Qed.

Lemma lt_not_gt (a b : number) : ltb a b = true -> ltb b a = false.
Proof.
  destruct a as [x| | |], b as [y| | |]; cbn; intros H; try reflexivity; try congruence.
  apply negb_true_iff, Qle_bool_false in H.
  apply negb_false_iff, Qle_bool_iff. lra.
Qed.

(* ------------------------------------------------------------------ *)
(** *** The earliest reset of a group *)

Section Helpers.
Variable H : Helpers.

(** A model counts for the group when one of the group's model ids
    matches its name and its reset time is a valid date. *)
Definition counted (group : DisplayGroup) (model : QuotaModel) : bool :=
  belongsToGroup H group model && negb (isNaN (Date_getTime H (reset_time model))).

Definition timeOf (model : QuotaModel) : number := Date_getTime H (reset_time model).

Lemma earliestStep_counted (group : DisplayGroup) (e : option number) (m : QuotaModel) :
  earliestStep H group e m =
    if counted group m then
      match e with
      | None => Some (timeOf m)
      | Some x => if ltb (timeOf m) x then Some (timeOf m) else e
      end
    else e.
Proof.
  unfold earliestStep, counted, timeOf.
  destruct (belongsToGroup H group m); cbn [negb andb]; [|reflexivity].
  destruct (isNaN (Date_getTime H (reset_time m))); reflexivity.
Qed.

Lemma counted_valid (group : DisplayGroup) (m : QuotaModel) :
  counted group m = true -> isNaN (timeOf m) = false.
Proof.
  unfold counted, timeOf. intros E. apply andb_true_iff in E. destruct E as [_ E].
  apply negb_true_iff in E. exact E.
Qed.

Lemma fold_earliest (group : DisplayGroup) (ms : list QuotaModel) :
  forall e0 : option number,
    (forall e, e0 = Some e -> isNaN e = false) ->
    match fold_left (earliestStep H group) ms e0 with
    | None => e0 = None /\ forall m, In m ms -> counted group m = false
    | Some r =>
        isNaN r = false /\
        (e0 = Some r \/ exists m, In m ms /\ counted group m = true /\ timeOf m = r) /\
        (forall m, In m ms -> counted group m = true -> ltb (timeOf m) r = false) /\
        (forall e, e0 = Some e -> ltb e r = false)
    end.
Proof.
  induction ms as [|m ms IH]; intros e0 Hvalid; cbn [fold_left].
  - destruct e0 as [e|].
    + split; [apply Hvalid; reflexivity|]. split; [left; reflexivity|].
      split; [intros ? []|].
      intros e' E. injection E as <-.
      destruct e; cbn; try reflexivity.
      apply negb_false_iff, Qle_bool_iff. lra.
    + split; [reflexivity | intros ? []].
  - rewrite earliestStep_counted.
    destruct (counted group m) eqn:Hm.
    + pose proof (counted_valid _ _ Hm) as Hnan.
      destruct e0 as [e|].
      * pose proof (Hvalid _ eq_refl) as He.
        destruct (ltb (timeOf m) e) eqn:Hlt.
        -- specialize (IH (Some (timeOf m))).
           destruct (fold_left _ ms (Some (timeOf m))) as [r|].
           ++ destruct IH as (Hr & Hfrom & Hall & Hinit).
              { intros ? E. injection E as <-. exact Hnan. }
              split; [exact Hr|]. split; [|split].
              ** right. destruct Hfrom as [E|(m' & Hin & Hc & Ht)].
                 --- injection E as <-. exists m. split; [left; reflexivity|]. split; [exact Hm | reflexivity].
                 --- exists m'. split; [right; exact Hin|]. split; assumption.
              ** intros m' [<-|Hin] Hc; [apply Hinit; reflexivity | apply Hall; assumption].
              ** intros e' E. injection E as <-.
                 apply (@not_lt_trans r (timeOf m) e Hr Hnan He).
                 --- apply Hinit. reflexivity.
                 --- apply lt_not_gt. exact Hlt.
           ++ destruct IH as [E _]; [|discriminate E].
              intros ? E. injection E as <-. exact Hnan.
        -- specialize (IH (Some e) Hvalid).
           destruct (fold_left _ ms (Some e)) as [r|].
           ++ destruct IH as (Hr & Hfrom & Hall & Hinit).
              split; [exact Hr|]. split; [|split].
              ** destruct Hfrom as [E|(m' & Hin & Hc & Ht)]; [left; exact E|].
                 right. exists m'. split; [right; exact Hin|]. split; assumption.
              ** intros m' [<-|Hin] Hc; [|apply Hall; assumption].
                 apply (@not_lt_trans r e (timeOf m) Hr He Hnan); [|exact Hlt].
                 apply Hinit. reflexivity.
              ** exact Hinit.
           ++ destruct IH as [E _]. discriminate E.
      * specialize (IH (Some (timeOf m))).
        destruct (fold_left _ ms (Some (timeOf m))) as [r|].
        -- destruct IH as (Hr & Hfrom & Hall & Hinit).
           { intros ? E. injection E as <-. exact Hnan. }
           split; [exact Hr|]. split; [|split].
           ++ right. destruct Hfrom as [E|(m' & Hin & Hc & Ht)].
              ** injection E as <-. exists m. split; [left; reflexivity|]. split; [exact Hm | reflexivity].
              ** exists m'. split; [right; exact Hin|]. split; assumption.
           ++ intros m' [<-|Hin] Hc; [apply Hinit; reflexivity | apply Hall; assumption].
           ++ intros e' E. discriminate E.
        -- destruct IH as [E _]; [|discriminate E].
           intros ? E. injection E as <-. exact Hnan.
    + specialize (IH e0 Hvalid).
      destruct (fold_left _ ms e0) as [r|].
      * destruct IH as (Hr & Hfrom & Hall & Hinit).
        split; [exact Hr|]. split; [|split].
        -- destruct Hfrom as [E|(m' & Hin & Hc & Ht)]; [left; exact E|].
           right. exists m'. split; [right; exact Hin|]. split; assumption.
        -- intros m' [<-|Hin] Hc; [congruence | apply Hall; assumption].
        -- exact Hinit.
      * destruct IH as [E Hall]. split; [exact E|].
        intros m' [<-|Hin]; [exact Hm | apply Hall; exact Hin].
Qed.

(** X7: [getAntigravityGroupResetTimestamp] answers the earliest reset time
    among the models of the account that belong to the group and carry a
    valid date: it is the time of one of them and none of them is earlier.
    It answers [null] exactly when there is no such model -- in particular
    for an account without quota or without models. *)
Theorem getAntigravityGroupResetTimestamp_earliest :
  forall (account : Account) (group : DisplayGroup),
    match getAntigravityGroupResetTimestamp H account group with
    | None => forall m, In m (modelsOf account) -> counted group m = false
    | Some r =>
        (exists m, In m (modelsOf account) /\ counted group m = true /\ timeOf m = r) /\
        (forall m, In m (modelsOf account) -> counted group m = true ->
                   ltb (timeOf m) r = false)
    end.
Proof.
  intros account group. unfold getAntigravityGroupResetTimestamp, modelsOf.
  destruct (field models (quota account)) as [| |ms]; try (intros ? []).
  destruct (List.length ms =? 0)%nat eqn:Hlen.
  - apply Nat.eqb_eq in Hlen. destruct ms; [intros ? [] | discriminate Hlen].
  - pose proof (@fold_earliest group ms None) as Hfold.
    destruct (fold_left (earliestStep H group) ms None) as [r|].
    + destruct Hfold as (_ & Hfrom & Hall & _); [intros ? E; discriminate E|].
      split; [|exact Hall].
      destruct Hfrom as [E|Hex]; [discriminate E | exact Hex].
    + destruct Hfold as [_ Hall]; [intros ? E; discriminate E|]. exact Hall.
Qed.

(* ------------------------------------------------------------------ *)
(** *** The display items *)

Definition quotaOf (account : Account) (groups : list DisplayGroup) (group : DisplayGroup)
    : option number :=
  calculateGroupQuota H (group_id group) (getAgAccountQuotas account)
                      (buildAgDisplayGroupSettings groups).

Definition hasQuota (account : Account) (groups : list DisplayGroup) (group : DisplayGroup)
    : bool :=
  match quotaOf account groups group with Some _ => true | None => false end.

Lemma grouped_fold (account : Account) (quota : DisplayGroup -> option number)
    (groups : list DisplayGroup) (acc : list AgQuotaDisplayItem) :
  fold_left
    (fun groupedItems group =>
       match quota group with
       | None => groupedItems
       | Some percentage => (groupedItems ++ [groupItem H account group percentage])%list
       end) groups acc
  = (acc ++ flat_map (fun group =>
                        match quota group with
                        | None => []
                        | Some percentage => [groupItem H account group percentage]
                        end) groups)%list.
Proof.
  revert acc. induction groups as [|g groups IH]; intros acc; cbn [fold_left flat_map].
  - rewrite app_nil_r. reflexivity.
  - rewrite IH. destruct (quota g); [rewrite <- app_assoc|]; reflexivity.
Qed.

Lemma grouped_shown (account : Account) (quota : DisplayGroup -> option number)
    (groups : list DisplayGroup) :
  let items :=
    flat_map (fun group =>
                match quota group with
                | None => []
                | Some percentage => [groupItem H account group percentage]
                end) groups in
  let shown :=
    filter (fun group => match quota group with Some _ => true | None => false end) groups in
  map item_key items = map (fun group => "group:" ++ group_id group) shown /\
  map item_label items = map group_name shown /\
  map (fun item => Some (item_percentage item)) items = map quota shown.
Proof.
  cbv zeta. induction groups as [|g groups (IH1 & IH2 & IH3)]; cbn [flat_map filter map].
  - repeat split.
  - destruct (quota g) eqn:E; cbn [app map]; [|repeat split; assumption].
    rewrite IH1, IH2, IH3, E. repeat split.
Qed.

(** X8: [getAntigravityQuotaDisplayItems] never mixes groups and models.
    Without display models there is no item at all.  Otherwise, when at
    least one display group has a quota, there is one item for each such
    group, in the order of the groups, keyed [group:<id>], labelled with the
    group's name and carrying the group's quota, and the groups without
    quota are left out; when no group has a quota (in particular without
    groups) there is one item for each display model. *)
Theorem getAntigravityQuotaDisplayItems_groups_or_models :
  forall (account : Account) (displayGroups : list DisplayGroup),
    let items := getAntigravityQuotaDisplayItems H account displayGroups in
    let shown := filter (hasQuota account displayGroups) displayGroups in
    match getDisplayModels H (quota account), shown with
    | [], _ => items = []
    | (_ :: _) as rawDisplayModels, [] => items = map (rawItem H) rawDisplayModels
    | _ :: _, _ :: _ =>
        map item_key items = map (fun group => "group:" ++ group_id group) shown /\
        map item_label items = map group_name shown /\
        map (fun item => Some (item_percentage item)) items
        = map (quotaOf account displayGroups) shown
    end.
Proof.
  intros account displayGroups. cbv zeta. unfold getAntigravityQuotaDisplayItems.
  destruct (getDisplayModels H (quota account)) as [|model rest] eqn:Hraw;
    [reflexivity|].
  cbn [List.length Nat.eqb].
  destruct (List.length displayGroups =? 0)%nat eqn:Hlen.
  - apply Nat.eqb_eq in Hlen.
    destruct displayGroups; [reflexivity | discriminate Hlen].
  - pose proof (@grouped_shown account (quotaOf account displayGroups) displayGroups)
      as (Hk & Hl & Hp).
    pose proof (@grouped_fold account (quotaOf account displayGroups) displayGroups [])
      as Hfold.
    unfold hasQuota. unfold quotaOf in *. rewrite Hfold. cbn [app].
    destruct (filter _ displayGroups) as [|s shown].
    + destruct (flat_map _ displayGroups) as [|i items]; [reflexivity | discriminate Hk].
    + destruct (flat_map _ displayGroups) as [|i items]; [discriminate Hk|].
      cbn [List.length Nat.ltb Nat.leb]. repeat split; assumption.
Qed.

End Helpers.

(* ------------------------------------------------------------------ *)
(** *** The dictionaries handed to the group service *)

Lemma get_assign {V : Type} (m : JsMap.t V) (k k' : string) (v : V) :
  JsMap.get (assign m k v) k'
  = if String.eqb k "__proto__" then JsMap.get m k'
    else if String.eqb k k' then Some v else JsMap.get m k'.
Proof.
  unfold assign. destruct (String.eqb k "__proto__"); [reflexivity | apply get_set].
Qed.

Lemma find_snoc {A : Type} (f : A -> bool) (l : list A) (x : A) :
  find f (l ++ [x]) =
    match find f l with
    | Some y => Some y
    | None => if f x then Some x else None
    end.
Proof.
  induction l as [|y l IH]; cbn [app find]; [reflexivity|].
  destruct (f y); [reflexivity | exact IH].
Qed.

(** After a loop of assignments a key holds the value of the last
    assignment to it. *)
Lemma get_fold_assign {A V : Type} (hits : A -> string -> bool) (write : JsMap.t V -> A -> JsMap.t V)
    (valueOf : A -> V) (xs : list A) (n : string) :
  (forall m x, JsMap.get (write m x) n = if hits x n then Some (valueOf x) else JsMap.get m n) ->
  forall m0 : JsMap.t V,
    JsMap.get (fold_left write xs m0) n =
      match find (fun x => hits x n) (rev xs) with
      | Some x => Some (valueOf x)
      | None => JsMap.get m0 n
      end.
Proof.
  intros Hwrite. induction xs as [|x xs IH]; intros m0; cbn [fold_left rev]; [reflexivity|].
  rewrite IH, find_snoc.
  destruct (find (fun x0 => hits x0 n) (rev xs)); [reflexivity|].
  rewrite Hwrite. destruct (hits x n); reflexivity.
Qed.

Definition isProto (key : string) : bool := String.eqb key "__proto__".

Lemma groupNames_fold_mapping (gid : string) (ms : list string) (s : GroupSettings) :
  groupNames (fold_left (setGroupMapping gid) ms s) = groupNames s /\
  groupOrder (fold_left (setGroupMapping gid) ms s) = groupOrder s.
Proof.
  revert s. induction ms as [|m ms IH]; intros s; cbn [fold_left]; [split; reflexivity|].
  destruct (IH (setGroupMapping gid s m)) as [-> ->]. split; reflexivity.
Qed.

Lemma groupMappings_fold_mapping (gid : string) (ms : list string) (s : GroupSettings) :
  groupMappings (fold_left (setGroupMapping gid) ms s)
  = fold_left (fun mappings modelId => assign mappings modelId gid) ms (groupMappings s).
Proof.
  revert s. induction ms as [|m ms IH]; intros s; cbn [fold_left]; [reflexivity|].
  rewrite IH. reflexivity.
Qed.

Definition settingsStep (settings : GroupSettings) (group : DisplayGroup) : GroupSettings :=
  fold_left (setGroupMapping (group_id group)) (group_models group)
            (setGroupName settings group).

Lemma settings_fold (groups : list DisplayGroup) (s : GroupSettings) :
  groupNames (fold_left settingsStep groups s)
  = fold_left (fun names group => assign names (group_id group) (group_name group))
              groups (groupNames s) /\
  groupMappings (fold_left settingsStep groups s)
  = fold_left (fun mappings group =>
                 fold_left (fun mappings modelId => assign mappings modelId (group_id group))
                           (group_models group) mappings)
              groups (groupMappings s) /\
  groupOrder (fold_left settingsStep groups s) = groupOrder s.
Proof.
  revert s. induction groups as [|g groups IH]; intros s; cbn [fold_left];
    [repeat split; reflexivity|].
  destruct (IH (settingsStep s g)) as (-> & -> & ->).
  unfold settingsStep.
  destruct (groupNames_fold_mapping (group_id g) (group_models g) (setGroupName s g))
    as [-> ->].
  rewrite groupMappings_fold_mapping. repeat split; reflexivity.
Qed.

Lemma get_mappings_of_group (gid : string) (ms : list string) (m0 : JsMap.t string)
    (n : string) :
  JsMap.get (fold_left (fun mappings modelId => assign mappings modelId gid) ms m0) n
  = if negb (isProto n) && existsb (String.eqb n) ms then Some gid else JsMap.get m0 n.
Proof.
  revert m0. induction ms as [|m ms IH]; intros m0; cbn [fold_left existsb].
  - rewrite andb_false_r. reflexivity.
  - rewrite IH, get_assign. unfold isProto.
    destruct (String.eqb n "__proto__") eqn:Hn; cbn [negb andb].
    + apply String.eqb_eq in Hn. subst n.
      destruct (String.eqb m "__proto__"); reflexivity.
    + destruct (existsb (String.eqb n) ms); [rewrite orb_true_r; reflexivity|].
      rewrite orb_false_r. rewrite (String.eqb_sym n m).
      destruct (String.eqb m n) eqn:Hmn; [|destruct (String.eqb m "__proto__"); reflexivity].
      apply String.eqb_eq in Hmn. subst m. rewrite Hn. reflexivity.
Qed.

(** X9: The dictionaries that the display items hand to the group service hold
    the last write for every key.  The quota stored under a model name is
    the percentage of the last model of that name; the name stored under a
    group id is that of the last group with the id; a model id listed by
    several groups is mapped to the last group that lists it; and
    [groupOrder] lists the group ids in the order given.  The key
    [__proto__] is never stored. *)
Theorem quota_dictionaries_last_write_wins :
  (forall (account : Account) (n : string),
      JsMap.get (getAgAccountQuotas account) n =
        if isProto n then None
        else option_map percentage
               (find (fun model => String.eqb (name model) n) (rev (modelsOf account)))) /\
  (forall (groups : list DisplayGroup) (n : string),
      let settings := buildAgDisplayGroupSettings groups in
      groupOrder settings = map group_id groups /\
      JsMap.get (groupNames settings) n =
        (if isProto n then None
         else option_map group_name
                (find (fun group => String.eqb (group_id group) n) (rev groups))) /\
      JsMap.get (groupMappings settings) n =
        (if isProto n then None
         else option_map group_id
                (find (fun group => existsb (String.eqb n) (group_models group))
                      (rev groups)))).
Proof.
  split.
  - intros account n. unfold getAgAccountQuotas, modelsOf.
    destruct (field models (quota account)) as [| |ms];
      try (cbn; destruct (isProto n); reflexivity).
    rewrite (@get_fold_assign QuotaModel number
               (fun model k => negb (isProto k) && String.eqb (name model) k)
               (fun quotas model => assign quotas (name model) (percentage model))
               percentage ms n).
    + unfold isProto. destruct (String.eqb n "__proto__") eqn:Hn; cbn [negb andb].
      * destruct (find (fun _ => false) (rev ms)) eqn:E; [|reflexivity].
        apply find_some in E. destruct E as [_ E]. discriminate E.
      * destruct (find _ (rev ms)); reflexivity.
    + intros m x. rewrite get_assign. unfold isProto.
      destruct (String.eqb n "__proto__") eqn:Hn; cbn [negb andb].
      * apply String.eqb_eq in Hn. subst n.
        destruct (String.eqb (name x) "__proto__"); reflexivity.
      * destruct (String.eqb (name x) n) eqn:Hxn;
          [|destruct (String.eqb (name x) "__proto__"); reflexivity].
        apply String.eqb_eq in Hxn. rewrite Hxn, Hn. reflexivity.
  - intros groups n. cbv zeta. unfold buildAgDisplayGroupSettings.
    fold settingsStep.
    destruct (settings_fold groups
                {| groupMappings := []; groupNames := [];
                   groupOrder := map group_id groups;
                   updatedAt := of_Z 0; updatedBy := "desktop" |}) as (-> & -> & ->).
    cbn [groupNames groupMappings groupOrder].
    split; [reflexivity|]. split.
    + rewrite (@get_fold_assign DisplayGroup string
                 (fun group k => negb (isProto k) && String.eqb (group_id group) k)
                 (fun names group => assign names (group_id group) (group_name group))
                 group_name groups n).
      * unfold isProto. destruct (String.eqb n "__proto__") eqn:Hn; cbn [negb andb].
        -- destruct (find (fun _ => false) (rev groups)) eqn:E; [|reflexivity].
           apply find_some in E. destruct E as [_ E]. discriminate E.
        -- destruct (find _ (rev groups)); reflexivity.
      * intros m x. rewrite get_assign. unfold isProto.
        destruct (String.eqb n "__proto__") eqn:Hn; cbn [negb andb].
        -- apply String.eqb_eq in Hn. subst n.
           destruct (String.eqb (group_id x) "__proto__"); reflexivity.
        -- destruct (String.eqb (group_id x) n) eqn:Hxn;
             [|destruct (String.eqb (group_id x) "__proto__"); reflexivity].
           apply String.eqb_eq in Hxn. rewrite Hxn, Hn. reflexivity.
    + rewrite (@get_fold_assign DisplayGroup string
                 (fun group k => negb (isProto k) && existsb (String.eqb k) (group_models group))
                 (fun mappings group =>
                    fold_left (fun mappings modelId => assign mappings modelId (group_id group))
                              (group_models group) mappings)
                 group_id groups n).
      * destruct (isProto n); cbn [negb andb].
        -- destruct (find (fun _ => false) (rev groups)) eqn:E; [|reflexivity].
           apply find_some in E. destruct E as [_ E]. discriminate E.
        -- destruct (find _ (rev groups)); reflexivity.
      * intros m x. apply get_mappings_of_group.
Qed.

End AntigravityQuotaSpec.

(* ================================================================== *)
(** ** useProviderAccountsPage: selection, tags and deletion *)
(* ================================================================== *)

(** A [Set<string>]: its elements in insertion order, each of them once. *)
Module JsSet.

Definition t : Type := list string.

Definition has (s : t) (x : string) : bool := existsb (String.eqb x) s.

Definition add (s : t) (x : string) : t := if has s x then s else (s ++ [x])%list.

Definition delete (s : t) (x : string) : t :=
  filter (fun y => negb (String.eqb y x)) s.

(** [new Set(xs)] *)
Definition of_list (xs : list string) : t := fold_left add xs [].

Definition size (s : t) : nat := List.length s.

End JsSet.

Module ProviderPage.
Local Open Scope string_scope.

(** [ProviderAccountBase] *)
Record Account : Type := {
  id : string;
  created_at : number;
  tags : optional (list string)
}.

(** [account.tags || []] *)
Definition tagsOrEmpty (account : Account) : list string :=
  match tags account with Val ts => ts | _ => [] end.

(* Selection *)

Definition toggleSelect (id : string) (prev : JsSet.t) : JsSet.t :=
  if JsSet.has prev id then JsSet.delete prev id else JsSet.add prev id.

Definition toggleSelectAll (selected : JsSet.t) (filteredIds : list string) : JsSet.t :=
  let allSelected :=
    Nat.eqb (JsSet.size selected) (List.length filteredIds)
    && Nat.ltb 0 (List.length filteredIds) in
  if allSelected then [] else JsSet.of_list filteredIds.

(* Tags *)

(** [prev.includes(tag)] *)
Definition includes (prev : list string) (tag : string) : bool :=
  existsb (String.eqb tag) prev.

Definition toggleTagFilterValue (tag : string) (prev : list string) : list string :=
  if includes prev tag then filter (fun item => negb (String.eqb item tag)) prev
  else (prev ++ [tag])%list.

Record TagDeleteConfirm : Type := {
  tag : string;
  count : nat
}.

(** The state that the tag handlers read and write. *)
Record TagState : Type := {
  tagFilter : list string;
  tagDeleteConfirm : option TagDeleteConfirm;
  deletingTag : bool
}.

(** One call of [updateAccountTags(id, tags)]. *)
Definition TagUpdate : Type := (string * list string)%type.

(* Deletion *)

Record DeleteConfirm : Type := {
  ids : list string;
  message : string
}.

Record DeleteState : Type := {
  selected : JsSet.t;
  deleteConfirm : option DeleteConfirm;
  deleting : bool
}.

Section Hook.
Variable B : JsString.Builtins.

Definition normalizeTag (tag : string) : string :=
  JsString.toLowerCase B (JsString.trim B tag).

Definition availableTags (accounts : list Account) : list string :=
  let set :=
    fold_left
      (fun set account =>
         fold_left
           (fun set tag =>
              let normalized := normalizeTag tag in
              if JsString.nonEmpty normalized then JsSet.add set normalized else set)
           (tagsOrEmpty account) set)
      accounts [] in
  JsArray.sort (fun a b => JsString.localeCompare B a b) set.

(** [(acc.tags || []).some((t) => normalizeTag(t) === target)] *)
Definition hasTag (target : string) (acc : Account) : bool :=
  existsb (fun t => String.eqb (normalizeTag t) target) (tagsOrEmpty acc).

Definition requestDeleteTag (accounts : list Account) (tag : string) (s : TagState)
    : TagState :=
  let normalized := normalizeTag tag in
  if negb (JsString.nonEmpty normalized) then s
  else
    let count := List.length (filter (hasTag normalized) accounts) in
    {| tagFilter := tagFilter s;
       tagDeleteConfirm := Some {| tag := normalized; count := count |};
       deletingTag := deletingTag s |}.

(** The loop of [confirmDeleteTag]: one awaited [updateAccountTags] for
    every affected account, in order.  [resolves k] tells whether the
    [k]-th call is fulfilled; a rejected call ends the loop.  The result
    is the calls made and whether the loop completed. *)
Fixpoint updateAffected (target : string) (resolves : nat -> bool) (k : nat)
    (affectedAccounts : list Account) : list TagUpdate * bool :=
  match affectedAccounts with
  | [] => ([], true)
  | acc :: rest =>
      let newTags :=
        filter (fun t => negb (String.eqb (normalizeTag t) target)) (tagsOrEmpty acc) in
      if resolves k then
        let '(calls, completed) := updateAffected target resolves (S k) rest in
        ((id acc, newTags) :: calls, completed)
      else ([(id acc, newTags)], false)
  end.

(** [confirmDeleteTag], run to its end with no other event in between:
    the state afterwards and the calls of [updateAccountTags] made. *)
Definition confirmDeleteTag (accounts : list Account) (resolves : nat -> bool)
    (s : TagState) : TagState * list TagUpdate :=
  match tagDeleteConfirm s with
  | None => (s, [])
  | Some confirm =>
      if deletingTag s then (s, [])
      else
        let target := tag confirm in
        let affectedAccounts := filter (hasTag target) accounts in
        let '(calls, completed) := updateAffected target resolves 0 affectedAccounts in
        if completed then
          ({| tagFilter :=
                filter (fun t => negb (String.eqb (normalizeTag t) target)) (tagFilter s);
              tagDeleteConfirm := None;
              deletingTag := false |}, calls)
        else
          ({| tagFilter := tagFilter s;
              tagDeleteConfirm := tagDeleteConfirm s;
              deletingTag := false |}, calls)
  end.

End Hook.

Section Delete.
Variable t : Presentation.Translate.

(** [t('messages.batchDeleteConfirm', { count })] *)
Variable batchDeleteConfirm : nat -> string.

Definition handleDelete (accountId : string) (s : DeleteState) : DeleteState :=
  {| selected := selected s;
     deleteConfirm :=
       Some {| ids := [accountId];
               message := t "messages.deleteConfirm" "确定要删除此账号吗？" [] |};
     deleting := deleting s |}.

Definition handleBatchDelete (s : DeleteState) : DeleteState :=
  if Nat.eqb (JsSet.size (selected s)) 0 then s
  else
    {| selected := selected s;
       deleteConfirm :=
         Some {| ids := selected s;
                 message := batchDeleteConfirm (JsSet.size (selected s)) |};
       deleting := deleting s |}.

End Delete.

(** [confirmDelete], run to its end with no other event in between;
    [resolved] tells whether [deleteAccounts] is fulfilled.  The result is
    the state afterwards and the ids handed to [deleteAccounts], if it was
    called. *)
Definition confirmDelete (resolved : bool) (s : DeleteState)
    : DeleteState * option (list string) :=
  match deleteConfirm s with
  | None => (s, None)
  | Some confirm =>
      if deleting s then (s, None)
      else if resolved then
        ({| selected := fold_left JsSet.delete (ids confirm) (selected s);
            deleteConfirm := None;
            deleting := false |}, Some (ids confirm))
      else
        ({| selected := selected s;
            deleteConfirm := deleteConfirm s;
            deleting := false |}, Some (ids confirm))
  end.

End ProviderPage.

Module JsSetFacts.
Import JsSet.

Lemma has_In (s : t) (x : string) : has s x = true <-> In x s.
Proof.
  unfold has. rewrite existsb_exists. split.
  - intros (y & Hin & E). apply String.eqb_eq in E. subst y. exact Hin.
  - intros Hin. exists x. split; [exact Hin | apply String.eqb_refl].
Qed.

Lemma has_app (s1 s2 : t) (x : string) : has (s1 ++ s2) x = has s1 x || has s2 x.
Proof. apply existsb_app. Qed.

Lemma has_add (s : t) (x y : string) : has (add s x) y = String.eqb y x || has s y.
Proof.
  unfold add. destruct (has s x) eqn:Hx.
  - destruct (String.eqb y x) eqn:E; [|reflexivity].
    apply String.eqb_eq in E. subst y. exact Hx.
  - rewrite has_app. cbn [has existsb]. rewrite orb_false_r. apply orb_comm.
Qed.

Lemma has_delete (s : t) (x y : string) :
  has (delete s x) y = negb (String.eqb y x) && has s y.
Proof.
  unfold delete, has. induction s as [|z s IH]; cbn [filter existsb].
  - rewrite andb_false_r. reflexivity.
  - destruct (String.eqb z x) eqn:Ezx; cbn [negb existsb].
    + rewrite IH. apply String.eqb_eq in Ezx. subst z.
      destruct (String.eqb y x); reflexivity.
    + rewrite IH. destruct (String.eqb y z) eqn:Eyz; cbn [orb].
      * apply String.eqb_eq in Eyz. subst z. rewrite Ezx. reflexivity.
      * reflexivity.
Qed.

Lemma NoDup_add (s : t) (x : string) : NoDup s -> NoDup (add s x).
Proof.
  intros Hs. unfold add. destruct (has s x) eqn:Hx; [exact Hs|].
  apply NoDup_app; [exact Hs | constructor; [intros [] | constructor] |].
  intros y Hy [<-|[]]. apply has_In in Hy. congruence.
Qed.

Lemma NoDup_delete (s : t) (x : string) : NoDup s -> NoDup (delete s x).
Proof. apply NoDup_filter. Qed.

Lemma has_fold_add (xs : list string) (acc : t) (y : string) :
  has (fold_left add xs acc) y = has acc y || existsb (String.eqb y) xs.
Proof.
  revert acc. induction xs as [|x xs IH]; intros acc; cbn [fold_left existsb].
  - rewrite orb_false_r. reflexivity.
  - rewrite IH, has_add. destruct (String.eqb y x), (has acc y); reflexivity.
Qed.

Lemma has_of_list (xs : list string) (y : string) :
  has (of_list xs) y = existsb (String.eqb y) xs.
Proof. unfold of_list. rewrite has_fold_add. reflexivity. Qed.

Lemma fold_add_distinct (xs : list string) (acc : t) :
  NoDup (acc ++ xs) -> fold_left add xs acc = (acc ++ xs)%list.
Proof.
  revert acc. induction xs as [|x xs IH]; intros acc Hnd; cbn [fold_left].
  - rewrite app_nil_r. reflexivity.
  - assert (Hx : has acc x = false).
    { destruct (has acc x) eqn:E; [|reflexivity].
      apply has_In in E. apply NoDup_remove_2 in Hnd.
      exfalso. apply Hnd. apply in_or_app. left. exact E. }
    unfold add at 2. rewrite Hx.
    rewrite IH; rewrite <- app_assoc; [reflexivity | exact Hnd].
Qed.

Lemma of_list_distinct (xs : list string) : NoDup xs -> of_list xs = xs.
Proof. intros Hnd. unfold of_list. rewrite fold_add_distinct; [reflexivity | exact Hnd]. Qed.

Lemma has_fold_delete (ids : list string) (s : t) (y : string) :
  has (fold_left delete ids s) y = has s y && negb (existsb (String.eqb y) ids).
Proof.
  revert s. induction ids as [|x ids IH]; intros s; cbn [fold_left existsb].
  - rewrite andb_true_r. reflexivity.
  - rewrite IH, has_delete.
    destruct (String.eqb y x), (has s y), (existsb (String.eqb y) ids); reflexivity.
Qed.

Lemma empty_of_has (s : t) : (forall y, has s y = false) -> s = [].
Proof.
  destruct s as [|x s]; [reflexivity|]. intros Hs. specialize (Hs x).
  cbn [has existsb] in Hs. rewrite String.eqb_refl in Hs. discriminate Hs.
Qed.

End JsSetFacts.

Module ProviderPageSpec.
Import ProviderPage JsSetFacts JsArrayFacts.
Local Open Scope string_scope.

(* ------------------------------------------------------------------ *)
(** *** Selection *)

(** X10: Toggling an id flips whether that id is selected and leaves every
    other id as it was, and the selection stays free of repetitions; the
    tag filter is toggled in the same way. *)
Theorem toggle_flips_one_membership :
  (forall (id : string) (prev : JsSet.t) (y : string),
      JsSet.has (toggleSelect id prev) y
      = if String.eqb y id then negb (JsSet.has prev id) else JsSet.has prev y) /\
  (forall (id : string) (prev : JsSet.t), NoDup prev -> NoDup (toggleSelect id prev)) /\
  (forall (tag : string) (prev : list string) (y : string),
      includes (toggleTagFilterValue tag prev) y
      = if String.eqb y tag then negb (includes prev tag) else includes prev y).
Proof.
  split; [|split].
  - intros id prev y. unfold toggleSelect.
    destruct (JsSet.has prev id) eqn:Hid.
    + rewrite has_delete. destruct (String.eqb y id); reflexivity.
    + rewrite has_add. destruct (String.eqb y id); reflexivity.
  - intros id prev Hnd. unfold toggleSelect.
    destruct (JsSet.has prev id); [apply NoDup_delete | apply NoDup_add]; exact Hnd.
  - intros tag prev y. unfold toggleTagFilterValue.
    destruct (includes prev tag) eqn:Htag.
    + change (includes (filter (fun item => negb (String.eqb item tag)) prev) y)
        with (JsSet.has (JsSet.delete prev tag) y).
      rewrite has_delete. destruct (String.eqb y tag); reflexivity.
    + change (includes (prev ++ [tag])%list y) with (JsSet.has (prev ++ [tag])%list y).
      rewrite has_app. cbn [JsSet.has existsb]. rewrite orb_false_r.
      change (JsSet.has prev y) with (includes prev y).
      destruct (String.eqb y tag) eqn:E; [|apply orb_false_r].
      apply String.eqb_eq in E. subst y. rewrite Htag. reflexivity.
Qed.

(** X11: For a list of distinct ids that is not empty, "select all" on an empty
    selection selects exactly the listed ids, and on that selection it
    clears it again.  The decision compares sizes only: a selection of as
    many ids as are listed is cleared whatever ids it holds, and a
    selection of another size is replaced by the listed ids. *)
Theorem toggleSelectAll_compares_sizes (filteredIds : list string)
    (Hdistinct : NoDup filteredIds) (Hsome : filteredIds <> []) :
  toggleSelectAll [] filteredIds = filteredIds /\
  toggleSelectAll (toggleSelectAll [] filteredIds) filteredIds = [] /\
  (forall selected : JsSet.t,
      JsSet.size selected = List.length filteredIds ->
      toggleSelectAll selected filteredIds = []) /\
  (forall selected : JsSet.t,
      JsSet.size selected <> List.length filteredIds ->
      toggleSelectAll selected filteredIds = filteredIds).
Proof.
  assert (Hpos : Nat.ltb 0 (List.length filteredIds) = true).
  { destruct filteredIds; [congruence | reflexivity]. }
  assert (Hsame : forall selected : JsSet.t,
             JsSet.size selected = List.length filteredIds ->
             toggleSelectAll selected filteredIds = []).
  { intros selected Hsize. unfold toggleSelectAll.
    rewrite Hsize, Nat.eqb_refl, Hpos. reflexivity. }
  assert (Hother : forall selected : JsSet.t,
             JsSet.size selected <> List.length filteredIds ->
             toggleSelectAll selected filteredIds = filteredIds).
  { intros selected Hsize. unfold toggleSelectAll.
    apply Nat.eqb_neq in Hsize. rewrite Hsize. cbn [andb].
    apply of_list_distinct, Hdistinct. }
  assert (Hfirst : toggleSelectAll [] filteredIds = filteredIds).
  { apply Hother. destruct filteredIds; [congruence | discriminate]. }
  split; [exact Hfirst|]. split; [|split; assumption].
  rewrite Hfirst. apply Hsame. reflexivity.
Qed.

Lemma toggleSelectAll_compares_sizes_sample :
  NoDup ["a"; "b"] /\ ["a"; "b"] <> [] /\
  toggleSelectAll [] ["a"; "b"] = ["a"; "b"] /\
  toggleSelectAll ["x"; "y"] ["a"; "b"] = [].
Proof.
  assert (Hd : NoDup ["a"; "b"]).
  { constructor; [intros [E|[]]; discriminate E|].
    constructor; [intros []|constructor]. }
  assert (Hs : ["a"; "b"] <> []) by discriminate.
  split; [exact Hd|]. split; [exact Hs|].
  pose proof (@toggleSelectAll_compares_sizes ["a"; "b"] Hd Hs) as (H1 & _ & H3 & _).
  split; [exact H1 | apply H3; reflexivity].
Defined.

(* ------------------------------------------------------------------ *)
(** *** Deleting accounts *)

Section Delete.
Variable t : Presentation.Translate.
Variable batchDeleteConfirm : nat -> string.

(** X12: While no deletion is running: confirming the deletion of one account
    removes that id from the selection and nothing else; confirming a batch
    deletion hands the whole selection to [deleteAccounts] and leaves the
    selection empty; a rejected deletion keeps the selection and the open
    confirmation, and lets the user try again; with an empty selection the
    batch request does nothing. *)
Theorem confirmDelete_prunes_selection (s : DeleteState)
    (Hidle : deleting s = false) :
  (forall (accountId y : string),
      let after := confirmDelete true (handleDelete t accountId s) in
      snd after = Some [accountId] /\
      deleteConfirm (fst after) = None /\
      JsSet.has (selected (fst after)) y
      = JsSet.has (selected s) y && negb (String.eqb y accountId)) /\
  (selected s <> [] ->
   let after := confirmDelete true (handleBatchDelete batchDeleteConfirm s) in
   snd after = Some (selected s) /\
   selected (fst after) = [] /\
   deleteConfirm (fst after) = None) /\
  (forall accountId : string,
      let asked := handleDelete t accountId s in
      let after := confirmDelete false asked in
      selected (fst after) = selected s /\
      deleteConfirm (fst after) = deleteConfirm asked /\
      deleting (fst after) = false /\
      confirmDelete true (fst after) = confirmDelete true asked) /\
  (selected s = [] -> handleBatchDelete batchDeleteConfirm s = s).
Proof.
  split; [|split; [|split]].
  - intros accountId y. cbv zeta. unfold confirmDelete, handleDelete.
    cbn [deleteConfirm deleting selected ids]. rewrite Hidle. cbn [fst snd selected deleteConfirm].
    split; [reflexivity|]. split; [reflexivity|].
    rewrite has_fold_delete. cbn [existsb]. rewrite orb_false_r. reflexivity.
  - intros Hsel. cbv zeta. unfold handleBatchDelete.
    destruct (selected s) as [|x rest] eqn:Hs; [congruence|].
    cbn [JsSet.size List.length Nat.eqb]. unfold confirmDelete.
    cbn [deleteConfirm deleting selected ids]. rewrite Hidle.
    cbn [fst snd selected deleteConfirm].
    split; [reflexivity|]. split; [|reflexivity].
    apply empty_of_has. intros y. rewrite has_fold_delete.
    change (existsb (String.eqb y) (x :: rest)) with (JsSet.has (x :: rest) y).
    destruct (JsSet.has (x :: rest) y); reflexivity.
  - intros accountId. cbv zeta. unfold confirmDelete, handleDelete.
    cbn [deleteConfirm deleting selected ids]. rewrite Hidle.
    cbn [fst snd selected deleteConfirm deleting]. repeat split; reflexivity.
  - intros Hsel. unfold handleBatchDelete. rewrite Hsel. reflexivity.
Qed.

End Delete.

Definition sampleSelection : DeleteState :=
  {| selected := ["a"; "b"]; deleteConfirm := None; deleting := false |}.

Lemma confirmDelete_prunes_selection_sample :
  deleting sampleSelection = false /\
  selected (fst (confirmDelete true (handleDelete Sample.translate "a" sampleSelection)))
  = ["b"] /\
  selected (fst (confirmDelete true
                   (handleBatchDelete (fun _ => "delete the selected accounts?")
                                      sampleSelection))) = [].
Proof.
  split; [reflexivity|].
  pose proof (@confirmDelete_prunes_selection Sample.translate
                (fun _ => "delete the selected accounts?") sampleSelection eq_refl)
    as (_ & Hbatch & _).
  split; [reflexivity|].
  apply Hbatch. discriminate.
Defined.

(* ------------------------------------------------------------------ *)
(** *** Tags *)

Section Tags.
Variable B : JsString.Builtins.

Lemma nonEmpty_true (s : string) : JsString.nonEmpty s = true <-> s <> "".
Proof.
  unfold JsString.nonEmpty. rewrite negb_true_iff. apply String.eqb_neq.
Qed.

(** The tags that an account list offers: the normalized texts, other
    than the empty one, of the tags of its accounts. *)
Definition offered (accounts : list Account) (tag : string) : Prop :=
  tag <> "" /\
  exists account raw,
    In account accounts /\ In raw (tagsOrEmpty account) /\ normalizeTag B raw = tag.

Definition addTag (set : JsSet.t) (tag : string) : JsSet.t :=
  let normalized := normalizeTag B tag in
  if JsString.nonEmpty normalized then JsSet.add set normalized else set.

Lemma addTags_spec (tags : list string) (set : JsSet.t) :
  (NoDup set -> NoDup (fold_left addTag tags set)) /\
  (forall x, In x (fold_left addTag tags set) <->
             In x set \/ (x <> "" /\ exists raw, In raw tags /\ normalizeTag B raw = x)).
Proof.
  revert set. induction tags as [|tag tags IH]; intros set; cbn [fold_left].
  - split; [intros Hs; exact Hs|]. intros x. split; [intros Hin; left; exact Hin|].
    intros [Hin|(_ & raw & [] & _)]. exact Hin.
  - destruct (IH (addTag set tag)) as [IHnd IHin]. split.
    + intros Hs. apply IHnd. unfold addTag.
      destruct (JsString.nonEmpty (normalizeTag B tag)); [apply NoDup_add|]; exact Hs.
    + intros x. rewrite IHin. unfold addTag.
      destruct (JsString.nonEmpty (normalizeTag B tag)) eqn:Hne.
      * rewrite <- !has_In, has_add, orb_true_iff, String.eqb_eq, !has_In. split.
        -- intros [[->|Hin]|(Hx & raw & Hraw & E)].
           ++ right. split; [apply nonEmpty_true; exact Hne|].
              exists tag. split; [left; reflexivity | reflexivity].
           ++ left. exact Hin.
           ++ right. split; [exact Hx|]. exists raw. split; [right; exact Hraw | exact E].
        -- intros [Hin|(Hx & raw & [<-|Hraw] & E)].
           ++ left. right. exact Hin.
           ++ left. left. symmetry. exact E.
           ++ right. split; [exact Hx|]. exists raw. split; assumption.
      * split.
        -- intros [Hin|(Hx & raw & Hraw & E)]; [left; exact Hin|].
           right. split; [exact Hx|]. exists raw. split; [right; exact Hraw | exact E].
        -- intros [Hin|(Hx & raw & [<-|Hraw] & E)]; [left; exact Hin | |].
           ++ exfalso. apply nonEmpty_true in Hx. rewrite <- E in Hx. congruence.
           ++ right. split; [exact Hx|]. exists raw. split; assumption.
Qed.

Lemma collect_spec (accounts : list Account) (set : JsSet.t) :
  let collected :=
    fold_left (fun set account => fold_left addTag (tagsOrEmpty account) set) accounts set in
  (NoDup set -> NoDup collected) /\
  (forall x, In x collected <-> In x set \/ offered accounts x).
Proof.
  cbv zeta. revert set. induction accounts as [|a accounts IH]; intros set; cbn [fold_left].
  - split; [intros Hs; exact Hs|]. intros x. split; [intros Hin; left; exact Hin|].
    intros [Hin|(_ & a & raw & [] & _)]. exact Hin.
  - destruct (IH (fold_left addTag (tagsOrEmpty a) set)) as [IHnd IHin].
    destruct (addTags_spec (tagsOrEmpty a) set) as [Hnd Hin]. split.
    + intros Hs. apply IHnd, Hnd, Hs.
    + intros x. rewrite IHin, Hin. unfold offered. split.
      * intros [[Hx|(Hx & raw & Hraw & E)]|(Hx & a' & raw & Ha' & Hraw & E)].
        -- left. exact Hx.
        -- right. split; [exact Hx|]. exists a, raw. split; [left; reflexivity|]. split; assumption.
        -- right. split; [exact Hx|]. exists a', raw. split; [right; exact Ha'|]. split; assumption.
      * intros [Hx|(Hx & a' & raw & [<-|Ha'] & Hraw & E)].
        -- left. left. exact Hx.
        -- left. right. split; [exact Hx|]. exists raw. split; assumption.
        -- right. split; [exact Hx|]. exists a', raw. split; [exact Ha'|]. split; assumption.
Qed.

(** X13: [availableTags] lists exactly the normalized, non-empty tags of the
    accounts, each of them once, and -- [localeCompare] being a strict
    order -- in ascending order of [localeCompare]: no tag of the list
    compares before a tag listed ahead of it. *)
Theorem availableTags_distinct_sorted (Horder : GroupingSpec.localeOrder B) :
  forall accounts : list Account,
    NoDup (availableTags B accounts) /\
    (forall tag, In tag (availableTags B accounts) <-> offered accounts tag) /\
    StronglySorted
      (fun a b => ltb (JsString.localeCompare B b a) (of_Z 0) = false)
      (availableTags B accounts).
Proof.
  intros accounts. unfold availableTags. fold addTag.
  destruct (collect_spec accounts []) as [Hnd Hin]. cbv zeta in Hnd, Hin.
  split; [|split].
  - eapply Permutation_NoDup; [apply sort_Permutation|]. apply Hnd. constructor.
  - intros tag. rewrite in_sort, Hin. split; [intros [[]|Ho]; exact Ho | intros Ho; right; exact Ho].
  - apply (@sort_sorted string (fun a b => JsString.localeCompare B a b)).
    destruct Horder as [Hirr Htr]. split; [exact Hirr | exact Htr].
Qed.

(* Deleting a tag *)

(** The tags left to an account once [target] is removed. *)
Definition without (target : string) (tags : list string) : list string :=
  filter (fun t => negb (String.eqb (normalizeTag B t) target)) tags.

(** The updates that deleting [target] asks for: one for every account
    that carries the tag, in the order of the accounts. *)
Definition updatesFor (target : string) (accounts : list Account) : list TagUpdate :=
  map (fun acc => (id acc, without target (tagsOrEmpty acc)))
      (filter (hasTag B target) accounts).

Lemma updateAffected_completed (target : string) (resolves : nat -> bool)
    (affected : list Account) :
  forall k : nat,
    (forall j, (j < List.length affected)%nat -> resolves (k + j)%nat = true) ->
    updateAffected B target resolves k affected
    = (map (fun acc => (id acc, without target (tagsOrEmpty acc))) affected, true).
Proof.
  induction affected as [|acc rest IH]; intros k Hall; cbn [updateAffected map]; [reflexivity|].
  pose proof (Hall 0%nat) as H0. rewrite Nat.add_0_r in H0.
  rewrite H0 by (cbn; lia).
  rewrite (IH (S k)); [reflexivity|].
  intros j Hj. replace (S k + j)%nat with (k + S j)%nat by lia.
  apply Hall. cbn. lia.
Qed.

Lemma updateAffected_rejected (target : string) (resolves : nat -> bool)
    (affected : list Account) :
  forall k n : nat,
    (n < List.length affected)%nat ->
    (forall j, (j < n)%nat -> resolves (k + j)%nat = true) ->
    resolves (k + n)%nat = false ->
    updateAffected B target resolves k affected
    = (firstn (S n) (map (fun acc => (id acc, without target (tagsOrEmpty acc))) affected),
       false).
Proof.
  induction affected as [|acc rest IH]; intros k n Hn Hbefore Hfail; cbn [List.length] in Hn;
    [lia|].
  cbn [updateAffected map]. destruct n as [|n].
  - rewrite Nat.add_0_r in Hfail. rewrite Hfail. reflexivity.
  - pose proof (Hbefore 0%nat) as H0. rewrite Nat.add_0_r in H0.
    rewrite H0 by lia.
    rewrite (IH (S k) n); [reflexivity | lia | |].
    + intros j Hj. replace (S k + j)%nat with (k + S j)%nat by lia. apply Hbefore. lia.
    + replace (S k + n)%nat with (k + S n)%nat by lia. exact Hfail.
Qed.

(** X14: Deleting a tag, asked for while no tag deletion is running and for a
    tag that does not normalize to the empty text.  The confirmation shows
    the normalized tag and the number of accounts that carry it.  When
    every update is fulfilled, exactly these accounts are updated, once
    each and in order, each with its tags minus those that normalize to
    the tag; the tag leaves the tag filter and the confirmation closes.
    When the update number [n] is rejected, the updates stop after it, the
    tag filter and the confirmation stay as they were, and the deletion
    can be confirmed again. *)
Theorem confirmDeleteTag_updates_tagged_accounts (accounts : list Account)
    (rawTag : string) (s : TagState)
    (Hidle : deletingTag s = false)
    (Htag : JsString.nonEmpty (normalizeTag B rawTag) = true) :
  let target := normalizeTag B rawTag in
  let asked := requestDeleteTag B accounts rawTag s in
  tagDeleteConfirm asked
  = Some {| tag := target; count := List.length (updatesFor target accounts) |} /\
  (forall call, In call (updatesFor target accounts) ->
                exists acc, In acc accounts /\ hasTag B target acc = true /\
                            fst call = id acc /\
                            forall t, In t (snd call) <->
                                      In t (tagsOrEmpty acc) /\ normalizeTag B t <> target) /\
  (forall resolves : nat -> bool,
      (forall k, (k < List.length (updatesFor target accounts))%nat -> resolves k = true) ->
      confirmDeleteTag B accounts resolves asked
      = ({| tagFilter := without target (tagFilter s);
            tagDeleteConfirm := None;
            deletingTag := false |},
         updatesFor target accounts)) /\
  (forall (resolves : nat -> bool) (n : nat),
      (n < List.length (updatesFor target accounts))%nat ->
      (forall k, (k < n)%nat -> resolves k = true) ->
      resolves n = false ->
      confirmDeleteTag B accounts resolves asked
      = (asked, firstn (S n) (updatesFor target accounts))).
Proof.
  cbv zeta. unfold requestDeleteTag. rewrite Htag. cbn [negb].
  unfold updatesFor. rewrite !length_map.
  split; [reflexivity|]. split; [|split].
  - intros call Hcall. apply in_map_iff in Hcall. destruct Hcall as (acc & <- & Hacc).
    apply filter_In in Hacc. destruct Hacc as [Hin Hhas].
    exists acc. split; [exact Hin|]. split; [exact Hhas|]. split; [reflexivity|].
    intros t0. cbn [snd]. unfold without. rewrite filter_In, negb_true_iff, String.eqb_neq.
    reflexivity.
  - intros resolves Hall. unfold confirmDeleteTag.
    cbn [tagDeleteConfirm deletingTag tag tagFilter]. rewrite Hidle.
    rewrite (@updateAffected_completed _ resolves _ 0%nat) by exact Hall.
    reflexivity.
  - intros resolves n Hn Hbefore Hfail. unfold confirmDeleteTag.
    cbn [tagDeleteConfirm deletingTag tag tagFilter]. rewrite Hidle.
    rewrite (@updateAffected_rejected _ resolves _ 0%nat n Hn Hbefore Hfail).
    rewrite <- Hidle. reflexivity.
Qed.

End Tags.

Definition sampleAccounts : list Account :=
  [ {| id := "1"; created_at := of_Z 10; tags := Val [" Work"; "home"] |};
    {| id := "2"; created_at := of_Z 20; tags := Null |};
    {| id := "3"; created_at := of_Z 30; tags := Val ["WORK"; "  "] |} ].

Lemma availableTags_distinct_sorted_sample :
  GroupingSpec.localeOrder JsString.ascii /\
  availableTags JsString.ascii sampleAccounts = ["home"; "work"] /\
  NoDup (availableTags JsString.ascii sampleAccounts).
Proof.
  split; [exact GroupingSpec.ascii_localeOrder|].
  split; [vm_compute; reflexivity|].
  exact (proj1 (@availableTags_distinct_sorted JsString.ascii
                  GroupingSpec.ascii_localeOrder sampleAccounts)).
Defined.

Definition sampleTagState : TagState :=
  {| tagFilter := ["work"; "home"]; tagDeleteConfirm := None; deletingTag := false |}.

Lemma confirmDeleteTag_updates_tagged_accounts_sample :
  deletingTag sampleTagState = false /\
  JsString.nonEmpty (normalizeTag JsString.ascii "Work ") = true /\
  confirmDeleteTag JsString.ascii sampleAccounts (fun _ => true)
    (requestDeleteTag JsString.ascii sampleAccounts "Work " sampleTagState)
  = ({| tagFilter := ["home"]; tagDeleteConfirm := None; deletingTag := false |},
     [("1", ["home"]); ("3", ["  "])]).
Proof.
  split; [reflexivity|]. split; [reflexivity|].
  pose proof (@confirmDeleteTag_updates_tagged_accounts JsString.ascii sampleAccounts
                "Work " sampleTagState eq_refl eq_refl) as (_ & _ & Hall & _).
  cbv zeta in Hall. rewrite (Hall (fun _ => true)) by reflexivity.
  vm_compute. reflexivity.
Defined.

End ProviderPageSpec.

(* ================================================================== *)
(** ** The OAuth flow: cancelling and the successful login *)
(* ================================================================== *)

Module OAuthCancelSpec.
Import Presentation OAuthFlow.
Local Open Scope string_scope.

(** The modal shows the oauth tab. *)
Definition onOauthTab (s : State) : bool :=
  showAddModal (ui s) && String.eqb (addTab (ui s)) "oauth".

Definition log (s : State) : list Call := calls (pending s).

Lemma prepareOauthUrl_shape (oauthService : bool) (s : State) :
  let s' := prepareOauthUrl oauthService s in
  (log s' = log s \/ log s' = (log s ++ [StartLogin])%list) /\
  onOauthTab s' = onOauthTab s /\
  oauthLoginIdRef (refs s') = oauthLoginIdRef (refs s).
Proof.
  cbv zeta. unfold prepareOauthUrl.
  destruct (negb oauthService); [repeat split; left; reflexivity|].
  destruct (negb (showAddModalRef (refs s)) || negb (String.eqb (addTabRef (refs s)) "oauth"));
    [repeat split; left; reflexivity|].
  destruct (oauthActiveRef (refs s)); [repeat split; left; reflexivity|].
  destruct (oauthCompletingRef (refs s)); [repeat split; left; reflexivity|].
  repeat split. right. reflexivity.
Qed.

Lemma autoPrepareEffect_shape (oauthService : bool) (s : State) :
  let s' := autoPrepareEffect oauthService s in
  (log s' = log s \/ log s' = (log s ++ [StartLogin])%list) /\
  onOauthTab s' = onOauthTab s /\
  oauthLoginIdRef (refs s') = oauthLoginIdRef (refs s).
Proof.
  cbv zeta. unfold autoPrepareEffect.
  match goal with |- context [if ?c then s else _] => destruct c end;
    [repeat split; left; reflexivity | apply prepareOauthUrl_shape].
Qed.

Lemma autoPrepareEffect_off_tab (oauthService : bool) (s : State) :
  onOauthTab s = false -> autoPrepareEffect oauthService s = s.
Proof.
  unfold onOauthTab, autoPrepareEffect. intros Hoff.
  destruct (showAddModal (ui s)); [|reflexivity].
  cbn [andb] in Hoff. rewrite Hoff. reflexivity.
Qed.

Lemma in_log_start (l : list Call) (id : string) :
  In (CancelLogin id) (l ++ [StartLogin]) -> In (CancelLogin id) l.
Proof.
  intros Hin. apply in_app_or in Hin. destruct Hin as [Hin|[E|[]]]; [exact Hin | discriminate E].
Qed.

Lemma in_log_complete (l : list Call) (id id' : string) :
  In (CancelLogin id) (l ++ [CompleteLogin id']) -> In (CancelLogin id) l.
Proof.
  intros Hin. apply in_app_or in Hin. destruct Hin as [Hin|[E|[]]]; [exact Hin | discriminate E].
Qed.

(** [cancelLogin] is called by the cancel effect alone, and only on leaving. *)
Lemma cancelLogin_only_on_leaving (oauthService : bool) (matchesTimeout : string -> bool)
    (s : State) (e : Event) (id : string) :
  In (CancelLogin id) (log (OAuthFlow.step oauthService matchesTimeout s e)) ->
  In (CancelLogin id) (log s) \/
  (e = Render /\ oauthService = true /\ onOauthTab s = false /\
   oauthLoginIdRef (refs s) = Some id /\ JsString.nonEmpty id = true).
Proof.
  destruct e; cbn [OAuthFlow.step].
  - intros Hin. left. exact Hin.
  - intros Hin. left. exact Hin.
  - intros Hin. left. exact Hin.
  - unfold handleRetryOauth. intros Hin. left.
    match type of Hin with
    | context [prepareOauthUrl _ ?x] =>
        destruct (prepareOauthUrl_shape oauthService x) as ([E|E] & _); cbv zeta in E;
          rewrite E in Hin
    end; [exact Hin | apply in_log_start in Hin; exact Hin].
  - unfold OAuthFlow.render.
    pose proof (autoPrepareEffect_shape oauthService (syncRefsEffect s)) as (Hlog & Htab & Hid).
    cbv zeta in Hlog, Htab, Hid.
    set (s2 := autoPrepareEffect oauthService (syncRefsEffect s)) in *.
    change (log (syncRefsEffect s)) with (log s) in Hlog.
    change (onOauthTab (syncRefsEffect s)) with (onOauthTab s) in Htab.
    change (oauthLoginIdRef (refs (syncRefsEffect s))) with (oauthLoginIdRef (refs s)) in Hid.
    assert (Hold : In (CancelLogin id) (log s2) -> In (CancelLogin id) (log s)).
    { destruct Hlog as [E|E]; rewrite E; [intros Hin; exact Hin | apply in_log_start]. }
    unfold cancelEffect. fold (onOauthTab s2). rewrite Htab, Hid.
    destruct (onOauthTab s) eqn:Hon; [intros Hin; left; apply Hold, Hin|].
    destruct (oauthLoginIdRef (refs s)) as [held|]; [|intros Hin; left; apply Hold, Hin].
    destruct (JsString.nonEmpty held) eqn:Hheld; cbn [negb];
      [|intros Hin; left; apply Hold, Hin].
    unfold log at 1. cbn [pending calls].
    destruct oauthService; [|intros Hin; left; apply Hold, Hin].
    intros Hin. apply in_app_or in Hin. destruct Hin as [Hin|[E|[]]].
    + left. apply Hold, Hin.
    + injection E as <-. right. repeat split; assumption.
  - destruct (hasNat p (startPending (pending s))); intros Hin; left; [|exact Hin].
    unfold log, startResolved in Hin. cbn [pending calls] in Hin.
    apply in_log_complete in Hin. exact Hin.
  - destruct (hasNat p (startPending (pending s))); intros Hin; left; exact Hin.
  - destruct (hasChain p (completePending (pending s))); intros Hin; left; exact Hin.
  - destruct (hasChain p (completePending (pending s))); intros Hin; left; exact Hin.
  - destruct (hasNat p (fetchPending (pending s))); intros Hin; left; exact Hin.
  - destruct (hasNat p (fetchPending (pending s))); intros Hin; left; exact Hin.
  - destruct (closeTimers (pending s)); intros Hin; left; exact Hin.
Qed.

Lemma render_nothing_held (oauthService : bool) (s : State) :
  onOauthTab s = false ->
  oauthLoginIdRef (refs s) = None ->
  showAddModalRef (refs s) = showAddModal (ui s) ->
  addTabRef (refs s) = addTab (ui s) ->
  OAuthFlow.render oauthService s = s.
Proof.
  intros Hoff Hid Hshown Htab. unfold OAuthFlow.render.
  rewrite (@autoPrepareEffect_off_tab oauthService (syncRefsEffect s)) by exact Hoff.
  unfold cancelEffect.
  change (showAddModal (ui (syncRefsEffect s)) && String.eqb (addTab (ui (syncRefsEffect s))) "oauth")
    with (onOauthTab s).
  change (oauthLoginIdRef (refs (syncRefsEffect s))) with (oauthLoginIdRef (refs s)).
  rewrite Hoff, Hid.
  destruct s as [u [shownRef tabRef active loginRef completing] q].
  cbn in Hshown, Htab. subst shownRef tabRef. reflexivity.
Qed.

Lemma render_on_leaving (oauthService : bool) (s : State) (id : string) :
  onOauthTab s = false ->
  oauthLoginIdRef (refs s) = Some id ->
  JsString.nonEmpty id = true ->
  let s' := OAuthFlow.render oauthService s in
  log s' = (if oauthService then log s ++ [CancelLogin id] else log s)%list /\
  oauthLoginIdRef (refs s') = None /\
  oauthCompletingRef (refs s') = false /\
  oauthUrl (ui s') = None /\
  OAuthFlow.render oauthService s' = s'.
Proof.
  intros Hoff Hid Hne. cbv zeta.
  remember (OAuthFlow.render oauthService s) as s' eqn:E.
  unfold OAuthFlow.render in E.
  rewrite (@autoPrepareEffect_off_tab oauthService (syncRefsEffect s)) in E by exact Hoff.
  unfold cancelEffect in E.
  change (showAddModal (ui (syncRefsEffect s)) && String.eqb (addTab (ui (syncRefsEffect s))) "oauth")
    with (onOauthTab s) in E.
  change (oauthLoginIdRef (refs (syncRefsEffect s))) with (oauthLoginIdRef (refs s)) in E.
  rewrite Hoff, Hid, Hne in E. cbn [negb] in E. subst s'.
  split; [destruct oauthService; reflexivity|].
  split; [reflexivity|]. split; [reflexivity|]. split; [reflexivity|].
  apply render_nothing_held; try reflexivity. exact Hoff.
Qed.

(** X15: The hook calls [cancelLogin] only from its cancel effect: no event
    adds a [cancelLogin] to the calls made unless it is a render with the
    modal closed or off the oauth tab, a login id held and an OAuth service
    configured.  Such a render cancels the held id with one call, clears
    the held id, the URL and the completion guard, and rendering again
    cancels nothing more. *)
Theorem cancelLogin_once_when_leaving :
  forall (oauthService : bool) (matchesTimeout : string -> bool) (s : State),
    (forall (e : Event) (id : string),
        In (CancelLogin id) (log (OAuthFlow.step oauthService matchesTimeout s e)) ->
        In (CancelLogin id) (log s) \/
        (e = Render /\ oauthService = true /\ onOauthTab s = false /\
         oauthLoginIdRef (refs s) = Some id /\ JsString.nonEmpty id = true)) /\
    (forall id : string,
        onOauthTab s = false ->
        oauthLoginIdRef (refs s) = Some id ->
        JsString.nonEmpty id = true ->
        let s' := OAuthFlow.render oauthService s in
        log s' = (if oauthService then log s ++ [CancelLogin id] else log s)%list /\
        oauthLoginIdRef (refs s') = None /\
        oauthCompletingRef (refs s') = false /\
        oauthUrl (ui s') = None /\
        OAuthFlow.render oauthService s' = s').
Proof.
  intros oauthService matchesTimeout s. split.
  - intros e id. apply cancelLogin_only_on_leaving.
  - intros id. apply render_on_leaving.
Qed.

(* ------------------------------------------------------------------ *)
(** *** A login that succeeds *)

Lemma run_app (oauthService : bool) (matchesTimeout : string -> bool) (s : State)
    (t1 t2 : list Event) :
  OAuthFlow.run oauthService matchesTimeout s (t1 ++ t2)
  = OAuthFlow.run oauthService matchesTimeout
      (OAuthFlow.run oauthService matchesTimeout s t1) t2.
Proof. unfold OAuthFlow.run. apply fold_left_app. Qed.

Lemma run_renders (oauthService : bool) (matchesTimeout : string -> bool) (s : State)
    (n : nat) :
  OAuthFlow.render oauthService s = s ->
  OAuthFlow.run oauthService matchesTimeout s (repeat Render n) = s.
Proof.
  intros Hfix. induction n as [|n IH]; [reflexivity|].
  cbn [repeat OAuthFlow.run fold_left OAuthFlow.step]. rewrite Hfix. exact IH.
Qed.

(** A login that succeeds, with any number of re-renders in between: the
    modal is opened on the oauth tab and rendered, [startLogin] answers,
    [completeLogin] is fulfilled, the accounts are fetched, and the timer
    closes the modal. *)
Definition successfulLogin (resp : OAuthStartResponse) (a b c d e : nat) : list Event :=
  ([OpenAddModal "oauth"] ++ repeat Render (S a) ++
   [StartResolved 0 resp] ++ repeat Render b ++
   [CompleteResolved 0] ++ repeat Render c ++
   [FetchResolved 0] ++ repeat Render d ++
   [CloseTimerFired] ++ repeat Render (S e))%list.

Lemma render_shown (oauthService : bool) (s : State) (url : string) :
  showAddModal (ui s) = true ->
  addTab (ui s) = "oauth" ->
  oauthUrl (ui s) = Some url ->
  JsString.nonEmpty url = true ->
  showAddModalRef (refs s) = true ->
  addTabRef (refs s) = "oauth" ->
  OAuthFlow.render oauthService s = s.
Proof.
  destruct s as [[shown tab status u perr cerr polling timedOut]
                   [shownRef tabRef active loginRef completing] q].
  cbn [ui refs showAddModal addTab oauthUrl showAddModalRef addTabRef].
  intros -> -> -> Hurl -> ->.
  unfold OAuthFlow.render, syncRefsEffect, autoPrepareEffect, cancelEffect.
  cbn [ui refs pending showAddModal addTab oauthUrl showAddModalRef addTabRef
       oauthActiveRef oauthLoginIdRef oauthCompletingRef negb orb andb
       String.eqb Ascii.eqb Bool.eqb].
  rewrite Hurl. reflexivity.
Qed.

(** What a render leaves as it is when the modal is closed or off the
    oauth tab. *)
Lemma render_off_tab (oauthService : bool) (s : State) :
  onOauthTab s = false ->
  let s' := OAuthFlow.render oauthService s in
  log s' = (match oauthLoginIdRef (refs s) with
            | Some id =>
                if JsString.nonEmpty id && oauthService
                then log s ++ [CancelLogin id] else log s
            | None => log s
            end)%list /\
  showAddModal (ui s') = showAddModal (ui s) /\
  addTab (ui s') = addTab (ui s) /\
  addStatus (ui s') = addStatus (ui s) /\
  (oauthUrl (ui s) = None -> oauthUrl (ui s') = None) /\
  (oauthPolling (ui s) = false -> oauthPolling (ui s') = false) /\
  startPending (pending s') = startPending (pending s) /\
  completePending (pending s') = completePending (pending s) /\
  fetchPending (pending s') = fetchPending (pending s) /\
  closeTimers (pending s') = closeTimers (pending s) /\
  OAuthFlow.render oauthService s' = s'.
Proof.
  intros Hoff. cbv zeta.
  remember (OAuthFlow.render oauthService s) as s' eqn:E.
  unfold OAuthFlow.render in E.
  rewrite (@autoPrepareEffect_off_tab oauthService (syncRefsEffect s)) in E by exact Hoff.
  unfold cancelEffect in E.
  change (showAddModal (ui (syncRefsEffect s)) && String.eqb (addTab (ui (syncRefsEffect s))) "oauth")
    with (onOauthTab s) in E.
  change (oauthLoginIdRef (refs (syncRefsEffect s))) with (oauthLoginIdRef (refs s)) in E.
  rewrite Hoff in E.
  destruct (oauthLoginIdRef (refs s)) as [id|] eqn:Hid.
  - destruct (JsString.nonEmpty id) eqn:Hne; cbn [negb andb] in *; subst s'.
    + repeat split; try reflexivity.
      apply render_nothing_held; try reflexivity. exact Hoff.
    + repeat split; try reflexivity; try (intros Hx; exact Hx).
      unfold OAuthFlow.render.
      rewrite (@autoPrepareEffect_off_tab oauthService (syncRefsEffect (syncRefsEffect s)))
        by exact Hoff.
      unfold cancelEffect.
      change (showAddModal (ui (syncRefsEffect (syncRefsEffect s)))
              && String.eqb (addTab (ui (syncRefsEffect (syncRefsEffect s)))) "oauth")
        with (onOauthTab s).
      change (oauthLoginIdRef (refs (syncRefsEffect (syncRefsEffect s))))
        with (oauthLoginIdRef (refs s)).
      rewrite Hoff, Hid, Hne. reflexivity.
  - subst s'. repeat split; try reflexivity; try (intros Hx; exact Hx).
    apply render_nothing_held; try reflexivity; assumption.
Qed.

(** X16: When [startLogin] answers a URL that can be shown, a login that
    succeeds makes three calls, however often the page re-renders:
    [startLogin], [completeLogin] with the login id of the answer, and --
    once the modal has closed itself -- [cancelLogin] with that same id
    (left out when the id is empty).  The modal ends closed, with the flow
    state cleared and no promise pending. *)
Theorem successful_login_ends_with_cancel (matchesTimeout : string -> bool)
    (resp : OAuthStartResponse) (Hurl : OAuthFlowSpec.presentable resp) :
  forall a b c d e : nat,
    let s := OAuthFlow.run true matchesTimeout init (successfulLogin resp a b c d e) in
    log s = ([StartLogin; CompleteLogin (loginId resp)]
             ++ (if JsString.nonEmpty (loginId resp)
                 then [CancelLogin (loginId resp)] else []))%list /\
    showAddModal (ui s) = false /\
    addStatus (ui s) = idle /\
    oauthUrl (ui s) = None /\
    oauthPolling (ui s) = false /\
    startPending (pending s) = [] /\
    completePending (pending s) = [] /\
    fetchPending (pending s) = [] /\
    closeTimers (pending s) = 0%nat.
Proof.
  intros a b c d e. cbv zeta. unfold successfulLogin.
  unfold OAuthFlowSpec.presentable in Hurl.
  rewrite run_app.
  change (OAuthFlow.run true matchesTimeout init [OpenAddModal "oauth"])
    with (openAddModal "oauth" init).
  rewrite run_app. cbn [repeat].
  change (OAuthFlow.run true matchesTimeout (openAddModal "oauth" init)
            (Render :: repeat Render a))
    with (OAuthFlow.run true matchesTimeout
            (OAuthFlow.render true (openAddModal "oauth" init)) (repeat Render a)).
  set (s1 := OAuthFlow.render true (openAddModal "oauth" init)).
  assert (H1 : OAuthFlow.render true s1 = s1) by reflexivity.
  rewrite (@run_renders true matchesTimeout s1 a H1).
  rewrite run_app.
  change (OAuthFlow.run true matchesTimeout s1 [StartResolved 0 resp])
    with (startResolved 0 resp s1).
  set (s2 := startResolved 0 resp s1).
  assert (H2 : OAuthFlow.render true s2 = s2).
  { apply (@render_shown true s2 (OAuthFlowSpec.urlOf resp)); try reflexivity. exact Hurl. }
  rewrite run_app, (@run_renders true matchesTimeout s2 b H2).
  rewrite run_app.
  change (OAuthFlow.run true matchesTimeout s2 [CompleteResolved 0])
    with (completeResolved 0 s2).
  set (s3 := completeResolved 0 s2).
  assert (H3 : OAuthFlow.render true s3 = s3).
  { apply (@render_shown true s3 (OAuthFlowSpec.urlOf resp)); try reflexivity. exact Hurl. }
  rewrite run_app, (@run_renders true matchesTimeout s3 c H3).
  rewrite run_app.
  change (OAuthFlow.run true matchesTimeout s3 [FetchResolved 0])
    with (fetchResolved 0 s3).
  set (s4 := fetchResolved 0 s3).
  assert (H4 : OAuthFlow.render true s4 = s4).
  { apply (@render_shown true s4 (OAuthFlowSpec.urlOf resp)); try reflexivity. exact Hurl. }
  rewrite run_app, (@run_renders true matchesTimeout s4 d H4).
  rewrite run_app.
  change (OAuthFlow.run true matchesTimeout s4 [CloseTimerFired])
    with (closeTimerFired s4).
  set (s5 := closeTimerFired s4).
  cbn [repeat].
  change (OAuthFlow.run true matchesTimeout s5 (Render :: repeat Render e))
    with (OAuthFlow.run true matchesTimeout (OAuthFlow.render true s5) (repeat Render e)).
  assert (Hoff : onOauthTab s5 = false) by reflexivity.
  destruct (@render_off_tab true s5 Hoff)
    as (Hlog & Hshown & _ & Hstatus & Hu & Hpolling & Hsp & Hcp & Hfp & Htimers & H6).
  rewrite (@run_renders true matchesTimeout (OAuthFlow.render true s5) e H6).
  rewrite Hlog, Hshown, Hstatus, Hsp, Hcp, Hfp, Htimers.
  rewrite (Hu eq_refl), (Hpolling eq_refl).
  change (oauthLoginIdRef (refs s5)) with (Some (loginId resp)).
  cbv beta iota. rewrite andb_true_r.
  split; [destruct (JsString.nonEmpty (loginId resp)); reflexivity|].
  repeat split; reflexivity.
Qed.

Lemma successful_login_ends_with_cancel_sample :
  OAuthFlowSpec.presentable (OAuthFlowSpec.sampleResponse "L1" "https://device.example/a") /\
  log (OAuthFlow.run true OAuthFlowSpec.neverTimeout init
         (successfulLogin (OAuthFlowSpec.sampleResponse "L1" "https://device.example/a")
                          0 2 1 0 3))
  = [StartLogin; CompleteLogin "L1"; CancelLogin "L1"].
Proof.
  split; [reflexivity|].
  apply (@successful_login_ends_with_cancel OAuthFlowSpec.neverTimeout
           (OAuthFlowSpec.sampleResponse "L1" "https://device.example/a") eq_refl
           0%nat 2%nat 1%nat 0%nat 3%nat).
Defined.

End OAuthCancelSpec.

(* ================================================================== *)
(** ** CodexAccountsPage: what the filters keep and how the list is ordered *)
(* ================================================================== *)

Module FilteredAccountsSpec.
Import Presentation CodexPage JsArrayFacts.
Local Open Scope string_scope.






Section Page.
Variable B : JsString.Builtins.
Variable t : Translate.
Variable H : Codex.Types.





(** The accounts that pass the filters, before they are sorted. *)
Definition kept (accounts : list Codex.Account) (searchQuery filterType : string)
    (tagFilter : list string) : list Codex.Account :=
  let result := accounts in
  let result :=
    if JsString.nonEmpty (JsString.trim B searchQuery) then
      filter (fun a =>
                JsString.includes
                  (JsString.toLowerCase B
                     (View.displayName (resolvePresentation B t H accounts a)))
                  (JsString.toLowerCase B searchQuery))
             result
    else result in
  let result :=
    if negb (String.eqb filterType "all")
    then filter (fun a => String.eqb (resolvePlanKey B t H accounts a) filterType) result
    else result in
  match tagFilter with
  | [] => result
  | _ =>
      filter (fun a =>
                existsb (setHas (map (normalizeTag B) tagFilter))
                        (map (normalizeTag B) (withDefault (Codex.tags a) [])))
             result
  end.

Lemma filteredAccounts_kept accounts searchQuery filterType tagFilter sortBy dir :
  filteredAccounts B t H accounts searchQuery filterType tagFilter sortBy dir
  = JsArray.sort (compareAccounts sortBy dir)
                 (kept accounts searchQuery filterType tagFilter).
Proof. reflexivity. Qed.




End Page.

End FilteredAccountsSpec.

(* ================================================================== *)
(** ** useExportJsonModal and ExportJsonModal: file names and masking *)
(* ================================================================== *)

Module ExportJson.

(** The functions of the export modal work on single characters, so a
    string is here the list of its UTF-16 code units. *)
Definition jsString : Type := list N.

(** The code units of a text of ASCII characters. *)
Definition units (s : string) : jsString := map N_of_ascii (list_ascii_of_string s).

Definition underscore : N := 95.
Definition star : N := 42.

(** [\s] and the characters that [trim] removes: the white space and the
    line terminators of the language. *)
Definition isWhiteSpace (c : N) : bool :=
  ((9 <=? c) && (c <=? 13) || (c =? 32) || (c =? 160) || (c =? 5760)
   || (8192 <=? c) && (c <=? 8202) || (c =? 8232) || (c =? 8233) || (c =? 8239)
   || (c =? 8287) || (c =? 12288) || (c =? 65279))%N.

(** The class of [INVALID_FILE_CHARS_REGEX]: the characters
    [< > : / \ | ? *], the double quote and the control characters up to
    [\x1F]. *)
Definition isInvalidFileChar (c : N) : bool :=
  ((c =? 60) || (c =? 62) || (c =? 58) || (c =? 34) || (c =? 47) || (c =? 92)
   || (c =? 124) || (c =? 63) || (c =? 42) || (c <=? 31))%N.

Definition isUnderscore (c : N) : bool := (c =? underscore)%N.

Fixpoint dropWhile (p : N -> bool) (s : jsString) : jsString :=
  match s with
  | [] => []
  | c :: rest => if p c then dropWhile p rest else s
  end.

Definition dropWhileEnd (p : N -> bool) (s : jsString) : jsString :=
  rev (dropWhile p (rev s)).

(** [s.trim()] *)
Definition trim (s : jsString) : jsString := dropWhileEnd isWhiteSpace (dropWhile isWhiteSpace s).

(** The one ASCII letter that a pattern letter matches besides itself
    under the flag [i]. *)
Definition lowerAscii (c : N) : N :=
  if ((65 <=? c) && (c <=? 90))%N then (c + 32)%N else c.

Definition eqbString (a b : jsString) : bool :=
  if list_eq_dec N.eq_dec a b then true else false.

(** [s.replace(/\.json$/i, '')] *)
Definition stripJsonExtension (s : jsString) : jsString :=
  let n := List.length s in
  if (5 <=? n)%nat && eqbString (map lowerAscii (skipn (n - 5) s)) (units ".json")
  then firstn (n - 5) s
  else s.

(** [s.replace(/[class]/g, '_')] *)
Definition replaceEach (p : N -> bool) (s : jsString) : jsString :=
  map (fun c => if p c then underscore else c) s.

(** [s.replace(/[class]+/g, '_')]: every maximal run of characters of the
    class becomes one underscore, written when the run ends. *)
Fixpoint replaceRuns (p : N -> bool) (s : jsString) : jsString :=
  match s with
  | [] => []
  | c :: rest =>
      if p c then
        match rest with
        | [] => [underscore]
        | c' :: _ => if p c' then replaceRuns p rest else underscore :: replaceRuns p rest
        end
      else c :: replaceRuns p rest
  end.

(** [s.replace(/^_+|_+$/g, '')] *)
Definition stripUnderscores (s : jsString) : jsString :=
  dropWhileEnd isUnderscore (dropWhile isUnderscore s).

Definition normalizeBaseName (raw : jsString) : jsString :=
  stripUnderscores
    (replaceRuns isUnderscore
       (replaceRuns isWhiteSpace
          (replaceEach isInvalidFileChar raw))).

Definition sanitizeFileBaseName (input : option jsString) (fallback : jsString) : jsString :=
  let raw := stripJsonExtension (trim (match input with Some s => s | None => [] end)) in
  let normalized := normalizeBaseName raw in
  match normalized with
  | [] => fallback
  | _ => normalized
  end.

(** [s.lastIndexOf(c)], [-1] when [c] does not occur. *)
Fixpoint lastIndexFrom (c : N) (s : jsString) (index found : Z) : Z :=
  match s with
  | [] => found
  | d :: rest => lastIndexFrom c rest (index + 1) (if (d =? c)%N then index else found)
  end.

Definition lastIndexOf (c : N) (s : jsString) : Z := lastIndexFrom c s 0 (-1).

Definition slash : N := 47.
Definition backslash : N := 92.

Definition getDirectoryPath (filePath : jsString) : jsString :=
  let slashIndex := Z.max (lastIndexOf slash filePath) (lastIndexOf backslash filePath) in
  if (slashIndex <=? 0)%Z then filePath
  else firstn (Z.to_nat slashIndex) filePath.

(* Masking *)

(** [value.slice(-k)] for [k] within the length. *)
Definition sliceLast (k : nat) (value : jsString) : jsString :=
  skipn (List.length value - k) value.

Definition maskStringValue (value : jsString) : jsString :=
  let length := List.length value in
  if (length <=? 0)%nat then value
  else if (length <=? 2)%nat then repeat star length
  else if (length =? 3)%nat then firstn 1 value ++ [star] ++ sliceLast 1 value
  else if (length =? 4)%nat then firstn 1 value ++ [star; star] ++ sliceLast 1 value
  else firstn 2 value ++ [star; star; star] ++ sliceLast 2 value.

(** What [JSON.parse] returns.  An object is the list of its members in
    the order of [Object.entries]. *)
Inductive json : Type :=
| JNull
| JBool (b : bool)
| JNumber (n : number)
| JString (s : jsString)
| JArray (items : list json)
| JObject (members : list (jsString * json)).

Definition protoKey : jsString := units "__proto__".

Fixpoint setProperty (result : list (jsString * json)) (key : jsString) (v : json)
    : list (jsString * json) :=
  match result with
  | [] => [(key, v)]
  | (k, x) :: rest =>
      if eqbString k key then (key, v) :: rest else (k, x) :: setProperty rest key v
  end.

(** [result[key] = v] on an object literal: the key [__proto__] reaches
    the setter of [Object.prototype] and adds no member. *)
Definition assignProperty (result : list (jsString * json)) (key : jsString) (v : json)
    : list (jsString * json) :=
  if eqbString key protoKey then result else setProperty result key v.

Fixpoint maskJsonValues (value : json) : json :=
  match value with
  | JString s => JString (maskStringValue s)
  | JArray items => JArray (map maskJsonValues items)
  | JObject members =>
      JObject
        ((fix loop (entries result : list (jsString * json)) : list (jsString * json) :=
            match entries with
            | [] => result
            | (key, item) :: rest =>
                loop rest (assignProperty result key (maskJsonValues item))
            end) members [])
  | _ => value
  end.

End ExportJson.

Module ExportJsonSpec.
Import ExportJson.

(* ------------------------------------------------------------------ *)
(** *** File names *)

Lemma dropWhile_suffix (p : N -> bool) (s : jsString) :
  exists t, s = (t ++ dropWhile p s)%list.
Proof.
  induction s as [|c s (t & IH)]; cbn [dropWhile]; [exists []; reflexivity|].
  destruct (p c).
  - exists (c :: t). cbn [app]. f_equal. exact IH.
  - exists []. reflexivity.
Qed.

Lemma dropWhileEnd_prefix (p : N -> bool) (s : jsString) :
  exists t, s = (dropWhileEnd p s ++ t)%list.
Proof.
  unfold dropWhileEnd. destruct (dropWhile_suffix p (rev s)) as (t & E).
  exists (rev t). rewrite <- rev_app_distr, <- E, rev_involutive. reflexivity.
Qed.

Lemma dropWhile_head (p : N -> bool) (s : jsString) (c : N) :
  hd_error (dropWhile p s) = Some c -> p c = false.
Proof.
  induction s as [|d s IH]; cbn [dropWhile]; [discriminate|].
  destruct (p d) eqn:E; [exact IH|]. cbn. intros H. injection H as <-. exact E.
Qed.

Lemma dropWhileEnd_last (p : N -> bool) (s : jsString) (c : N) :
  hd_error (rev (dropWhileEnd p s)) = Some c -> p c = false.
Proof.
  unfold dropWhileEnd. rewrite rev_involutive. apply dropWhile_head.
Qed.

(** No two underscores in a row. *)
Fixpoint noDouble (s : jsString) : Prop :=
  match s with
  | a :: (b :: _) as rest => ~ (a = underscore /\ b = underscore) /\ noDouble rest
  | _ => True
  end.

Lemma noDouble_app_r (a b : jsString) : noDouble (a ++ b) -> noDouble b.
Proof.
  induction a as [|x a IH]; cbn [app]; [intros H; exact H|].
  intros H. apply IH. destruct (a ++ b)%list; [exact I | exact (proj2 H)].
Qed.

Lemma noDouble_app_l (a b : jsString) : noDouble (a ++ b) -> noDouble a.
Proof.
  induction a as [|x a IH]; cbn [app]; [intros _; exact I|].
  destruct a as [|y a]; [intros _; exact I|].
  cbn [app noDouble]. intros [H1 H2]. split; [exact H1 | apply IH; exact H2].
Qed.

Lemma replaceRuns_Forall (Q : N -> Prop) (p : N -> bool) (s : jsString) :
  Q underscore -> Forall Q s -> Forall Q (replaceRuns p s).
Proof.
  intros Hu. induction s as [|c s IH]; intros Hs; [constructor|].
  inversion Hs as [|? ? Hc Hrest]; subst. specialize (IH Hrest).
  cbn [replaceRuns]. destruct (p c).
  - destruct s as [|c' s']; [repeat constructor; exact Hu|].
    destruct (p c'); [exact IH | constructor; [exact Hu | exact IH]].
  - constructor; assumption.
Qed.

Lemma replaceRuns_outside (p : N -> bool) (s : jsString) :
  p underscore = false -> Forall (fun c => p c = false) (replaceRuns p s).
Proof.
  intros Hu. induction s as [|c s IH]; [constructor|].
  cbn [replaceRuns]. destruct (p c) eqn:Hc.
  - destruct s as [|c' s']; [repeat constructor; exact Hu|].
    destruct (p c'); [exact IH | constructor; [exact Hu | exact IH]].
  - constructor; assumption.
Qed.

Lemma isUnderscore_true (c : N) : isUnderscore c = true <-> c = underscore.
Proof. unfold isUnderscore. apply N.eqb_eq. Qed.

Lemma replaceRuns_noDouble (s : jsString) : noDouble (replaceRuns isUnderscore s).
Proof.
  induction s as [|c s IH]; [exact I|].
  cbn [replaceRuns]. destruct (isUnderscore c) eqn:Hc.
  - destruct s as [|c' s']; [exact I|].
    destruct (isUnderscore c') eqn:Hc'; [exact IH|].
    revert IH. cbn [replaceRuns]. rewrite Hc'. intros IH.
    cbn [noDouble]. split; [|exact IH].
    intros [_ E]. apply isUnderscore_true in E. congruence.
  - destruct (replaceRuns isUnderscore s) as [|b rest] eqn:E; [exact I|].
    cbn [noDouble]. split; [|exact IH].
    intros [E1 _]. apply isUnderscore_true in E1. congruence.
Qed.

(** A character that may stand in a file name. *)
Definition plain (c : N) : Prop :=
  isInvalidFileChar c = false /\ isWhiteSpace c = false.

(** A clean base name: not empty, made of plain characters, without two
    underscores in a row and without an underscore at either end. *)
Definition clean (name : jsString) : Prop :=
  name <> [] /\
  Forall plain name /\
  noDouble name /\
  hd_error name <> Some underscore /\
  hd_error (rev name) <> Some underscore.

Lemma replaceEach_valid (raw : jsString) :
  Forall (fun c => isInvalidFileChar c = false) (replaceEach isInvalidFileChar raw).
Proof.
  unfold replaceEach. apply Forall_map, Forall_forall. intros c _.
  destruct (isInvalidFileChar c) eqn:E; [reflexivity | exact E].
Qed.

Lemma Forall_and_intro {A : Type} (P Q : A -> Prop) (l : list A) :
  Forall P l -> Forall Q l -> Forall (fun x => P x /\ Q x) l.
Proof.
  rewrite !Forall_forall. intros HP HQ x Hx. split; [apply HP | apply HQ]; exact Hx.
Qed.

Lemma normalizeBaseName_clean (raw : jsString) :
  normalizeBaseName raw = [] \/ clean (normalizeBaseName raw).
Proof.
  unfold normalizeBaseName.
  set (s1 := replaceEach isInvalidFileChar raw).
  set (s2 := replaceRuns isWhiteSpace s1).
  set (s3 := replaceRuns isUnderscore s2).
  assert (H3 : Forall plain s3 /\ noDouble s3).
  { split; [|apply replaceRuns_noDouble].
    apply replaceRuns_Forall; [split; reflexivity|].
    apply Forall_and_intro.
    - apply replaceRuns_Forall; [reflexivity | apply replaceEach_valid].
    - apply replaceRuns_outside. reflexivity. }
  destruct H3 as [Hplain Hdouble].
  unfold stripUnderscores.
  destruct (dropWhile_suffix isUnderscore s3) as (t1 & E1).
  set (s4 := dropWhile isUnderscore s3) in *.
  destruct (dropWhileEnd_prefix isUnderscore s4) as (t2 & E2).
  pose proof (@dropWhileEnd_last isUnderscore s4 underscore) as Hend.
  destruct (dropWhileEnd isUnderscore s4) as [|c name] eqn:E; [left; reflexivity|].
  right.
  assert (Hplain4 : Forall plain s4).
  { rewrite E1 in Hplain. apply Forall_app in Hplain. exact (proj2 Hplain). }
  assert (Hdouble4 : noDouble s4).
  { rewrite E1 in Hdouble. apply noDouble_app_r in Hdouble. exact Hdouble. }
  split; [discriminate|]. split; [|split; [|split]].
  - rewrite E2 in Hplain4. apply Forall_app in Hplain4. exact (proj1 Hplain4).
  - rewrite E2 in Hdouble4. apply noDouble_app_l in Hdouble4. exact Hdouble4.
  - cbn [hd_error]. intros Hc. injection Hc as ->.
    assert (Hhead : hd_error s4 = Some underscore) by (rewrite E2; reflexivity).
    apply dropWhile_head in Hhead. discriminate Hhead.
  - intros Hlast. apply Hend in Hlast. discriminate Hlast.
Qed.

(** X18: [sanitizeFileBaseName] answers a clean base name or the fallback:
    a name that is not empty, holds none of the characters
    [< > : / \ | ? *], no double quote, no control character and no white
    space, has no
    two underscores in a row and no underscore at either end.  The
    fallback is answered as it is given, when nothing of the input remains:
    for a missing input, and for one made of invalid characters only.  A
    trailing [.json] in any letter case is taken off once. *)
Theorem sanitizeFileBaseName_clean_or_fallback :
  (forall (input : option jsString) (fallback : jsString),
      let name := sanitizeFileBaseName input fallback in
      clean name \/ name = fallback) /\
  (forall fallback : jsString, sanitizeFileBaseName None fallback = fallback) /\
  (forall fallback : jsString,
      sanitizeFileBaseName (Some (units " ?*<>|. JSON ")) fallback = units "._JSON") /\
  sanitizeFileBaseName (Some (units "  my   file: v1/2 .Json  ")) (units "export")
  = units "my_file_v1_2" /\
  sanitizeFileBaseName (Some (units "??__??")) (units "export") = units "export" /\
  sanitizeFileBaseName (Some (units "a.json.JSON")) (units "export") = units "a.json".
Proof.
  split; [|split; [|split; [|split; [|split]]]].
  - intros input fallback. cbv zeta. unfold sanitizeFileBaseName.
    set (raw := stripJsonExtension _).
    destruct (normalizeBaseName_clean raw) as [E|Hclean].
    + rewrite E. right. reflexivity.
    + destruct (normalizeBaseName raw) as [|c rest] eqn:E.
      * right. reflexivity.
      * left. exact Hclean.
  - intros fallback. reflexivity.
  - intros fallback. vm_compute. reflexivity.
  - vm_compute. reflexivity.
  - vm_compute. reflexivity.
  - vm_compute. reflexivity.
Qed.

(* ------------------------------------------------------------------ *)
(** *** The directory of a saved file *)

Lemma lastIndexFrom_spec (c : N) (s : jsString) :
  forall index found : Z,
    (~ In c s /\ lastIndexFrom c s index found = found) \/
    (exists k : nat,
        lastIndexFrom c s index found = (index + Z.of_nat k)%Z /\
        nth_error s k = Some c /\
        ~ In c (skipn (S k) s)).
Proof.
  induction s as [|d rest IH]; intros index found; cbn [lastIndexFrom].
  - left. split; [intros [] | reflexivity].
  - destruct (IH (index + 1)%Z (if (d =? c)%N then index else found))
      as [[Hnot Hr]|(k & Hr & Hk & Hafter)].
    + destruct (d =? c)%N eqn:E.
      * apply N.eqb_eq in E. subst d. right. exists 0%nat.
        split; [rewrite Hr; lia|]. split; [reflexivity | exact Hnot].
      * apply N.eqb_neq in E. left. split; [|exact Hr].
        intros [Hd|Hin]; [congruence | contradiction].
    + right. exists (S k). split; [rewrite Hr; lia|]. split; assumption.
Qed.

Lemma split_at {A : Type} (l : list A) (k : nat) (x : A) :
  nth_error l k = Some x -> l = (firstn k l ++ x :: skipn (S k) l)%list.
Proof.
  revert k. induction l as [|y l IH]; intros [|k]; cbn [nth_error firstn skipn app];
    try discriminate.
  - intros E. injection E as ->. reflexivity.
  - intros E. f_equal. apply IH. exact E.
Qed.

Lemma In_skipped {A : Type} (l : list A) (n : nat) (x : A) :
  In x (skipn n l) -> In x l.
Proof.
  intros Hin. rewrite <- (firstn_skipn n l). apply in_or_app. right. exact Hin.
Qed.

Lemma In_skipn_le {A : Type} (l : list A) (i j : nat) (x : A) :
  (i <= j)%nat -> In x (skipn j l) -> In x (skipn i l).
Proof.
  intros Hij Hin. replace j with ((j - i) + i)%nat in Hin by lia.
  rewrite <- skipn_skipn in Hin. apply In_skipped in Hin. exact Hin.
Qed.

Lemma In_skipn_nth {A : Type} (l : list A) (i j : nat) (x : A) :
  (i <= j)%nat -> nth_error l j = Some x -> In x (skipn i l).
Proof.
  intros Hij Hj. rewrite <- (firstn_skipn i l) in Hj.
  rewrite nth_error_app2 in Hj by (rewrite length_firstn; lia).
  apply nth_error_In in Hj. exact Hj.
Qed.

Definition isSeparator (c : N) : Prop := c = slash \/ c = backslash.

(** Where a character occurs last, or that it does not occur. *)
Definition lastAt (c : N) (s : jsString) (i : Z) : Prop :=
  (~ In c s /\ i = (-1)%Z) \/
  (exists k : nat, i = Z.of_nat k /\ nth_error s k = Some c /\ ~ In c (skipn (S k) s)).

Lemma lastIndexOf_lastAt (c : N) (s : jsString) : lastAt c s (lastIndexOf c s).
Proof.
  unfold lastAt, lastIndexOf.
  destruct (lastIndexFrom_spec c s 0 (-1)) as [[Hnot Hr]|(k & Hr & Hk & Hafter)].
  - left. split; assumption.
  - right. exists k. split; [rewrite Hr; lia|]. split; assumption.
Qed.

Lemma none_after (c : N) (s : jsString) (i : Z) (k : nat) :
  lastAt c s i -> (i <= Z.of_nat k)%Z -> ~ In c (skipn (S k) s).
Proof.
  intros [[Hnot _]|(j & -> & _ & Hafter)] Hle Hin.
  - apply Hnot. apply In_skipped in Hin. exact Hin.
  - apply Hafter. apply (@In_skipn_le _ s (S j) (S k)); [lia | exact Hin].
Qed.

Lemma parent_of_last (filePath : jsString) (sep : N) (k : nat) (a b : Z) :
  isSeparator sep ->
  nth_error filePath k = Some sep ->
  (0 < k)%nat ->
  lastAt slash filePath a -> lastAt backslash filePath b ->
  (a <= Z.of_nat k)%Z -> (b <= Z.of_nat k)%Z ->
  exists name,
    filePath = (firstn k filePath ++ sep :: name)%list /\
    firstn k filePath <> [] /\
    Forall (fun c => ~ isSeparator c) name.
Proof.
  intros Hsep Hk Hpos Ha Hb Hak Hbk.
  exists (skipn (S k) filePath). split; [apply split_at; exact Hk|]. split.
  - destruct filePath as [|c rest]; [destruct k; discriminate Hk|].
    destruct k; [lia | discriminate].
  - apply Forall_forall. intros c Hin [->| ->].
    + exact (@none_after _ _ _ k Ha Hak Hin).
    + exact (@none_after _ _ _ k Hb Hbk Hin).
Qed.

(** X19: [getDirectoryPath] cuts the path at its last separator, slash or
    backslash: the path is the directory, that separator and a file name
    without separator, and the directory is not empty.  When the path has
    no separator beyond its first character -- a bare file name, or a file
    directly under the root such as [/export.json] -- the path itself is
    answered. *)
Theorem getDirectoryPath_cuts_at_last_separator :
  forall filePath : jsString,
    let dir := getDirectoryPath filePath in
    (dir = filePath /\
     forall (k : nat) (c : N), nth_error filePath (S k) = Some c -> ~ isSeparator c) \/
    (exists sep name,
        isSeparator sep /\
        filePath = (dir ++ sep :: name)%list /\
        dir <> [] /\
        Forall (fun c => ~ isSeparator c) name).
Proof.
  intros filePath. cbv zeta. unfold getDirectoryPath.
  pose proof (lastIndexOf_lastAt slash filePath) as Ha.
  pose proof (lastIndexOf_lastAt backslash filePath) as Hb.
  set (a := lastIndexOf slash filePath) in *.
  set (b := lastIndexOf backslash filePath) in *.
  destruct (Z.max a b <=? 0)%Z eqn:Hmax.
  - apply Z.leb_le in Hmax. left. split; [reflexivity|].
    intros k c Hk [->| ->].
    + apply (@none_after slash filePath a 0%nat Ha); [lia|].
      apply (@In_skipn_nth _ filePath 1 (S k)); [lia | exact Hk].
    + apply (@none_after backslash filePath b 0%nat Hb); [lia|].
      apply (@In_skipn_nth _ filePath 1 (S k)); [lia | exact Hk].
  - apply Z.leb_gt in Hmax. right.
    destruct (Z.max_spec a b) as [[Hlt Hm]|[Hle Hm]]; rewrite Hm in *.
    + destruct Hb as [[_ Hb]|(k & Hbk & Hk & Hafter)]; [lia|].
      assert (Hb' : lastAt backslash filePath b).
      { right. exists k. split; [exact Hbk|]. split; assumption. }
      rewrite Hbk, Nat2Z.id.
      destruct (@parent_of_last filePath backslash k a b) as (name & E & Hne & Hname);
        try assumption; try lia; [right; reflexivity|].
      exists backslash, name. split; [right; reflexivity|]. split; [exact E|].
      split; assumption.
    + destruct Ha as [[_ Ha]|(k & Hak & Hk & Hafter)]; [lia|].
      assert (Ha' : lastAt slash filePath a).
      { right. exists k. split; [exact Hak|]. split; assumption. }
      rewrite Hak, Nat2Z.id.
      destruct (@parent_of_last filePath slash k a b) as (name & E & Hne & Hname);
        try assumption; try lia; [left; reflexivity|].
      exists slash, name. split; [left; reflexivity|]. split; [exact E|].
      split; assumption.
Qed.

(* ------------------------------------------------------------------ *)
(** *** Masking a string *)

Lemma length_sliceLast (k : nat) (value : jsString) :
  (k <= List.length value)%nat -> List.length (sliceLast k value) = k.
Proof. intros Hk. unfold sliceLast. rewrite length_skipn. lia. Qed.

Lemma maskStringValue_long (value : jsString) :
  (5 <= List.length value)%nat ->
  maskStringValue value
  = (firstn 2 value ++ [star; star; star] ++ sliceLast 2 value)%list.
Proof.
  intros Hlen. unfold maskStringValue.
  destruct value as [|a [|b [|c [|d [|e rest]]]]]; cbn [List.length] in Hlen; try lia.
  reflexivity.
Qed.

Lemma sliceLast_two (value : jsString) :
  (2 <= List.length value)%nat -> exists y z, sliceLast 2 value = [y; z].
Proof.
  intros Hlen. pose proof (@length_sliceLast 2 value Hlen) as H2.
  destruct (sliceLast 2 value) as [|y [|z [|w rest]]]; cbn in H2; try lia.
  exists y, z. reflexivity.
Qed.

Lemma maskStringValue_idempotent (value : jsString) :
  maskStringValue (maskStringValue value) = maskStringValue value.
Proof.
  destruct value as [|a [|b [|c [|d [|e rest]]]]]; try reflexivity.
  set (v := a :: b :: c :: d :: e :: rest).
  assert (Hv : (5 <= List.length v)%nat) by (cbn; lia).
  rewrite (@maskStringValue_long v Hv).
  destruct (@sliceLast_two v) as (y & z & E); [lia|].
  rewrite E. reflexivity.
Qed.

(** X20: [maskStringValue] keeps the length of a value of up to four
    characters and gives seven characters for every longer one, so the
    length of a long value does not show; of a long value it shows the
    first two and the last two characters and nothing else -- two long
    values that agree on these are masked alike; a value of one or two
    characters is all stars; and masking a masked value changes nothing. *)
Theorem maskStringValue_hides_middle :
  (forall value : jsString,
      List.length (maskStringValue value)
      = if (List.length value <=? 4)%nat then List.length value else 7%nat) /\
  (forall value : jsString,
      (List.length value <= 2)%nat ->
      maskStringValue value = repeat star (List.length value)) /\
  (forall v w : jsString,
      (5 <= List.length v)%nat -> (5 <= List.length w)%nat ->
      firstn 2 v = firstn 2 w -> sliceLast 2 v = sliceLast 2 w ->
      maskStringValue v = maskStringValue w) /\
  (forall value : jsString,
      maskStringValue (maskStringValue value) = maskStringValue value).
Proof.
  split; [|split; [|split]].
  - intros value.
    destruct value as [|a [|b [|c [|d [|e rest]]]]]; try reflexivity.
    rewrite maskStringValue_long by (cbn; lia).
    rewrite !length_app, length_firstn, length_sliceLast by (cbn; lia).
    cbn. reflexivity.
  - intros value Hlen.
    destruct value as [|a [|b [|c rest]]]; cbn [List.length] in Hlen; try lia; reflexivity.
  - intros v w Hv Hw Hfirst Hlast. rewrite !maskStringValue_long by assumption.
    rewrite Hfirst, Hlast. reflexivity.
  - exact maskStringValue_idempotent.
Qed.

(* ------------------------------------------------------------------ *)
(** *** Masking a JSON value *)

Section JsonInduction.
Variable P : json -> Prop.
Hypothesis HNull : P JNull.
Hypothesis HBool : forall b, P (JBool b).
Hypothesis HNumber : forall n, P (JNumber n).
Hypothesis HString : forall s, P (JString s).
Hypothesis HArray : forall items, Forall P items -> P (JArray items).
Hypothesis HObject :
  forall members, Forall (fun kv => P (snd kv)) members -> P (JObject members).

Fixpoint json_induction (j : json) : P j :=
  match j with
  | JNull => HNull
  | JBool b => HBool b
  | JNumber n => HNumber n
  | JString s => HString s
  | JArray items =>
      HArray
        ((fix all (l : list json) : Forall P l :=
            match l with
            | [] => Forall_nil P
            | x :: rest => Forall_cons x (json_induction x) (all rest)
            end) items)
  | JObject members =>
      HObject
        ((fix all (l : list (jsString * json)) : Forall (fun kv => P (snd kv)) l :=
            match l with
            | [] => Forall_nil _
            | kv :: rest => Forall_cons kv (json_induction (snd kv)) (all rest)
            end) members)
  end.

End JsonInduction.

(** The loop over the members of an object. *)
Definition maskMembers (members result : list (jsString * json)) : list (jsString * json) :=
  fold_left (fun result kv => assignProperty result (fst kv) (maskJsonValues (snd kv)))
            members result.

Lemma maskJsonValues_object (members : list (jsString * json)) :
  maskJsonValues (JObject members) = JObject (maskMembers members []).
Proof.
  cbn [maskJsonValues]. f_equal. unfold maskMembers. generalize (@nil (jsString * json)).
  induction members as [|[k v] rest IH]; intros acc; cbn [fold_left fst snd]; [reflexivity|].
  apply IH.
Qed.

Lemma eqbString_true (a b : jsString) : eqbString a b = true <-> a = b.
Proof.
  unfold eqbString. destruct (list_eq_dec N.eq_dec a b); split; congruence.
Qed.

Lemma eqbString_false (a b : jsString) : eqbString a b = false <-> a <> b.
Proof.
  unfold eqbString. destruct (list_eq_dec N.eq_dec a b); split; congruence.
Qed.

Lemma setProperty_keys (result : list (jsString * json)) (key k : jsString) (v : json) :
  In k (map fst (setProperty result key v)) <-> k = key \/ In k (map fst result).
Proof.
  induction result as [|[k0 x] rest IH]; cbn [setProperty map fst In].
  - split; [intros [<-|[]]; left; reflexivity | intros [->|[]]; left; reflexivity].
  - destruct (eqbString k0 key) eqn:E; cbn [map fst In].
    + apply eqbString_true in E. subst k0. intuition.
    + rewrite IH. intuition.
Qed.

Lemma setProperty_NoDup (result : list (jsString * json)) (key : jsString) (v : json) :
  NoDup (map fst result) -> NoDup (map fst (setProperty result key v)).
Proof.
  induction result as [|[k0 x] rest IH]; cbn [setProperty map fst]; intros Hnd.
  - constructor; [intros [] | constructor].
  - inversion Hnd as [|? ? Hk0 Hrest]; subst.
    destruct (eqbString k0 key) eqn:E; cbn [map fst].
    + apply eqbString_true in E. subst k0. constructor; assumption.
    + apply eqbString_false in E. constructor; [|apply IH; exact Hrest].
      rewrite setProperty_keys. intros [Heq|Hin]; [congruence | contradiction].
Qed.

Lemma setProperty_values (result : list (jsString * json)) (key : jsString) (v : json)
    (kv : jsString * json) :
  In kv (setProperty result key v) -> kv = (key, v) \/ In kv result.
Proof.
  induction result as [|[k0 x] rest IH]; cbn [setProperty In].
  - intros [<-|[]]. left. reflexivity.
  - destruct (eqbString k0 key); cbn [In].
    + intros [<-|Hin]; [left; reflexivity | right; right; exact Hin].
    + intros [<-|Hin]; [right; left; reflexivity|].
      destruct (IH Hin) as [->|Hin']; [left; reflexivity | right; right; exact Hin'].
Qed.

Lemma setProperty_fresh (result : list (jsString * json)) (key : jsString) (v : json) :
  ~ In key (map fst result) -> setProperty result key v = (result ++ [(key, v)])%list.
Proof.
  induction result as [|[k0 x] rest IH]; cbn [setProperty map fst In app]; intros Hfresh;
    [reflexivity|].
  destruct (eqbString k0 key) eqn:E.
  - apply eqbString_true in E. exfalso. apply Hfresh. left. exact E.
  - rewrite IH; [reflexivity|]. intros Hin. apply Hfresh. right. exact Hin.
Qed.

(** The members are distinct and none of them is [__proto__]. *)
Definition tidy (members : list (jsString * json)) : Prop :=
  NoDup (map fst members) /\ ~ In protoKey (map fst members).

Lemma maskMembers_tidy (members result : list (jsString * json)) :
  tidy result -> tidy (maskMembers members result).
Proof.
  revert result. induction members as [|[k v] rest IH]; intros result Ht;
    cbn [maskMembers fold_left fst snd]; [exact Ht|].
  apply IH. unfold assignProperty.
  destruct (eqbString k protoKey) eqn:E; [exact Ht|].
  apply eqbString_false in E. destruct Ht as [Hnd Hproto]. split.
  - apply setProperty_NoDup. exact Hnd.
  - rewrite setProperty_keys. intros [Heq|Hin]; [congruence | contradiction].
Qed.

Lemma maskMembers_values (Q : json -> Prop) (members result : list (jsString * json)) :
  Forall (fun kv => Q (maskJsonValues (snd kv))) members ->
  Forall (fun kv => Q (snd kv)) result ->
  Forall (fun kv => Q (snd kv)) (maskMembers members result).
Proof.
  revert result. induction members as [|[k v] rest IH]; intros result Hm Hr;
    cbn [maskMembers fold_left fst snd]; [exact Hr|].
  inversion Hm as [|? ? Hv Hrest]; subst. cbn [snd] in Hv.
  apply IH; [exact Hrest|]. unfold assignProperty.
  destruct (eqbString k protoKey); [exact Hr|].
  rewrite Forall_forall in *. intros kv Hin.
  apply setProperty_values in Hin. destruct Hin as [->|Hin]; [exact Hv | apply Hr, Hin].
Qed.

Lemma maskMembers_distinct (members result : list (jsString * json)) :
  NoDup (map fst (result ++ members)) ->
  ~ In protoKey (map fst members) ->
  maskMembers members result
  = (result ++ map (fun kv => (fst kv, maskJsonValues (snd kv))) members)%list.
Proof.
  revert result. induction members as [|[k v] rest IH]; intros result Hnd Hproto;
    cbn [maskMembers fold_left fst snd map]; [rewrite app_nil_r; reflexivity|].
  unfold assignProperty.
  assert (Hk : eqbString k protoKey = false).
  { apply eqbString_false. intros E. apply Hproto. left. exact E. }
  rewrite Hk.
  assert (Hfresh : ~ In k (map fst result)).
  { rewrite map_app in Hnd. cbn [map fst] in Hnd. apply NoDup_remove_2 in Hnd.
    intros Hin. apply Hnd. apply in_or_app. left. exact Hin. }
  rewrite setProperty_fresh by exact Hfresh.
  fold (maskMembers rest (result ++ [(k, maskJsonValues v)])).
  rewrite IH.
  - rewrite <- app_assoc. reflexivity.
  - rewrite map_app in Hnd. cbn [map fst] in Hnd.
    rewrite !map_app. cbn [map fst]. rewrite <- app_assoc. exact Hnd.
  - intros Hin. apply Hproto. right. exact Hin.
Qed.

(** The string values of a JSON value, at any depth. *)
Fixpoint strings (j : json) : list jsString :=
  match j with
  | JString s => [s]
  | JArray items => flat_map strings items
  | JObject members =>
      (fix all (l : list (jsString * json)) : list jsString :=
         match l with
         | [] => []
         | kv :: rest => (strings (snd kv) ++ all rest)%list
         end) members
  | _ => []
  end.

Lemma strings_object (members : list (jsString * json)) :
  strings (JObject members) = flat_map (fun kv => strings (snd kv)) members.
Proof.
  cbn [strings]. induction members as [|kv rest IH]; [reflexivity|].
  cbn [flat_map]. rewrite IH. reflexivity.
Qed.

Definition masked (s : jsString) : Prop := exists value, s = maskStringValue value.

Lemma Forall_flat_map {A B : Type} (Q : B -> Prop) (f : A -> list B) (l : list A) :
  Forall (fun x => Forall Q (f x)) l -> Forall Q (flat_map f l).
Proof.
  induction 1 as [|x l Hx _ IH]; cbn [flat_map]; [constructor|].
  apply Forall_app. split; assumption.
Qed.

Lemma maskJsonValues_idempotent (j : json) :
  maskJsonValues (maskJsonValues j) = maskJsonValues j.
Proof.
  induction j as [| | |s|items IH|members IH] using json_induction; try reflexivity.
  - cbn [maskJsonValues]. f_equal. apply maskStringValue_idempotent.
  - cbn [maskJsonValues]. f_equal. rewrite map_map.
    apply map_ext_in. intros x Hx. rewrite Forall_forall in IH. apply IH, Hx.
  - rewrite !maskJsonValues_object. f_equal.
    destruct (@maskMembers_tidy members [] (conj (NoDup_nil _) (fun H => H)))
      as [Hnd Hproto].
    rewrite maskMembers_distinct by assumption. cbn [app].
    assert (Hfix : Forall (fun kv => maskJsonValues (snd kv) = snd kv)
                     (maskMembers members [])).
    { apply (@maskMembers_values (fun x => maskJsonValues x = x)); [exact IH | constructor]. }
    rewrite Forall_forall in Hfix.
    rewrite <- (map_id (maskMembers members [])) at 2.
    apply map_ext_in. intros [k x] Hin. cbn [fst snd]. f_equal. apply (Hfix _ Hin).
Qed.

Lemma maskJsonValues_strings (j : json) : Forall masked (strings (maskJsonValues j)).
Proof.
  induction j as [| | |s|items IH|members IH] using json_induction;
    try (cbn; constructor).
  - exists s. reflexivity.
  - constructor.
  - cbn [maskJsonValues strings]. apply Forall_flat_map.
    apply Forall_map. exact IH.
  - rewrite maskJsonValues_object, strings_object. apply Forall_flat_map.
    apply (@maskMembers_values (fun x => Forall masked (strings x))); [exact IH | constructor].
Qed.

(** X21: The hidden preview of the export: in the masked value every string,
    at any depth, is a masked string, while numbers, booleans and [null]
    stay as they are and arrays keep their length; an object whose member
    names are distinct, none of them [__proto__], keeps its names in order;
    a member named [__proto__] is dropped; and masking twice is masking
    once. *)
Theorem maskJsonValues_masks_every_string :
  (forall j : json, Forall masked (strings (maskJsonValues j))) /\
  (forall j : json, maskJsonValues (maskJsonValues j) = maskJsonValues j) /\
  (maskJsonValues JNull = JNull /\
   (forall b : bool, maskJsonValues (JBool b) = JBool b) /\
   (forall n : number, maskJsonValues (JNumber n) = JNumber n)) /\
  (forall items : list json,
      exists masked, maskJsonValues (JArray items) = JArray masked /\
                     List.length masked = List.length items) /\
  (forall members : list (jsString * json),
      tidy members ->
      maskJsonValues (JObject members)
      = JObject (map (fun kv => (fst kv, maskJsonValues (snd kv))) members)) /\
  (forall (members : list (jsString * json)) (v : json),
      maskJsonValues (JObject ((protoKey, v) :: members)) = maskJsonValues (JObject members)).
Proof.
  split; [exact maskJsonValues_strings|].
  split; [exact maskJsonValues_idempotent|].
  split; [repeat split; reflexivity|].
  split; [|split].
  - intros items. exists (map maskJsonValues items).
    split; [reflexivity | apply length_map].
  - intros members [Hnd Hproto]. rewrite maskJsonValues_object.
    rewrite maskMembers_distinct by assumption. reflexivity.
  - intros members v. rewrite !maskJsonValues_object. reflexivity.
Qed.

End ExportJsonSpec.

(* ================================================================== *)
(** ** CodexAccountsPage: the counts of the plan filter *)
(* ================================================================== *)

Module CodexTiers.
Import Presentation CodexPage.
Local Open Scope string_scope.

(** The counts shown beside the entries of the plan filter. *)
Record TierCounts : Type := {
  all : nat;
  FREE : nat;
  PLUS : nat;
  PRO : nat;
  TEAM : nat;
  ENTERPRISE : nat
}.

(** [if (tier in counts) counts[tier] += 1], as far as the six counts go:
    a name that the object only inherits leaves all of them as they are. *)
Definition countTier (counts : TierCounts) (tier : string) : TierCounts :=
  if String.eqb tier "all" then
    {| all := S (all counts); FREE := FREE counts; PLUS := PLUS counts; PRO := PRO counts;
       TEAM := TEAM counts; ENTERPRISE := ENTERPRISE counts |}
  else if String.eqb tier "FREE" then
    {| all := all counts; FREE := S (FREE counts); PLUS := PLUS counts; PRO := PRO counts;
       TEAM := TEAM counts; ENTERPRISE := ENTERPRISE counts |}
  else if String.eqb tier "PLUS" then
    {| all := all counts; FREE := FREE counts; PLUS := S (PLUS counts); PRO := PRO counts;
       TEAM := TEAM counts; ENTERPRISE := ENTERPRISE counts |}
  else if String.eqb tier "PRO" then
    {| all := all counts; FREE := FREE counts; PLUS := PLUS counts; PRO := S (PRO counts);
       TEAM := TEAM counts; ENTERPRISE := ENTERPRISE counts |}
  else if String.eqb tier "TEAM" then
    {| all := all counts; FREE := FREE counts; PLUS := PLUS counts; PRO := PRO counts;
       TEAM := S (TEAM counts); ENTERPRISE := ENTERPRISE counts |}
  else if String.eqb tier "ENTERPRISE" then
    {| all := all counts; FREE := FREE counts; PLUS := PLUS counts; PRO := PRO counts;
       TEAM := TEAM counts; ENTERPRISE := S (ENTERPRISE counts) |}
  else counts.

Section Page.
Variable B : JsString.Builtins.
Variable t : Translate.
Variable H : Codex.Types.

Definition tierCounts (accounts : list Codex.Account) : TierCounts :=
  fold_left (fun counts a => countTier counts (resolvePlanKey B t H accounts a))
            accounts
            {| all := List.length accounts; FREE := 0; PLUS := 0; PRO := 0; TEAM := 0;
               ENTERPRISE := 0 |}.

End Page.

End CodexTiers.

Module CodexTiersSpec.
Import Presentation CodexPage CodexTiers JsArrayFacts.
Local Open Scope string_scope.

(** The count that the plan filter shows for a tier. *)
Definition countOf (tier : string) (counts : TierCounts) : nat :=
  if String.eqb tier "FREE" then FREE counts
  else if String.eqb tier "PLUS" then PLUS counts
  else if String.eqb tier "PRO" then PRO counts
  else if String.eqb tier "TEAM" then TEAM counts
  else ENTERPRISE counts.

Definition tiers : list string := ["FREE"; "PLUS"; "PRO"; "TEAM"; "ENTERPRISE"].

Lemma countOf_countTier (tier key : string) (counts : TierCounts) :
  In tier tiers ->
  countOf tier (countTier counts key)
  = (countOf tier counts + (if String.eqb key tier then 1 else 0))%nat.
Proof.
  intros Htier. unfold tiers in Htier. cbn [In] in Htier.
  unfold countTier.
  destruct (String.eqb key "all") eqn:Eall.
  { apply String.eqb_eq in Eall. subst key.
    destruct Htier as [<-|[<-|[<-|[<-|[<-|[]]]]]]; cbn; lia. }
  destruct (String.eqb key "FREE") eqn:E1.
  { apply String.eqb_eq in E1. subst key.
    destruct Htier as [<-|[<-|[<-|[<-|[<-|[]]]]]]; cbn; lia. }
  destruct (String.eqb key "PLUS") eqn:E2.
  { apply String.eqb_eq in E2. subst key.
    destruct Htier as [<-|[<-|[<-|[<-|[<-|[]]]]]]; cbn; lia. }
  destruct (String.eqb key "PRO") eqn:E3.
  { apply String.eqb_eq in E3. subst key.
    destruct Htier as [<-|[<-|[<-|[<-|[<-|[]]]]]]; cbn; lia. }
  destruct (String.eqb key "TEAM") eqn:E4.
  { apply String.eqb_eq in E4. subst key.
    destruct Htier as [<-|[<-|[<-|[<-|[<-|[]]]]]]; cbn; lia. }
  destruct (String.eqb key "ENTERPRISE") eqn:E5.
  { apply String.eqb_eq in E5. subst key.
    destruct Htier as [<-|[<-|[<-|[<-|[<-|[]]]]]]; cbn; lia. }
  destruct Htier as [<-|[<-|[<-|[<-|[<-|[]]]]]];
    rewrite ?E1, ?E2, ?E3, ?E4, ?E5; lia.
Qed.

Lemma countOf_fold (tier : string) (keyOf : Codex.Account -> string)
    (accounts : list Codex.Account) (counts : TierCounts) :
  In tier tiers ->
  countOf tier (fold_left (fun counts a => countTier counts (keyOf a)) accounts counts)
  = (countOf tier counts
     + List.length (filter (fun a => String.eqb (keyOf a) tier) accounts))%nat.
Proof.
  intros Htier. revert counts.
  induction accounts as [|a accounts IH]; intros counts; cbn [fold_left filter];
    [cbn; lia|].
  rewrite IH, countOf_countTier by exact Htier.
  destruct (String.eqb (keyOf a) tier); cbn [List.length]; lia.
Qed.

Lemma tiers_disjoint (keyOf : Codex.Account -> string) (l : list Codex.Account) :
  (List.length (filter (fun a => String.eqb (keyOf a) "FREE") l)
   + List.length (filter (fun a => String.eqb (keyOf a) "PLUS") l)
   + List.length (filter (fun a => String.eqb (keyOf a) "PRO") l)
   + List.length (filter (fun a => String.eqb (keyOf a) "TEAM") l)
   + List.length (filter (fun a => String.eqb (keyOf a) "ENTERPRISE") l)
   <= List.length l)%nat.
Proof.
  induction l as [|a l IH]; [cbn; lia|].
  cbn [filter List.length].
  destruct (String.eqb (keyOf a) "FREE") eqn:E1.
  { apply String.eqb_eq in E1. rewrite E1. cbn [String.eqb Ascii.eqb Bool.eqb List.length].
    lia. }
  destruct (String.eqb (keyOf a) "PLUS") eqn:E2.
  { apply String.eqb_eq in E2. rewrite E2. cbn [String.eqb Ascii.eqb Bool.eqb List.length].
    lia. }
  destruct (String.eqb (keyOf a) "PRO") eqn:E3.
  { apply String.eqb_eq in E3. rewrite E3. cbn [String.eqb Ascii.eqb Bool.eqb List.length].
    lia. }
  destruct (String.eqb (keyOf a) "TEAM") eqn:E4.
  { apply String.eqb_eq in E4. rewrite E4. cbn [String.eqb Ascii.eqb Bool.eqb List.length].
    lia. }
  destruct (String.eqb (keyOf a) "ENTERPRISE"); cbn [List.length]; lia.
Qed.

Section Page.
Variable B : JsString.Builtins.
Variable t : Translate.
Variable H : Codex.Types.

(** X22: The plan filter keeps its promise: with the search box blank and no
    tag selected, choosing one of the five tiers shows exactly as many
    accounts as the count beside that tier says, whatever the sort order;
    and the five counts together do not exceed the number of accounts. *)
Theorem tierCounts_match_plan_filter (searchQuery : string)
    (Hblank : JsString.nonEmpty (JsString.trim B searchQuery) = false) :
  forall (accounts : list Codex.Account) (sortBy : string) (dir : SortDirection),
    (forall tier : string,
        In tier tiers ->
        List.length (filteredAccounts B t H accounts searchQuery tier [] sortBy dir)
        = countOf tier (tierCounts B t H accounts)) /\
    (FREE (tierCounts B t H accounts) + PLUS (tierCounts B t H accounts)
     + PRO (tierCounts B t H accounts) + TEAM (tierCounts B t H accounts)
     + ENTERPRISE (tierCounts B t H accounts) <= List.length accounts)%nat.
Proof.
  intros accounts sortBy dir.
  assert (Hcount : forall tier, In tier tiers ->
            countOf tier (tierCounts B t H accounts)
            = List.length (filter (fun a => String.eqb (resolvePlanKey B t H accounts a) tier)
                                  accounts)).
  { intros tier Htier. unfold tierCounts.
    rewrite (@countOf_fold tier (resolvePlanKey B t H accounts)) by exact Htier.
    unfold tiers in Htier. cbn [In] in Htier.
    destruct Htier as [<-|[<-|[<-|[<-|[<-|[]]]]]]; reflexivity. }
  split.
  - intros tier Htier. rewrite (Hcount tier Htier).
    rewrite FilteredAccountsSpec.filteredAccounts_kept.
    rewrite <- (Permutation_length (sort_Permutation _ _)).
    unfold FilteredAccountsSpec.kept. rewrite Hblank.
    assert (Hnot : String.eqb tier "all" = false).
    { unfold tiers in Htier. cbn [In] in Htier.
      destruct Htier as [<-|[<-|[<-|[<-|[<-|[]]]]]]; reflexivity. }
    rewrite Hnot. reflexivity.
  - pose proof (Hcount "FREE" (or_introl eq_refl)) as H1.
    pose proof (Hcount "PLUS" (or_intror (or_introl eq_refl))) as H2.
    pose proof (Hcount "PRO" (or_intror (or_intror (or_introl eq_refl)))) as H3.
    pose proof (Hcount "TEAM" (or_intror (or_intror (or_intror (or_introl eq_refl))))) as H4.
    pose proof (Hcount "ENTERPRISE"
                  (or_intror (or_intror (or_intror (or_intror (or_introl eq_refl)))))) as H5.
    cbn [countOf String.eqb Ascii.eqb Bool.eqb] in H1, H2, H3, H4, H5.
    rewrite H1, H2, H3, H4, H5. apply tiers_disjoint.
Qed.

End Page.

Definition sampleTierAccounts : list Codex.Account :=
  [ SampleCodex.account "a" 1 [] Undefined; SampleCodex.account "b" 2 [] Undefined ].

Lemma tierCounts_match_plan_filter_sample :
  JsString.nonEmpty (JsString.trim JsString.ascii "  ") = false /\
  List.length (filteredAccounts JsString.ascii Sample.translate SampleCodex.types
                 sampleTierAccounts "  " "PLUS" [] "created_at" desc)
  = countOf "PLUS" (tierCounts JsString.ascii Sample.translate SampleCodex.types
                      sampleTierAccounts) /\
  countOf "PLUS" (tierCounts JsString.ascii Sample.translate SampleCodex.types
                    sampleTierAccounts) = 2%nat.
Proof.
  split; [reflexivity|]. split; [|vm_compute; reflexivity].
  exact (proj1 (@tierCounts_match_plan_filter JsString.ascii Sample.translate
                  SampleCodex.types "  " eq_refl sampleTierAccounts "created_at" desc)
               "PLUS" (or_intror (or_introl eq_refl))).
Defined.

End CodexTiersSpec.

(* ================================================================== *)
(** ** Paths into a payload *)
(* ================================================================== *)

Module PlatformPathsSpec.
Import PlatformUtils PlatformPaths.
Local Open Scope string_scope.

(** A loop that returns at its first hit. *)
Lemma firstSome_first {A R : Type} (f : A -> option R) (xs : list A) (r : R) :
  firstSome f xs = Some r ->
  exists before x after,
    xs = (before ++ x :: after)%list /\ f x = Some r /\
    Forall (fun y => f y = None) before.
Proof.
  induction xs as [|x xs IH]; cbn [firstSome]; [discriminate|].
  destruct (f x) as [r'|] eqn:E.
  - intros E'. injection E' as <-. exists [], x, xs.
    split; [reflexivity|]. split; [exact E | constructor].
  - intros E'. destruct (IH E') as (before & y & after & -> & Hy & Hb).
    exists (x :: before), y, after. split; [reflexivity|]. split; [exact Hy|].
    constructor; assumption.
Qed.

Lemma firstSome_none {A R : Type} (f : A -> option R) (xs : list A) :
  firstSome f xs = None <-> Forall (fun y => f y = None) xs.
Proof.
  induction xs as [|x xs IH]; cbn [firstSome]; [split; [constructor | reflexivity]|].
  destruct (f x) as [r|] eqn:E.
  - split; [discriminate|]. intros Hall. inversion Hall; congruence.
  - rewrite IH. split; [intros Hall; constructor; assumption|].
    intros Hall. inversion Hall; assumption.
Qed.

Section Builtins.
Variable B : JsString.Builtins.
Variable Number_of_string : string -> number.
Variable Date_parse : string -> number.

Lemma walk_null (path : list string) :
  walk Number_of_string (Plain VNull) path = Plain VNull.
Proof. destruct path; reflexivity. Qed.

Lemma walk_app (current : reached) (p q : list string) :
  walk Number_of_string current (p ++ q)
  = walk Number_of_string (walk Number_of_string current p) q.
Proof.
  revert current. induction p as [|key p IH]; intros current; cbn [app walk];
    [reflexivity|].
  destruct (stepPath Number_of_string current key) as [next|]; [apply IH|].
  symmetry. apply walk_null.
Qed.

(** X23: Paths compose: following a path [p ++ q] from the root is following
    [q] from what [p] reaches, also when [p] leads nowhere -- the lookup is
    then [null], and stays [null] along every further key.  In an array a
    key reads the element whose index [Number(key)] is, and any other key
    ends the lookup with [null] rather than [undefined]; in a record a
    missing name reads [undefined], and the path may go on only through
    records and arrays. *)
Theorem getPathValue_composes :
  (forall (root : value) (p q : list string),
      getPathValue Number_of_string root (p ++ q)
      = walk Number_of_string (getPathValue Number_of_string root p) q) /\
  (forall path : list string, getPathValue Number_of_string VNull path = Plain VNull) /\
  (forall (v : value) (key : string) (rest : list string),
      isRecord v = false -> (forall items, v <> VArray items) ->
      getPathValue Number_of_string v (key :: rest) = Plain VNull) /\
  (forall (items : list value) (key : string) (rest : list string),
      getPathValue Number_of_string (VArray items) (key :: rest)
      = match arrayIndex Number_of_string key (List.length items) with
        | Some index =>
            getPathValue Number_of_string (nth index items VUndefined) rest
        | None => Plain VNull
        end) /\
  (forall (items : list value) (key : string) (index : nat),
      arrayIndex Number_of_string key (List.length items) = Some index ->
      (index < List.length items)%nat /\
      exists q, Number_of_string key = Fin q /\ (q == inject_Z (Z.of_nat index))%Q).
Proof.
  split; [|split; [|split; [|split]]].
  - intros root p q. apply walk_app.
  - intros path. apply walk_null.
  - intros v key rest Hrec Harr. unfold getPathValue. cbn [walk].
    destruct v; try reflexivity.
    + exfalso. apply (Harr items). reflexivity.
    + discriminate Hrec.
  - intros items key rest. unfold getPathValue. cbn [walk stepPath].
    destruct (arrayIndex Number_of_string key (List.length items)); reflexivity.
  - intros items key index. unfold arrayIndex.
    destruct (Number_of_string key) as [q| | |]; try discriminate.
    destruct (Qeq_bool (inject_Z (Qfloor q)) q) eqn:Hint; cbn [andb]; [|discriminate].
    destruct (Qle_bool 0 q) eqn:Hpos; cbn [andb]; [|discriminate].
    destruct (Qle_bool (inject_Z (Z.of_nat (List.length items))) q) eqn:Hlen;
      cbn [negb]; [discriminate|].
    intros E. injection E as <-.
    apply Qeq_bool_iff in Hint. apply Qle_bool_iff in Hpos.
    apply Qle_bool_false in Hlen.
    assert (Hfloor : (0 <= Qfloor q)%Z).
    { change 0%Z with (Qfloor 0). apply Qfloor_resp_le. exact Hpos. }
    split.
    + assert (Hbound : (Qfloor q < Z.of_nat (List.length items))%Z).
      { rewrite Zlt_Qlt. rewrite Hint. exact Hlen. }
      lia.
    + exists q. split; [reflexivity|].
      rewrite Z2Nat.id by exact Hfloor. symmetry. exact Hint.
Qed.

(** The inherited names of a record. *)
Definition inherited (fields : list (string * value)) (key : string) : bool :=
  negb (hasOwn fields key) && (String.eqb key "__proto__" || isPrototypeMethod key).

Lemma walk_function (path : list string) :
  walk Number_of_string BuiltinFunction path = BuiltinFunction \/
  walk Number_of_string BuiltinFunction path = Plain VNull.
Proof. destruct path; [left | right]; reflexivity. Qed.

Lemma walk_undefined (path : list string) :
  walk Number_of_string (Plain VUndefined) path = Plain VUndefined \/
  walk Number_of_string (Plain VUndefined) path = Plain VNull.
Proof. destruct path; [left | right]; reflexivity. Qed.

(** Nothing of the payload is reached through an inherited name. *)
Definition nothing (r : reached) : Prop :=
  r = ObjectPrototype \/ r = BuiltinFunction \/ r = Plain VNull \/ r = Plain VUndefined.

Lemma walk_prototype (path : list string) :
  nothing (walk Number_of_string ObjectPrototype path).
Proof.
  destruct path as [|key rest]; [left; reflexivity|].
  cbn [walk stepPath]. unfold readPrototype.
  destruct (String.eqb key "__proto__").
  - right. right. left. apply walk_null.
  - destruct (isPrototypeMethod key).
    + destruct (walk_function rest) as [-> | ->];
        [right; left; reflexivity | right; right; left; reflexivity].
    + destruct (walk_undefined rest) as [-> | ->];
        [right; right; right; reflexivity | right; right; left; reflexivity].
Qed.

Lemma nothing_extracted (r : reached) :
  nothing r ->
  onPlain (toNumber B Number_of_string) r = None /\
  onPlain (toStringValue B) r = None /\
  onPlain (normalizeTimestamp B Number_of_string Date_parse) r = None.
Proof.
  intros [-> | [-> | [-> | ->]]]; repeat split; reflexivity.
Qed.

(** X24: Inherited names never leak into the extracted data: a path that
    steps through [__proto__] or a method name of [Object.prototype] which
    the record does not own ([constructor], [toString], ...) reaches nothing
    of the payload, so the path yields no number, no string and no
    timestamp, whatever follows the name; a name that the record owns is
    read from the record. *)
Theorem inherited_names_yield_nothing :
  (forall (fields : list (string * value)) (key : string) (rest : list string),
      inherited fields key = true ->
      let r := getPathValue Number_of_string (VObject fields) (key :: rest) in
      nothing r /\
      onPlain (toNumber B Number_of_string) r = None /\
      onPlain (toStringValue B) r = None /\
      onPlain (normalizeTimestamp B Number_of_string Date_parse) r = None) /\
  (forall (fields : list (string * value)) (key : string) (rest : list string),
      hasOwn fields key = true ->
      getPathValue Number_of_string (VObject fields) (key :: rest)
      = getPathValue Number_of_string (getField fields key) rest).
Proof.
  split.
  - intros fields key rest Hin. cbv zeta.
    assert (Hn : nothing (getPathValue Number_of_string (VObject fields) (key :: rest))).
    { unfold getPathValue. cbn [walk stepPath]. unfold readMember, inherited in *.
      destruct (hasOwn fields key); [discriminate Hin|]. cbn [negb andb] in Hin.
      destruct (String.eqb key "__proto__"); [apply walk_prototype|].
      cbn [orb] in Hin. rewrite Hin.
      destruct (walk_function rest) as [-> | ->];
        [right; left; reflexivity | right; right; left; reflexivity]. }
    split; [exact Hn | apply nothing_extracted; exact Hn].
  - intros fields key rest Hown. unfold getPathValue. cbn [walk stepPath].
    unfold readMember. rewrite Hown. reflexivity.
Qed.

(** X25: The first-match extractors answer the result of the first path (or
    value) that gives one, and [null] exactly when none does.  What
    [firstNumber] answers is a finite number; what [firstString] answers is
    a trimmed text that is not empty; what [firstRecord] answers is a
    record of the list, and nothing before it in the list is a record. *)
Theorem first_match_extractors :
  (forall (root : value) (paths : list (list string)),
      match firstNumber B Number_of_string root paths with
      | Some n =>
          isFinite n = true /\
          exists before path after,
            paths = (before ++ path :: after)%list /\
            onPlain (toNumber B Number_of_string) (getPathValue Number_of_string root path)
            = Some n /\
            Forall (fun p => onPlain (toNumber B Number_of_string)
                                     (getPathValue Number_of_string root p) = None) before
      | None =>
          Forall (fun p => onPlain (toNumber B Number_of_string)
                                   (getPathValue Number_of_string root p) = None) paths
      end) /\
  (forall (root : value) (paths : list (list string)),
      match firstString B Number_of_string root paths with
      | Some s =>
          s <> "" /\
          exists before path after raw,
            paths = (before ++ path :: after)%list /\
            getPathValue Number_of_string root path = Plain (VString raw) /\
            s = JsString.trim B raw /\
            Forall (fun p => onPlain (toStringValue B)
                                     (getPathValue Number_of_string root p) = None) before
      | None =>
          Forall (fun p => onPlain (toStringValue B)
                                   (getPathValue Number_of_string root p) = None) paths
      end) /\
  (forall values : list value,
      match firstRecord values with
      | Some r =>
          isRecord r = true /\
          exists before after,
            values = (before ++ r :: after)%list /\
            Forall (fun v => isRecord v = false) before
      | None => Forall (fun v => isRecord v = false) values
      end).
Proof.
  split; [|split].
  - intros root paths. unfold firstNumber.
    destruct (firstSome _ paths) as [n|] eqn:E.
    + apply firstSome_first in E. destruct E as (before & path & after & Hp & Hn & Hb).
      split; [|exists before, path, after; repeat split; assumption].
      destruct (getPathValue Number_of_string root path) as [v| |];
        cbn [onPlain] in Hn; try discriminate Hn.
      destruct v as [| |b|m|s|items|fields]; cbn [toNumber] in Hn; try discriminate Hn.
      * destruct (isFinite m) eqn:Hm; [|discriminate Hn]. injection Hn as <-. exact Hm.
      * destruct (isFinite (Number_of_string (JsString.trim B s))) eqn:Hm;
          [|discriminate Hn].
        injection Hn as <-. exact Hm.
    + apply firstSome_none in E. exact E.
  - intros root paths. unfold firstString.
    assert (Hstep : forall p,
              match onPlain (toStringValue B) (getPathValue Number_of_string root p) with
              | Some s => if JsString.nonEmpty s then Some s else None
              | None => None
              end
              = onPlain (toStringValue B) (getPathValue Number_of_string root p)).
    { intros p. destruct (getPathValue Number_of_string root p) as [v| |]; try reflexivity.
      cbn [onPlain]. destruct v; try reflexivity. cbn [toStringValue].
      destruct (JsString.nonEmpty (JsString.trim B s)) eqn:Hs; [rewrite Hs|]; reflexivity. }
    destruct (firstSome _ paths) as [s|] eqn:E.
    + apply firstSome_first in E. destruct E as (before & path & after & Hp & Hs & Hb).
      rewrite Hstep in Hs.
      destruct (getPathValue Number_of_string root path) as [v| |] eqn:Hv;
        cbn [onPlain] in Hs; try discriminate Hs.
      destruct v as [| |b|m|raw|items|fields]; cbn [toStringValue] in Hs;
        try discriminate Hs.
      destruct (JsString.nonEmpty (JsString.trim B raw)) eqn:Hne; [|discriminate Hs].
      injection Hs as <-. split.
      * unfold JsString.nonEmpty in Hne. apply negb_true_iff, String.eqb_neq in Hne.
        exact Hne.
      * exists before, path, after, raw. split; [exact Hp|]. split; [exact Hv|].
        split; [reflexivity|].
        eapply Forall_impl; [|exact Hb]. intros p Hq. cbv beta in Hq.
        rewrite Hstep in Hq. exact Hq.
    + apply firstSome_none in E.
      eapply Forall_impl; [|exact E]. intros p Hq. cbv beta in Hq.
      rewrite Hstep in Hq. exact Hq.
  - intros values. unfold firstRecord.
    destruct (firstSome _ values) as [r|] eqn:E.
    + apply firstSome_first in E. destruct E as (before & v & after & Hp & Hv & Hb).
      destruct (isRecord v) eqn:Hrec; [|discriminate Hv]. injection Hv as <-.
      split; [exact Hrec|]. exists before, after. split; [exact Hp|].
      eapply Forall_impl; [|exact Hb]. intros w Hw. cbv beta in Hw.
      destruct (isRecord w); [discriminate Hw | reflexivity].
    + apply firstSome_none in E.
      eapply Forall_impl; [|exact E]. intros w Hw. cbv beta in Hw.
      destruct (isRecord w); [discriminate Hw | reflexivity].
Qed.

End Builtins.

End PlatformPathsSpec.

(* ================================================================== *)
(** ** The quota previews of the instance pages *)
(* ================================================================== *)

Module InstancePreviews.
Import Presentation.

Section Previews.
Variable B : JsString.Builtins.
Variable t : Translate.

(** The [lines] of [renderWindsurfQuotaPreview]. *)
Definition windsurfPreviewLines (H : Windsurf.Types) (account : Windsurf.Account)
    : list Line.QuotaPreviewLine :=
  let presentation := buildWindsurfAccountPresentation B t H account in
  buildQuotaPreviewLines (View.quotaItems presentation) (Some (of_Z 3)).

(** The [lines] of [renderCodexQuotaPreview]. *)
Definition codexPreviewLines (H : Codex.Types) (account : Codex.Account)
    : list Line.QuotaPreviewLine :=
  let presentation := buildCodexAccountPresentation B t H account in
  buildQuotaPreviewLines (View.quotaItems presentation) (Some (of_Z 3)).

(** The [lines] of the Antigravity preview of [InstancesPage]. *)
Definition antigravityPreviewLines (H : Antigravity.Types) (account : Antigravity.Account)
    (displayGroups : list DisplayGroup) : list Line.QuotaPreviewLine :=
  let presentation := buildAntigravityAccountPresentation B t H account displayGroups in
  buildQuotaPreviewLines (View.quotaItems presentation) (Some (of_Z 3)).

(** The [lines] of the preview of [GitHubCopilotInstancesContent]. *)
Definition copilotPreviewLines (H : Copilot.Types) (account : Copilot.Account)
    : list Line.QuotaPreviewLine :=
  let presentation := buildGitHubCopilotAccountPresentation B t H account in
  buildQuotaPreviewLines (View.quotaItems presentation) (Some (of_Z 3)).

End Previews.

End InstancePreviews.

Module InstancePreviewsSpec.
Import Presentation InstancePreviews.
Local Open Scope string_scope.

Lemma preview_three (items : list Metric.UnifiedQuotaMetric) :
  buildQuotaPreviewLines items (Some (of_Z 3)) = map previewLine (firstn 3 items).
Proof. apply (PresentationSpec.buildQuotaPreviewLines_int items 3). Qed.

Section Previews.
Variable B : JsString.Builtins.
Variable t : Translate.

(** X26: The previews of the instance pages cut nothing off where the
    builder fixes the items: a Windsurf account always shows the two lines
    [prompt] and [addon], each with an integer percentage within 0..100 and
    the text of its label, a space and that percentage followed by [%]; a
    GitHub Copilot account always shows the three lines [inline], [chat]
    and [premium]; so for these two the note for an empty preview never
    appears.  A Codex account shows the first three of its quota windows
    and an Antigravity account the first three of its display items, in
    their order, and the preview is empty exactly when there is none. *)
Theorem instance_previews_show_builder_items :
  (forall (H : Windsurf.Types) (account : Windsurf.Account),
      let lines := windsurfPreviewLines B t H account in
      map Line.key lines = ["prompt"; "addon"] /\
      Forall (fun line =>
                exists z : Z,
                  (0 <= z <= 100)%Z /\
                  Line.percentage line = of_Z z /\
                  Line.text line
                  = Line.label line ++ " " ++ JsString.numberToString B (of_Z z) ++ "%")
             lines) /\
  (forall (H : Copilot.Types) (account : Copilot.Account),
      map Line.key (copilotPreviewLines B t H account) = ["inline"; "chat"; "premium"]) /\
  (forall (H : Codex.Types) (account : Codex.Account),
      let windows := Codex.getCodexQuotaWindows H (Codex.quota account) in
      let lines := codexPreviewLines B t H account in
      map Line.key lines = firstn 3 (map Codex.window_id windows) /\
      map Line.percentage lines = firstn 3 (map Codex.window_percentage windows) /\
      (lines = [] <-> windows = [])) /\
  (forall (H : Antigravity.Types) (account : Antigravity.Account)
          (displayGroups : list DisplayGroup),
      let items := Antigravity.getAntigravityQuotaDisplayItems H account displayGroups in
      let lines := antigravityPreviewLines B t H account displayGroups in
      map Line.key lines = firstn 3 (map item_key items) /\
      map Line.percentage lines = firstn 3 (map item_percentage items) /\
      (lines = [] <-> items = [])).
Proof.
  split; [|split; [|split]].
  - intros H account. cbv zeta. unfold windsurfPreviewLines. rewrite preview_three.
    unfold buildWindsurfAccountPresentation. cbn [View.quotaItems firstn map].
    split; [reflexivity|].
    repeat constructor;
      match goal with
      | |- context [creditMetric _ _ _ _ (buildCreditMetrics ?u ?tt ?l)] =>
          destruct (PresentationFacts.clampPercent_range (of_Z 0)) as (_ & _ & _);
          pose proof (CreditMetricsSpec.buildCreditMetrics_usedPercent u tt l) as Hp;
          exists (clampZ (CreditMetricsSpec.roundedPercent u tt l));
          split; [apply PresentationFacts.clampZ_range|];
          unfold previewLine, creditMetric, percentText;
          cbn [Line.percentage Line.text Line.label Metric.percentage Metric.label
               Metric.valueText];
          rewrite Hp; split; reflexivity
      end.
  - intros H account. unfold copilotPreviewLines. rewrite preview_three. reflexivity.
  - intros H account. cbv zeta. unfold codexPreviewLines. rewrite preview_three.
    unfold buildCodexAccountPresentation. cbn [View.quotaItems].
    set (windows := Codex.getCodexQuotaWindows H (Codex.quota account)).
    rewrite <- !firstn_map, !map_map. cbn [previewLine Line.key Line.percentage
                                              Metric.key Metric.percentage].
    split; [reflexivity|]. split; [reflexivity|].
    destruct windows as [|w rest]; cbn [map firstn]; split; try reflexivity;
      intros E; discriminate E.
  - intros H account displayGroups. cbv zeta. unfold antigravityPreviewLines.
    rewrite preview_three.
    unfold buildAntigravityAccountPresentation. cbn [View.quotaItems].
    set (items := Antigravity.getAntigravityQuotaDisplayItems H account displayGroups).
    rewrite <- !firstn_map, !map_map. cbn [previewLine Line.key Line.percentage
                                              Metric.key Metric.percentage].
    split; [reflexivity|]. split; [reflexivity|].
    destruct items as [|w rest]; cbn [map firstn]; split; try reflexivity;
      intros E; discriminate E.
Qed.

End Previews.

End InstancePreviewsSpec.
